(** * NHL odds / Polymarket trading bot: a shallow embedding

    The development follows the services of the repository:
    - [OddsComparison]  (src/services/OddsComparison.js): the two snapshot
      stores, the odds conversions, matching and the value calculation;
    - [Exchange]        (src/services/PolymarketClient.js): the answers of
      the order interface, as far as the bot reads them;
    - [TradingBot]      (TradingBot.js): the position ledger, buy, sell and
      the auto-sell sweep, each call taken as one step;
    - [Interleaved]     (TradingBot.js): the same methods cut at their
      [await]s, with any order of calls and answers;
    - [BoltOddsClient]  (src/services/BoltOddsClient.js): the reconnection
      policy of the feed connection;
    - [OddsData]        (src/services/OddsComparison.js): cleanup and status
      of the stores, and the writes that reach them;
    - [Subscription]    (src/services/BoltOddsClient.js): the filters and
      the subscribe messages;
    - [Orders]          (src/services/PolymarketClient.js): the order
      requests;
    - [Accounting], [Schedules]: exposure, the trail of orders, and
      schedules of calls in flight together;
    - [Runtime]         (TradingBot.js): the events that drive the bot;
    - [Methods]         (src/services/OddsComparison.js): the reading
      methods written with the fields they are given and leave.

    JavaScript numbers are modelled by [JSNum.num]: an exact rational or one
    of the three special values.  The special values and the behaviour of
    division by zero are modelled; the rounding of binary64 arithmetic,
    overflow and underflow are not, in the arithmetic and in
    [Parse.parseFloat] alike.  A number of the model is the number the
    program computes up to rounding only; a statement on edges and
    implied probabilities names a computed number by the expression
    that computes it.
    A JavaScript [Map] is modelled by an association list in insertion order
    ([JSMap]).  Logging is left out, but for what an order request hands
    to the logger ([Orders]). *)

From Stdlib Require Import List ZArith QArith Qabs Qround Bool String Ascii.
From Stdlib Require Import Lia Lqa Permutation Sorted.
Import ListNotations.

Set Implicit Arguments.

(* ------------------------------------------------------------------------- *)
(** ** JavaScript numbers *)

Module JSNum.

Inductive num : Type :=
| Fin (q : Q)
| PInf
| NInf
| NaN.

Definition of_Z (z : Z) : num := Fin (inject_Z z).

Definition Qltb (a b : Q) : bool := negb (Qle_bool b a).

(** Sign of a finite value, used by multiplication and division. *)
Definition Qsgn (q : Q) : comparison := (q ?= 0)%Q.

Definition neg (a : num) : num :=
  match a with
  | Fin q => Fin (- q)
  | PInf => NInf
  | NInf => PInf
  | NaN => NaN
  end.

Definition add (a b : num) : num :=
  match a, b with
  | NaN, _ | _, NaN => NaN
  | Fin x, Fin y => Fin (x + y)
  | PInf, NInf | NInf, PInf => NaN
  | PInf, _ | _, PInf => PInf
  | NInf, _ | _, NInf => NInf
  end.

Definition sub (a b : num) : num := add a (neg b).

(** An infinity with the sign given by [c]; [Eq] stands for 0 * Infinity. *)
Definition inf_of_sign (c : comparison) : num :=
  match c with
  | Gt => PInf
  | Lt => NInf
  | Eq => NaN
  end.

Definition mul (a b : num) : num :=
  match a, b with
  | NaN, _ | _, NaN => NaN
  | Fin x, Fin y => Fin (x * y)
  | Fin x, PInf | PInf, Fin x => inf_of_sign (Qsgn x)
  | Fin x, NInf | NInf, Fin x => inf_of_sign (CompOpp (Qsgn x))
  | PInf, PInf | NInf, NInf => PInf
  | PInf, NInf | NInf, PInf => NInf
  end.

(** [x / 0] is an infinity of the sign of [x] (the zero divisors met in the
    program are positive zeros), [0 / 0] and [Infinity / Infinity] are NaN. *)
Definition div (a b : num) : num :=
  match a, b with
  | NaN, _ | _, NaN => NaN
  | Fin x, Fin y =>
      if Qeq_bool y 0 then inf_of_sign (Qsgn x) else Fin (x / y)
  | Fin _, PInf | Fin _, NInf => Fin 0
  | PInf, Fin y => if Qltb y 0 then NInf else PInf
  | NInf, Fin y => if Qltb y 0 then PInf else NInf
  | _, _ => NaN
  end.

(** Math.abs *)
Definition abs (a : num) : num :=
  match a with
  | Fin q => Fin (Qabs q)
  | PInf | NInf => PInf
  | NaN => NaN
  end.

(** The comparison operators; every comparison with NaN is false. *)
Definition ltb (a b : num) : bool :=
  match a, b with
  | NaN, _ | _, NaN => false
  | Fin x, Fin y => Qltb x y
  | NInf, NInf => false
  | NInf, _ => true
  | _, PInf => match a with PInf => false | _ => true end
  | _, _ => false
  end.

Definition leb (a b : num) : bool :=
  match a, b with
  | NaN, _ | _, NaN => false
  | Fin x, Fin y => Qle_bool x y
  | NInf, _ => true
  | _, PInf => true
  | _, _ => false
  end.

Definition gtb (a b : num) : bool := ltb b a.
Definition geb (a b : num) : bool := leb b a.

(** Math.round: the nearest integer, halves towards +Infinity. *)
Definition round (a : num) : num :=
  match a with
  | Fin q => Fin (inject_Z (Qfloor (q + (1 # 2))))
  | _ => a
  end.

(** Math.min of two arguments. *)
Definition min (a b : num) : num :=
  match a, b with
  | NaN, _ | _, NaN => NaN
  | _, _ => if ltb b a then b else a
  end.

(** ToBoolean on a number: 0 and NaN are falsy. *)
Definition truthy (a : num) : bool :=
  match a with
  | Fin q => negb (Qeq_bool q 0)
  | PInf | NInf => true
  | NaN => false
  end.

Definition is_nan (a : num) : bool :=
  match a with
  | NaN => true
  | _ => false
  end.

(** Numeric equality of two values of the model (Q keeps fractions
    unreduced, so this is coarser than Leibniz equality). *)
Definition eqn (a b : num) : Prop :=
  match a, b with
  | Fin x, Fin y => (x == y)%Q
  | PInf, PInf | NInf, NInf | NaN, NaN => True
  | _, _ => False
  end.

End JSNum.

Import JSNum.

Declare Scope num_scope.
Delimit Scope num_scope with num.
Bind Scope num_scope with num.
Infix "+" := add : num_scope.
Infix "-" := sub : num_scope.
Infix "*" := mul : num_scope.
Infix "/" := div : num_scope.
Infix ">?" := gtb (at level 70, no associativity) : num_scope.
Infix ">=?" := geb (at level 70, no associativity) : num_scope.
Infix "<?" := ltb (at level 70, no associativity) : num_scope.
Infix "<=?" := leb (at level 70, no associativity) : num_scope.

(* ------------------------------------------------------------------------- *)
(** ** JavaScript [Map] with string keys

    Entries are kept in insertion order, which is the iteration order of a
    [Map]: [set] on a present key replaces the value in place, on an absent
    key appends the entry. *)

Module JSMap.

Section Ops.
Variable V : Type.

Definition t := list (string * V).

Definition empty : t := [].

Fixpoint get (k : string) (m : t) : option V :=
  match m with
  | [] => None
  | (k', v) :: r => if String.eqb k k' then Some v else get k r
  end.

Definition has (k : string) (m : t) : bool :=
  match get k m with
  | Some _ => true
  | None => false
  end.

Fixpoint set (k : string) (v : V) (m : t) : t :=
  match m with
  | [] => [(k, v)]
  | (k', v') :: r =>
      if String.eqb k k' then (k, v) :: r else (k', v') :: set k v r
  end.

Definition delete (k : string) (m : t) : t :=
  filter (fun e => negb (String.eqb k (fst e))) m.

Definition keys (m : t) : list string := map fst m.
Definition values (m : t) : list V := map snd m.
Definition size (m : t) : nat := List.length m.

(** The representation invariant of a [Map]: one entry per key. *)
Definition wf (m : t) : Prop := NoDup (keys m).
End Ops.

Arguments empty {V}.

End JSMap.

(* ------------------------------------------------------------------------- *)
(** ** [parseFloat] on strings

    Leading blanks, an optional sign, then either [Infinity] or a decimal
    literal with optional fraction and exponent; whatever follows is
    ignored, and a string with no such prefix parses to NaN. *)

Module Parse.

Open Scope Z_scope.

Definition digit_of (c : ascii) : option Z :=
  let n := Z.of_nat (nat_of_ascii c) in
  if (48 <=? n) && (n <=? 57) then Some (n - 48) else None.

Definition is_blank (c : ascii) : bool :=
  let n := nat_of_ascii c in
  (Nat.eqb n 32 || Nat.eqb n 9 || Nat.eqb n 10 || Nat.eqb n 11
   || Nat.eqb n 12 || Nat.eqb n 13)%bool.

Fixpoint skip_blanks (s : string) : string :=
  match s with
  | String c r => if is_blank c then skip_blanks r else s
  | EmptyString => s
  end.

(** Reads a run of digits: its value on top of [acc], how many digits were
    read on top of [cnt], and the rest of the string. *)
Fixpoint read_digits (s : string) (acc : Z) (cnt : nat) : Z * nat * string :=
  match s with
  | String c r =>
      match digit_of c with
      | Some d => read_digits r (10 * acc + d) (S cnt)
      | None => (acc, cnt, s)
      end
  | EmptyString => (acc, cnt, s)
  end.

Definition read_sign (s : string) : Z * string :=
  match s with
  | String "-"%char r => (-1, r)
  | String "+"%char r => (1, r)
  | _ => (1, s)
  end.

(** The exponent part, 0 when there is none or when it has no digit. *)
Definition read_exponent (s : string) : Z :=
  match s with
  | String c r =>
      if (Ascii.eqb c "e" || Ascii.eqb c "E")%bool then
        let (sg, r') := read_sign r in
        let '(e, n, _) := read_digits r' 0 0%nat in
        if Nat.eqb n 0 then 0 else sg * e
      else 0
  | EmptyString => 0
  end.

Definition pow10 (e : Z) : Q :=
  if 0 <=? e then inject_Z (10 ^ e) else (1 # Z.to_pos (10 ^ (- e)))%Q.

Definition parseFloat (s : string) : num :=
  let (sg, s1) := read_sign (skip_blanks s) in
  if String.prefix "Infinity" s1 then (if sg <? 0 then NInf else PInf)
  else
    let '(ip, ni, s2) := read_digits s1 0 0%nat in
    let '(fp, nf, s3) :=
      match s2 with
      | String "."%char r => read_digits r 0 0%nat
      | _ => (0, 0%nat, s2)
      end in
    if Nat.eqb (ni + nf) 0 then NaN
    else
      let scale := 10 ^ Z.of_nat nf in
      let mant := ((sg * (ip * scale + fp)) # Z.to_pos scale)%Q in
      Fin (Qred (mant * pow10 (read_exponent s3))).

End Parse.

(** [Array.prototype.sort] with a comparator: a stable sort, [a] stays in
    front of [b] unless [cmp a b > 0] (a NaN result counts as 0).  Written
    as a right-to-left insertion sort. *)
Section Sort.
Variable A : Type.
Variable cmp : A -> A -> num.

Fixpoint sort_insert (x : A) (l : list A) : list A :=
  match l with
  | [] => [x]
  | y :: r => if (cmp x y >? Fin 0)%num then y :: sort_insert x r else x :: l
  end.

Definition js_sort (l : list A) : list A := fold_right sort_insert [] l.
End Sort.

(** The comparator [(a, b) => key(b) - key(a)] and the order it asks for. *)
Definition by_key_desc {A : Type} (key : A -> num) (a b : A) : num :=
  (key b - key a)%num.

Definition descending {A : Type} (key : A -> num) (a b : A) : Prop :=
  (key a >=? key b)%num = true.

(** The elements pushed by a loop body that pushes at most one. *)
Definition pushed {A : Type} (o : option A) : list A :=
  match o with
  | Some a => [a]
  | None => []
  end.

(* ------------------------------------------------------------------------- *)
(** ** src/services/OddsComparison.js *)

Module OddsComparison.

Open Scope string_scope.
Open Scope list_scope.

(** One entry of [gameData.outcomes]; [odds] is the raw odds string. *)
Record Outcome : Type := mkOutcome {
  outcome_name : string;
  outcome_target : string;
  odds : string;
  link : string
}.

(** A feed event payload.  [outcomes] lists the entries of the outcomes
    object in key order; an absent object is the empty list
    ([gameData.outcomes || {}]). *)
Record GameData : Type := mkGameData {
  sport : string;
  home_team : string;
  away_team : string;
  game : string;
  outcomes : list (string * Outcome)
}.

(** [{...gameData, timestamp: Date.now()}] *)
Record BoltSnapshot : Type := mkBoltSnapshot {
  bs_data : GameData;
  bs_timestamp : Z
}.

(** The [price] property of a market-data object: missing, null or a
    number. *)
Inductive PriceField : Type :=
| PriceAbsent
| PriceNull
| PriceNum (n : num).

Record MarketData : Type := mkMarketData {
  price : PriceField
}.

(** [{...marketData, timestamp: Date.now()}] *)
Record PolySnapshot : Type := mkPolySnapshot {
  ps_data : MarketData;
  ps_timestamp : Z
}.

(** The fields of the class. *)
Record t : Type := mkOddsComparison {
  boltOddsData : JSMap.t BoltSnapshot;
  polymarketData : JSMap.t PolySnapshot;
  valueThreshold : num
}.

(** constructor; [threshold] is [config.MIN_VALUE_THRESHOLD]. *)
Definition new (threshold : num) : t :=
  mkOddsComparison JSMap.empty JSMap.empty threshold.

(** A property read inside a template string; a missing one prints as
    [undefined]. *)
Definition show (o : option string) : string :=
  match o with
  | Some s => s
  | None => "undefined"
  end.

Definition gameKeyOf (sp home away gm : option string) : string :=
  (show sp ++ "_" ++ show home ++ "_" ++ show away ++ "_" ++ show gm)%string.

Definition createGameKey (g : GameData) : string :=
  gameKeyOf (Some (sport g)) (Some (home_team g)) (Some (away_team g))
            (Some (game g)).

Definition updateBoltOddsData (now : Z) (g : GameData) (st : t) : t :=
  mkOddsComparison
    (JSMap.set (createGameKey g) (mkBoltSnapshot g now) (boltOddsData st))
    (polymarketData st)
    (valueThreshold st).

Definition updatePolymarketData (now : Z) (tokenId : string)
    (marketData : MarketData) (st : t) : t :=
  mkOddsComparison
    (boltOddsData st)
    (JSMap.set tokenId (mkPolySnapshot marketData now) (polymarketData st))
    (valueThreshold st).

Definition americanToDecimal (americanOdds : num) : num :=
  if (americanOdds >? Fin 0)%num
  then (americanOdds / Fin 100 + Fin 1)%num
  else (Fin 100 / abs americanOdds + Fin 1)%num.

Definition decimalToAmerican (decimalOdds : num) : num :=
  if (decimalOdds >=? Fin 2)%num
  then round ((decimalOdds - Fin 1) * Fin 100)%num
  else round (Fin (-100) / (decimalOdds - Fin 1))%num.

(** [None] is the [null] result. *)
Definition polymarketPriceToDecimal (p : num) : option num :=
  if ((p <=? Fin 0) || (p >=? Fin 1))%num then None
  else Some (Fin 1 / p)%num.

(** A [null] operand of an arithmetic operator counts as 0. *)
Definition num_of_nullable (o : option num) : num :=
  match o with
  | Some n => n
  | None => Fin 0
  end.

Definition polymarketPriceToAmerican (p : num) : option num :=
  if ((p <=? Fin 0) || (p >=? Fin 1))%num then None
  else Some (decimalToAmerican (num_of_nullable (polymarketPriceToDecimal p))).

(** [calculateImpliedProbability] at a number: [parseFloat] of a number is
    that number, so the American branch is taken. *)
Definition calculateImpliedProbability (americanOdds : num) : num :=
  (Fin 1 / americanToDecimal americanOdds)%num.

Record GameInfo : Type := mkGameInfo {
  gi_sport : string;
  gi_homeTeam : string;
  gi_awayTeam : string;
  gi_game : string;
  gi_timestamp : Z
}.

Definition extractGameInfo (b : BoltSnapshot) : GameInfo :=
  mkGameInfo (sport (bs_data b)) (home_team (bs_data b))
             (away_team (bs_data b)) (game (bs_data b)) (bs_timestamp b).

(** An element of the array built by [findMoneylineOutcomes]; the
    [formattedOdds] display strings are left out. *)
Record MoneylineOutcome : Type := mkMoneylineOutcome {
  team : string;
  mo_odds : string;
  americanOdds : num;
  decimalOdds : num;
  impliedProbability : num;
  mo_link : string
}.

(** A string is truthy unless empty. *)
Definition truthy_string (s : string) : bool :=
  match s with
  | EmptyString => false
  | _ => true
  end.

Definition moneylineOutcome (o : Outcome) : MoneylineOutcome :=
  let a := Parse.parseFloat (odds o) in
  mkMoneylineOutcome (outcome_target o) (odds o) a (americanToDecimal a)
                     (calculateImpliedProbability a) (link o).

Definition findMoneylineOutcomes (b : BoltSnapshot) : list MoneylineOutcome :=
  fold_left
    (fun acc (e : string * Outcome) =>
       let o := snd e in
       if (String.eqb (outcome_name o) "Moneyline" && truthy_string (odds o))%bool
       then acc ++ [moneylineOutcome o]
       else acc)
    (outcomes (bs_data b)) [].

(** The [polymarket] part of a comparison, without [formattedOdds]. *)
Record PolyView : Type := mkPolyView {
  pv_tokenId : string;
  pv_price : num;
  pv_decimalOdds : option num;
  pv_americanOdds : option num
}.

Record Comparison : Type := mkComparison {
  gameKey : string;
  tokenId : string;
  gameInfo : GameInfo;
  boltOdds : list MoneylineOutcome;
  polymarket : PolyView;
  timestamp : Z
}.

(** A price field that is missing, null or a zero. *)
Definition no_price (f : PriceField) : Prop :=
  f = PriceAbsent \/ f = PriceNull
  \/ exists q, f = PriceNum (Fin q) /\ (q == 0)%Q.

(** [polyData.price || 0.5] *)
Definition price_or_default (f : PriceField) : num :=
  match f with
  | PriceNum n => if truthy n then n else Fin (1 # 2)
  | PriceAbsent | PriceNull => Fin (1 # 2)
  end.

Definition compareMarkets (now : Z) (gameKey : string) (boltData : BoltSnapshot)
    (tokenId : string) (polyData : PolySnapshot) : option Comparison :=
  let gameInfo := extractGameInfo boltData in
  if negb (String.eqb (gi_sport gameInfo) "NHL") then None
  else
    let moneylineOutcomes := findMoneylineOutcomes boltData in
    if Nat.eqb (List.length moneylineOutcomes) 0 then None
    else
      let polymarketPrice := price_or_default (price (ps_data polyData)) in
      Some (mkComparison gameKey tokenId gameInfo moneylineOutcomes
              (mkPolyView tokenId polymarketPrice
                 (polymarketPriceToDecimal polymarketPrice)
                 (polymarketPriceToAmerican polymarketPrice))
              now).

(** The two nested [for ... of] loops over the stores; [now] is the value
    of [Date.now()] during the pass. *)
Definition findMatchingMarkets (now : Z) (st : t) : list Comparison :=
  fold_left
    (fun matches (ge : string * BoltSnapshot) =>
       fold_left
         (fun matches (pe : string * PolySnapshot) =>
            match compareMarkets now (fst ge) (snd ge) (fst pe) (snd pe) with
            | Some m => matches ++ [m]
            | None => matches
            end)
         (polymarketData st) matches)
    (boltOddsData st) [].

Inductive Confidence : Type := High | Medium | Low.

Definition calculateConfidence (value : num) : Confidence :=
  if (value >? Fin (15 # 100))%num then High
  else if (value >? Fin (1 # 10))%num then Medium
  else Low.

(** The result of [calculateValue]; [recommendedAction] is always
    ['buy'] and is left out. *)
Record ValueAnalysis : Type := mkValueAnalysis {
  value : num;
  outcome : MoneylineOutcome;
  polymarketOdds : num;
  confidence : Confidence
}.

(** [!x] on a value that is [null] or a number. *)
Definition falsy (o : option num) : bool :=
  match o with
  | Some n => negb (truthy n)
  | None => true
  end.

(** The edge of one outcome against decimal odds [d] of the price side. *)
Definition edge (d : num) (o : MoneylineOutcome) : num :=
  (impliedProbability o - Fin 1 / d)%num.

(** One iteration of the loop of [calculateValue] on the pair
    [(bestValue, bestOutcome)]. *)
Definition best_step (threshold d : num)
    (best : option num * option MoneylineOutcome) (o : MoneylineOutcome)
    : option num * option MoneylineOutcome :=
  let v := edge d o in
  if (v >? threshold)%num then
    if (falsy (fst best) || (v >? num_of_nullable (fst best))%num)%bool
    then (Some v, Some o)
    else best
  else best.

(** What the loop of [calculateValue] has established after the outcomes
    [seen]: nothing retained and no edge above the threshold so far, or the
    retained outcome is the first of [seen] with the greatest edge. *)
Inductive best_of (threshold d : num) (seen : list MoneylineOutcome)
  : option num * option MoneylineOutcome -> Prop :=
| best_none :
    (forall o, In o seen -> (edge d o >? threshold)%num = false) ->
    best_of threshold d seen (None, None)
| best_some : forall pre o post,
    seen = pre ++ o :: post ->
    (edge d o >? threshold)%num = true ->
    (forall o', In o' seen -> (edge d o' >? edge d o)%num = false) ->
    (forall o', In o' pre -> (edge d o' >=? edge d o)%num = false) ->
    best_of threshold d seen (Some (edge d o), Some o).

Definition calculateValue (threshold : num) (c : Comparison)
    : option ValueAnalysis :=
  if (Nat.eqb (List.length (boltOdds c)) 0
      || falsy (pv_decimalOdds (polymarket c)))%bool
  then None
  else
    let d := num_of_nullable (pv_decimalOdds (polymarket c)) in
    match fold_left (best_step threshold d) (boltOdds c) (None, None) with
    | (Some bestValue, Some bestOutcome) =>
        if truthy bestValue
        then Some (mkValueAnalysis bestValue bestOutcome d
                     (calculateConfidence bestValue))
        else None
    | _ => None
    end.

Record Recommendation : Type := mkRecommendation {
  rec_tokenId : string;
  rec_confidence : Confidence;
  expectedValue : num
}.

(** [{...match, valueAnalysis, recommendation}]; the action recommended
    is always ['buy']. *)
Record Opportunity : Type := mkOpportunity {
  op_match : Comparison;
  valueAnalysis : ValueAnalysis;
  recommendation : Recommendation
}.

Definition opportunityOf (m : Comparison) (v : ValueAnalysis) : Opportunity :=
  mkOpportunity m v (mkRecommendation (tokenId m) (confidence v) (value v)).

(** What one iteration of the loop of [findTradingOpportunities] pushes
    for the match [m], if anything. *)
Definition opportunityFor (threshold : num) (m : Comparison)
    : option Opportunity :=
  option_map (opportunityOf m) (calculateValue threshold m).

(** The edge an opportunity was retained for. *)
Definition edgeValue (o : Opportunity) : num := value (valueAnalysis o).

(** The comparator [(a, b) => b.valueAnalysis.value - a.valueAnalysis.value]. *)
Definition byValueDesc (a b : Opportunity) : num :=
  (value (valueAnalysis b) - value (valueAnalysis a))%num.

Definition collectOpportunities (threshold : num) (matches : list Comparison)
    : list Opportunity :=
  fold_left
    (fun opportunities m =>
       match calculateValue threshold m with
       | Some v => opportunities ++ [opportunityOf m v]
       | None => opportunities
       end)
    matches [].

Definition findTradingOpportunities (now : Z) (st : t) : list Opportunity :=
  js_sort byValueDesc
    (collectOpportunities (valueThreshold st) (findMatchingMarkets now st)).

(** The same opportunity with the time stamp of its comparison replaced,
    to compare the results of passes made at different times. *)
Definition stamped (time : Z) (m : Comparison) : Comparison :=
  mkComparison (gameKey m) (tokenId m) (gameInfo m) (boltOdds m)
               (polymarket m) time.

Definition at_time (time : Z) (o : Opportunity) : Opportunity :=
  mkOpportunity (stamped time (op_match o)) (valueAnalysis o)
                (recommendation o).

End OddsComparison.

(* ------------------------------------------------------------------------- *)
(** ** The order interface (src/services/PolymarketClient.js)

    The exchange is a remote collaborator: what the bot sees of it are the
    answers to its calls.  A call either resolves to a value or rejects. *)

Module Exchange.

Inductive Response (A : Type) : Type :=
| Resolved (a : A)
| Rejected (message : string).

Arguments Rejected {A} message.

(** An element of [orderbook.asks] or [orderbook.bids]. *)
Record Level : Type := mkLevel {
  level_price : num
}.

(** [asks] and [bids] may be missing from the answer. *)
Record Orderbook : Type := mkOrderbook {
  asks : option (list Level);
  bids : option (list Level)
}.

Record OrderResult : Type := mkOrderResult {
  order_id : string
}.

Record t : Type := mkExchange {
  getOrderbook : string -> Response Orderbook;
  buyContract : string -> num -> num -> Response OrderResult;
  sellContract : string -> num -> num -> Response OrderResult
}.

(** [side?.[0]] *)
Definition first_level (side : option (list Level)) : option Level :=
  match side with
  | Some (l :: _) => Some l
  | _ => None
  end.

End Exchange.

(* ------------------------------------------------------------------------- *)
(** ** TradingBot.js: the position ledger

    Here each asynchronous method is one step from its call to its
    completion, with the answers of the exchange given by an [Exchange.t]:
    the calls are taken one after the other ([Interleaved] below cuts them
    at their [await]s).  [now] is the value of [Date.now()] during the
    call.  An error caught and logged inside a method leaves the ledger as
    it was before the error. *)

Module TradingBot.

Import Exchange.
Open Scope list_scope.

Inductive Status : Type := StatusOpen | StatusClosed.

Record Position : Type := mkPosition {
  pos_tokenId : string;
  pos_gameKey : string;
  pos_gameInfo : OddsComparison.GameInfo;
  pos_orderId : string;
  amount : num;
  pos_price : num;
  buyTime : Z;
  pos_valueAnalysis : OddsComparison.ValueAnalysis;
  status : Status;
  sellPrice : option num;
  sellTime : option Z
}.

(** An element of [tradingHistory]: [{...position, action: 'buy',
    orderResult}] or [{tokenId, action: 'sell', amount, price, sellTime,
    orderResult}]. *)
Inductive HistoryEntry : Type :=
| Buy (position : Position) (orderResult : OrderResult)
| Sell (tokenId : string) (amount price : num) (sellTime : Z)
       (orderResult : OrderResult).

(** The fields of the class that the ledger operations read or write. *)
Record t : Type := mkBot {
  activePositions : JSMap.t Position;
  tradingHistory : list HistoryEntry;
  maxPositionSize : num;
  autoSellEnabled : bool;
  autoSellThreshold : num
}.

(** constructor, from [config.MAX_POSITION_SIZE], [config.AUTO_SELL_ENABLED]
    and [config.AUTO_SELL_THRESHOLD]. *)
Definition new (maxPositionSize : num) (autoSellEnabled : bool)
    (autoSellThreshold : num) : t :=
  mkBot JSMap.empty [] maxPositionSize autoSellEnabled autoSellThreshold.

Definition with_ledger (bot : t) (positions : JSMap.t Position)
    (history : list HistoryEntry) : t :=
  mkBot positions history (maxPositionSize bot) (autoSellEnabled bot)
        (autoSellThreshold bot).

Definition getTotalPositionValue (bot : t) : num :=
  fold_left (fun total p => (total + amount p)%num)
            (JSMap.values (activePositions bot)) (Fin 0).

(** [Math.min(this.maxPositionSize * 0.1, 50)] *)
Definition positionSize (bot : t) : num :=
  min (maxPositionSize bot * Fin (1 # 10))%num (Fin 50).

(** [createGameKey(gameInfo)]: the game info object has [homeTeam] and
    [awayTeam] but no [home_team] / [away_team] property. *)
Definition gameKeyOfInfo (gi : OddsComparison.GameInfo) : string :=
  OddsComparison.gameKeyOf (Some (OddsComparison.gi_sport gi)) None None
                           (Some (OddsComparison.gi_game gi)).

Definition executeBuyOrder (ex : Exchange.t) (now : Z)
    (opportunity : OddsComparison.Opportunity) (bot : t) : t :=
  let valueAnalysis := OddsComparison.valueAnalysis opportunity in
  let gameInfo := OddsComparison.gameInfo (OddsComparison.op_match opportunity) in
  let tokenId :=
    OddsComparison.rec_tokenId (OddsComparison.recommendation opportunity) in
  let size := positionSize bot in
  match getOrderbook ex tokenId with
  | Rejected _ => bot
  | Resolved orderbook =>
      match first_level (asks orderbook) with
      | None => bot
      | Some bestAsk =>
          match buyContract ex tokenId size (level_price bestAsk) with
          | Rejected _ => bot
          | Resolved orderResult =>
              let position :=
                mkPosition tokenId (gameKeyOfInfo gameInfo) gameInfo
                           (order_id orderResult) size (level_price bestAsk)
                           now valueAnalysis StatusOpen None None in
              with_ledger bot
                (JSMap.set tokenId position (activePositions bot))
                (tradingHistory bot ++ [Buy position orderResult])
          end
      end
  end.

Definition confident (c : OddsComparison.Confidence) : bool :=
  match c with
  | OddsComparison.High | OddsComparison.Medium => true
  | OddsComparison.Low => false
  end.

Definition evaluateOpportunity (ex : Exchange.t) (now : Z)
    (opportunity : OddsComparison.Opportunity) (bot : t) : t :=
  let tokenId :=
    OddsComparison.rec_tokenId (OddsComparison.recommendation opportunity) in
  if JSMap.has tokenId (activePositions bot) then bot
  else if (getTotalPositionValue bot >=? maxPositionSize bot)%num then bot
  else if confident (OddsComparison.confidence
                       (OddsComparison.valueAnalysis opportunity))
  then executeBuyOrder ex now opportunity bot
  else bot.

(** What [sellPosition] throws: the two errors it raises itself, and a
    rejected exchange call rethrown. *)
Inductive SellError : Type :=
| NoActivePosition (tokenId : string)
| NoBids
| CallFailed (message : string).

Definition error_message (e : SellError) : string :=
  match e with
  | NoActivePosition tokenId =>
      ("No active position found for token " ++ tokenId)%string
  | NoBids => "No bids available for sell order"%string
  | CallFailed m => m
  end.

Inductive SellResult : Type :=
| Sold (orderResult : OrderResult)
| Failed (e : SellError).

(** [amount || position.amount]; [None] is the default [null]. *)
Definition sellAmountOf (requested : option num) (position : Position) : num :=
  match requested with
  | Some a => if truthy a then a else amount position
  | None => amount position
  end.

(** The position object after the assignments of [sellPosition]: amount,
    sell price, sell time and, when nothing remains, status. *)
Definition sold (position : Position) (sellAmount price : num) (now : Z)
    : Position :=
  let remaining := (amount position - sellAmount)%num in
  mkPosition (pos_tokenId position) (pos_gameKey position)
             (pos_gameInfo position) (pos_orderId position)
             remaining (pos_price position) (buyTime position)
             (pos_valueAnalysis position)
             (if (remaining <=? Fin 0)%num then StatusClosed
              else status position)
             (Some price) (Some now).

(** The position is an object held by the Map: updating it is replacing
    the value of its entry in place. *)
Definition sellPosition (ex : Exchange.t) (now : Z) (tokenId : string)
    (requested : option num) (bot : t) : t * SellResult :=
  match JSMap.get tokenId (activePositions bot) with
  | None => (bot, Failed (NoActivePosition tokenId))
  | Some position =>
      let sellAmount := sellAmountOf requested position in
      match getOrderbook ex tokenId with
      | Rejected m => (bot, Failed (CallFailed m))
      | Resolved orderbook =>
          match first_level (bids orderbook) with
          | None => (bot, Failed NoBids)
          | Some bestBid =>
              match sellContract ex tokenId sellAmount (level_price bestBid) with
              | Rejected m => (bot, Failed (CallFailed m))
              | Resolved orderResult =>
                  let position' :=
                    sold position sellAmount (level_price bestBid) now in
                  let positions :=
                    if (amount position' <=? Fin 0)%num
                    then JSMap.delete tokenId (activePositions bot)
                    else JSMap.set tokenId position' (activePositions bot) in
                  (with_ledger bot positions
                     (tradingHistory bot
                      ++ [Sell tokenId sellAmount (level_price bestBid) now
                               orderResult]),
                   Sold orderResult)
              end
          end
      end
  end.

(** [hoursHeld] of the sweep. *)
Definition hoursHeld (now : Z) (position : Position) : num :=
  (of_Z (now - buyTime position) / of_Z (1000 * 60 * 60))%num.

(** [checkAutoSellConditions]: the arguments of the calls
    [sellPosition(tokenId)] made by the sweep, in the order of the calls;
    the amount is left to its default [null].  The calls are not awaited
    and each stops at its first exchange request, so the ledger is the same
    at the end of the sweep. *)
Definition checkAutoSellConditions (now : Z) (bot : t)
    : list (string * option num) :=
  fold_left
    (fun queued (e : string * Position) =>
       if (hoursHeld now (snd e) >? Fin 2)%num
       then queued ++ [(fst e, None)]
       else queued)
    (activePositions bot) [].

(** The operations that write the ledger. *)
Inductive Op : Type :=
| OpEvaluate (ex : Exchange.t) (now : Z)
             (opportunity : OddsComparison.Opportunity)
| OpSell (ex : Exchange.t) (now : Z) (tokenId : string)
         (requested : option num).

Definition perform (bot : t) (op : Op) : t :=
  match op with
  | OpEvaluate ex now opportunity => evaluateOpportunity ex now opportunity bot
  | OpSell ex now tokenId requested =>
      fst (sellPosition ex now tokenId requested bot)
  end.

Definition run (ops : list Op) (bot : t) : t := fold_left perform ops bot.

(** Positions of the active set recorded for [tokenId] with status open. *)
Definition openPositions (tokenId : string) (bot : t) : list Position :=
  map snd
    (filter (fun e : string * Position =>
               (String.eqb (fst e) tokenId
                && match status (snd e) with
                   | StatusOpen => true
                   | StatusClosed => false
                   end)%bool)
            (activePositions bot)).

(** The invariant of the active set: one entry per token, each an open
    position recorded under its own token. *)
Definition ledger_ok (bot : t) : Prop :=
  JSMap.wf (activePositions bot)
  /\ forall tok p,
      In (tok, p) (activePositions bot) ->
      status p = StatusOpen /\ pos_tokenId p = tok.

(** No position of the active set has an amount of 0 or less, and once
    there is a position the size of a trade is not 0 or less either. *)
Definition amounts_ok (bot : t) : Prop :=
  (forall tok p,
      In (tok, p) (activePositions bot) -> (amount p <=? Fin 0)%num = false)
  /\ (activePositions bot <> [] -> (positionSize bot <=? Fin 0)%num = false).

End TradingBot.

(* ------------------------------------------------------------------------- *)
(** ** src/services/BoltOddsClient.js: connection state and reconnection

    Delays and the attempt counter are integers.  [timers] records, in
    order, the delay of every [setTimeout(() => this.connect(), delay)]
    issued so far. *)

Module BoltOddsClient.

Open Scope Z_scope.

Record t : Type := mkClient {
  hasSocket : bool;
  isConnected : bool;
  reconnectAttempts : Z;
  maxReconnectAttempts : Z;
  reconnectDelay : Z;
  timers : list Z
}.

(** constructor *)
Definition new : t := mkClient false false 0 10 5000 [].

Definition set_connected (b : bool) (c : t) : t :=
  mkClient (hasSocket c) b (reconnectAttempts c) (maxReconnectAttempts c)
           (reconnectDelay c) (timers c).

Definition handleReconnection (c : t) : t :=
  if reconnectAttempts c >=? maxReconnectAttempts c then c
  else
    let attempts := reconnectAttempts c + 1 in
    let delay := reconnectDelay c * 2 ^ (attempts - 1) in
    mkClient (hasSocket c) (isConnected c) attempts (maxReconnectAttempts c)
             (reconnectDelay c) (timers c ++ [delay]).

(** What can happen to the connection: a run of [connect()] (started by
    the bot or by a reconnection timer), in which [new WebSocket] throws or
    not; the socket events handled in [connect]; a call of [close()]. *)
Inductive Event : Type :=
| Connect (threw : bool)
| SocketOpened
| SocketClosed
| SocketError
| CloseCalled.

Definition step (c : t) (e : Event) : t :=
  match e with
  | Connect true => handleReconnection c
  | Connect false =>
      mkClient true (isConnected c) (reconnectAttempts c)
               (maxReconnectAttempts c) (reconnectDelay c) (timers c)
  | SocketOpened =>
      mkClient (hasSocket c) true 0 (maxReconnectAttempts c)
               (reconnectDelay c) (timers c)
  | SocketClosed => handleReconnection (set_connected false c)
  | SocketError => set_connected false c
  | CloseCalled => if hasSocket c then set_connected false c else c
  end.

Definition steps (es : list Event) (c : t) : t := fold_left step es c.


(** The events that run [handleReconnection]: each of them is one failed
    connection. *)
Definition triggers_reconnection (e : Event) : bool :=
  match e with
  | SocketClosed | Connect true => true
  | _ => false
  end.




End BoltOddsClient.

(* ------------------------------------------------------------------------- *)
(** ** TradingBot.js between its [await]s

    [evaluateOpportunity] and [sellPosition] are asynchronous: a call runs
    to its first [await], and goes on when the exchange answers, while
    other calls may have run in between ([checkTradingOpportunities] and
    [checkAutoSellConditions] do not await the calls they make).  Here a
    call is cut at its two exchange requests.  Position objects are kept in
    a store and the active Map holds references to them, since a pending
    [sellPosition] keeps the object it found before its first [await]. *)

Module Interleaved.

Import Exchange TradingBot.
Open Scope list_scope.

Record t : Type := mkState {
  objects : list Position;
  active : JSMap.t nat;
  history : list HistoryEntry;
  maxSize : num;
  autoSell : bool;
  autoSellLimit : num
}.

Definition deref (st : t) (ref : nat) : option Position :=
  nth_error (objects st) ref.

(** [objects[ref] := p] *)
Fixpoint assign (ref : nat) (p : Position) (l : list Position)
    : list Position :=
  match l, ref with
  | [], _ => []
  | _ :: r, O => p :: r
  | x :: r, S n => x :: assign n p r
  end.

(** A Map of references with the objects they refer to. *)
Definition resolve (objs : list Position) (m : JSMap.t nat)
    : JSMap.t Position :=
  flat_map
    (fun e : string * nat =>
       match nth_error objs (snd e) with
       | Some p => [(fst e, p)]
       | None => []
       end)
    m.

Definition entries (st : t) : JSMap.t Position :=
  resolve (objects st) (active st).

(** The reference of an entry leads to an object of the token of the
    entry. *)
Definition tied (objs : list Position) (e : string * nat) : Prop :=
  exists p, nth_error objs (snd e) = Some p /\ pos_tokenId p = fst e.

(** The bot as the methods that do not await see it. *)
Definition view (st : t) : TradingBot.t :=
  mkBot (entries st) (history st) (maxSize st) (autoSell st)
        (autoSellLimit st).

Definition init (maxPositionSize : num) (autoSellEnabled : bool)
    (autoSellThreshold : num) : t :=
  mkState [] JSMap.empty [] maxPositionSize autoSellEnabled autoSellThreshold.

(** A call waiting for the exchange, with the local variables it will
    use when it goes on. *)
Inductive Task : Type :=
| BuyAwaitsBook (opportunity : OddsComparison.Opportunity) (size : num)
| BuyAwaitsOrder (opportunity : OddsComparison.Opportunity) (size : num)
                 (bestAsk : Level)
| SellAwaitsBook (tokenId : string) (position : nat) (sellAmount : num)
| SellAwaitsOrder (tokenId : string) (position : nat) (sellAmount : num)
                  (bestBid : Level).

Definition tokenOf (opportunity : OddsComparison.Opportunity) : string :=
  OddsComparison.rec_tokenId (OddsComparison.recommendation opportunity).

(** [evaluateOpportunity] up to [await getOrderbook] in [executeBuyOrder]. *)
Definition startEvaluate (opportunity : OddsComparison.Opportunity) (st : t)
    : option Task :=
  if JSMap.has (tokenOf opportunity) (active st) then None
  else if (getTotalPositionValue (view st) >=? maxSize st)%num then None
  else if confident (OddsComparison.confidence
                       (OddsComparison.valueAnalysis opportunity))
  then Some (BuyAwaitsBook opportunity (positionSize (view st)))
  else None.

(** [executeBuyOrder] from the order book to [await buyContract]. *)
Definition buyAfterBook (opportunity : OddsComparison.Opportunity) (size : num)
    (answer : Response Orderbook) : option Task :=
  match answer with
  | Rejected _ => None
  | Resolved orderbook =>
      match first_level (asks orderbook) with
      | None => None
      | Some bestAsk => Some (BuyAwaitsOrder opportunity size bestAsk)
      end
  end.

(** [executeBuyOrder] after [buyContract]. *)
Definition buyAfterOrder (now : Z) (opportunity : OddsComparison.Opportunity)
    (size : num) (bestAsk : Level) (answer : Response OrderResult) (st : t)
    : t :=
  match answer with
  | Rejected _ => st
  | Resolved orderResult =>
      let gameInfo :=
        OddsComparison.gameInfo (OddsComparison.op_match opportunity) in
      let position :=
        mkPosition (tokenOf opportunity) (gameKeyOfInfo gameInfo) gameInfo
                   (order_id orderResult) size (level_price bestAsk) now
                   (OddsComparison.valueAnalysis opportunity) StatusOpen
                   None None in
      mkState (objects st ++ [position])
              (JSMap.set (tokenOf opportunity) (List.length (objects st))
                         (active st))
              (history st ++ [Buy position orderResult])
              (maxSize st) (autoSell st) (autoSellLimit st)
  end.

(** [sellPosition] up to [await getOrderbook].  (A reference of the Map
    always leads to an object; the other case is there for totality.) *)
Definition startSell (tokenId : string) (requested : option num) (st : t)
    : SellError + Task :=
  match JSMap.get tokenId (active st) with
  | None => inl (NoActivePosition tokenId)
  | Some ref =>
      match deref st ref with
      | None => inl (NoActivePosition tokenId)
      | Some position =>
          inr (SellAwaitsBook tokenId ref (sellAmountOf requested position))
      end
  end.

(** [sellPosition] from the order book to [await sellContract]. *)
Definition sellAfterBook (tokenId : string) (ref : nat) (sellAmount : num)
    (answer : Response Orderbook) : SellError + Task :=
  match answer with
  | Rejected m => inl (CallFailed m)
  | Resolved orderbook =>
      match first_level (bids orderbook) with
      | None => inl NoBids
      | Some bestBid => inr (SellAwaitsOrder tokenId ref sellAmount bestBid)
      end
  end.

(** [sellPosition] after [sellContract]: the object found at the start
    is updated, whatever the Map holds by now. *)
Definition sellAfterOrder (now : Z) (tokenId : string) (ref : nat)
    (sellAmount : num) (bestBid : Level) (answer : Response OrderResult)
    (st : t) : t * SellResult :=
  match answer with
  | Rejected m => (st, Failed (CallFailed m))
  | Resolved orderResult =>
      match deref st ref with
      | None => (st, Failed (NoActivePosition tokenId))
      | Some position =>
          let position' := sold position sellAmount (level_price bestBid) now in
          (mkState (assign ref position' (objects st))
                   (if (amount position' <=? Fin 0)%num
                    then JSMap.delete tokenId (active st)
                    else active st)
                   (history st
                    ++ [Sell tokenId sellAmount (level_price bestBid) now
                             orderResult])
                   (maxSize st) (autoSell st) (autoSellLimit st),
           Sold orderResult)
      end
  end.

(** The bot with its pending calls. *)
Record Config : Type := mkConfig {
  state : t;
  pending : list Task
}.

(** What happens next: a new call, or the exchange answers the pending
    call number [i]. *)
Inductive Action : Type :=
| CallEvaluate (opportunity : OddsComparison.Opportunity)
| CallSell (tokenId : string) (requested : option num)
| AnswerBook (i : nat) (answer : Response Orderbook)
| AnswerOrder (i : nat) (now : Z) (answer : Response OrderResult).

Definition without (i : nat) (l : list Task) : list Task :=
  firstn i l ++ skipn (S i) l.

Definition spawn (o : option Task) : list Task := pushed o.

Definition taskOf (r : SellError + Task) : option Task :=
  match r with
  | inr task => Some task
  | inl _ => None
  end.

Definition act (c : Config) (a : Action) : Config :=
  match a with
  | CallEvaluate opportunity =>
      mkConfig (state c)
               (pending c ++ spawn (startEvaluate opportunity (state c)))
  | CallSell tokenId requested =>
      mkConfig (state c)
               (pending c ++ spawn (taskOf (startSell tokenId requested (state c))))
  | AnswerBook i answer =>
      match nth_error (pending c) i with
      | Some (BuyAwaitsBook opportunity size) =>
          mkConfig (state c)
                   (without i (pending c)
                    ++ spawn (buyAfterBook opportunity size answer))
      | Some (SellAwaitsBook tokenId ref sellAmount) =>
          mkConfig (state c)
                   (without i (pending c)
                    ++ spawn (taskOf (sellAfterBook tokenId ref sellAmount answer)))
      | _ => c
      end
  | AnswerOrder i now answer =>
      match nth_error (pending c) i with
      | Some (BuyAwaitsOrder opportunity size bestAsk) =>
          mkConfig (buyAfterOrder now opportunity size bestAsk answer (state c))
                   (without i (pending c))
      | Some (SellAwaitsOrder tokenId ref sellAmount bestBid) =>
          mkConfig (fst (sellAfterOrder now tokenId ref sellAmount bestBid
                                        answer (state c)))
                   (without i (pending c))
      | _ => c
      end
  end.

Definition play (actions : list Action) (c : Config) : Config :=
  fold_left act actions c.

(** One call of [evaluateOpportunity] answered by [ex] with nothing in
    between. *)
Definition evaluateAlone (ex : Exchange.t) (now : Z)
    (opportunity : OddsComparison.Opportunity) (st : t) : t :=
  match startEvaluate opportunity st with
  | Some (BuyAwaitsBook o size) =>
      match buyAfterBook o size (getOrderbook ex (tokenOf o)) with
      | Some (BuyAwaitsOrder o' size' bestAsk) =>
          buyAfterOrder now o' size' bestAsk
            (buyContract ex (tokenOf o') size' (level_price bestAsk)) st
      | _ => st
      end
  | _ => st
  end.

(** One call of [sellPosition] answered by [ex] with nothing in between. *)
Definition sellAlone (ex : Exchange.t) (now : Z) (tokenId : string)
    (requested : option num) (st : t) : t * SellResult :=
  match startSell tokenId requested st with
  | inl e => (st, Failed e)
  | inr (SellAwaitsBook tok ref sellAmount) =>
      match sellAfterBook tok ref sellAmount (getOrderbook ex tok) with
      | inl e => (st, Failed e)
      | inr (SellAwaitsOrder tok' ref' sellAmount' bestBid) =>
          sellAfterOrder now tok' ref' sellAmount' bestBid
            (sellContract ex tok' sellAmount' (level_price bestBid)) st
      | inr _ => (st, Failed NoBids)
      end
  | inr _ => (st, Failed (NoActivePosition tokenId))
  end.

(** The invariant: the Map is well formed, every reference in it leads to
    an open position object recorded under its own token, and a pending
    sell holds an object of its token. *)
Definition entry_ok (st : t) (e : string * nat) : Prop :=
  exists p, deref st (snd e) = Some p
            /\ status p = StatusOpen /\ pos_tokenId p = fst e.

Definition task_ok (st : t) (task : Task) : Prop :=
  match task with
  | SellAwaitsBook tokenId ref _ | SellAwaitsOrder tokenId ref _ _ =>
      exists p, deref st ref = Some p /\ pos_tokenId p = tokenId
  | _ => True
  end.

Definition state_ok (st : t) : Prop :=
  JSMap.wf (active st) /\ Forall (entry_ok st) (active st).

Definition config_ok (c : Config) : Prop :=
  state_ok (state c) /\ Forall (task_ok (state c)) (pending c).

End Interleaved.

(* ------------------------------------------------------------------------- *)
(** ** Sample data

    The mock feed event of src/test.js, three price snapshots, and an
    exchange that answers every call. *)

Module Demo.

Import OddsComparison Exchange TradingBot.
Open Scope string_scope.

Definition mockBoltData : GameData :=
  mkGameData "NHL" "Toronto Maple Leafs" "Montreal Canadiens"
    "Toronto Maple Leafs vs Montreal Canadiens, 2024-01-15, 01"
    [("Toronto Maple Leafs Moneyline",
      mkOutcome "Moneyline" "Toronto Maple Leafs" "150" "https://example.com");
     ("Montreal Canadiens Moneyline",
      mkOutcome "Moneyline" "Montreal Canadiens" "-120" "https://example.com")].

(** Threshold 0.05, the mock game, and tokens priced 0.45, 0.50 and 0.30. *)
Definition stores : OddsComparison.t :=
  updatePolymarketData 3 "token-3" (mkMarketData (PriceNum (Fin (30 # 100))))
    (updatePolymarketData 2 "token-2" (mkMarketData (PriceNum (Fin (50 # 100))))
       (updatePolymarketData 1 "token-1" (mkMarketData (PriceNum (Fin (45 # 100))))
          (updateBoltOddsData 0 mockBoltData (OddsComparison.new (Fin (5 # 100)))))).

Definition book : Orderbook :=
  mkOrderbook (Some [mkLevel (Fin (31 # 100))]) (Some [mkLevel (Fin (29 # 100))]).

Definition exchange : Exchange.t :=
  mkExchange (fun _ => Resolved book)
             (fun _ _ _ => Resolved (mkOrderResult "buy-1"))
             (fun _ _ _ => Resolved (mkOrderResult "sell-1")).

(** The same exchange with an order book that has no bid. *)
Definition exchangeNoBids : Exchange.t :=
  mkExchange (fun _ => Resolved (mkOrderbook (Some [mkLevel (Fin (31 # 100))]) (Some [])))
             (fun _ _ _ => Resolved (mkOrderResult "buy-1"))
             (fun _ _ _ => Resolved (mkOrderResult "sell-1")).

(** The best opportunity of [stores] at time 10, if any. *)
Definition bestOpportunity : option Opportunity :=
  hd_error (findTradingOpportunities 10 stores).

(** A bot with the default configuration (position cap 100, auto-sell
    threshold 0.1) that has evaluated the opportunities of [stores] at time
    0. *)
Definition firstOps : list Op :=
  map (OpEvaluate exchange 0) (findTradingOpportunities 0 stores).

Definition bot : TradingBot.t :=
  run firstOps (TradingBot.new (Fin 100) true (Fin (1 # 10))).

(** The calls made on the ledger in the sample run: every opportunity of
    [stores] is evaluated, twice over, then part of the position on
    token-3 is sold. *)
Definition ops : list Op :=
  map (OpEvaluate exchange 0) (findTradingOpportunities 0 stores)
  ++ map (OpEvaluate exchange 1) (findTradingOpportunities 1 stores)
  ++ [OpSell exchange 2 "token-3" (Some (Fin 4))].

End Demo.

(* ------------------------------------------------------------------------- *)
(** ** src/services/OddsComparison.js: the stores over time *)

Module OddsData.

Import OddsComparison.
Open Scope list_scope.

(** [clearOldData(maxAgeMinutes)]: every entry whose time stamp is before
    the cutoff is deleted, in both stores. *)
Definition clearOldData (now maxAgeMinutes : Z) (st : t) : t :=
  let cutoffTime := (now - maxAgeMinutes * 60 * 1000)%Z in
  mkOddsComparison
    (filter (fun e => negb (bs_timestamp (snd e) <? cutoffTime)%Z)
            (boltOddsData st))
    (filter (fun e => negb (ps_timestamp (snd e) <? cutoffTime)%Z)
            (polymarketData st))
    (valueThreshold st).

(** [Math.max(...values)]: -Infinity for no value, NaN as soon as one
    value is NaN. *)
Definition max2 (a b : num) : num :=
  match a, b with
  | NaN, _ | _, NaN => NaN
  | _, _ => if (a <? b)%num then b else a
  end.

Definition math_max (values : list num) : num := fold_left max2 values NInf.

(** [d.timestamp || 0] on an integer time stamp. *)
Definition stamp_or_zero (z : Z) : num :=
  if Z.eqb z 0 then Fin 0 else of_Z z.

Record DataStatus : Type := mkDataStatus {
  boltOddsGames : nat;
  polymarketTokens : nat;
  lastUpdate : num
}.

Definition getDataStatus (st : t) : DataStatus :=
  mkDataStatus
    (JSMap.size (boltOddsData st))
    (JSMap.size (polymarketData st))
    (math_max
       (map (fun d => stamp_or_zero (bs_timestamp d))
            (JSMap.values (boltOddsData st))
        ++ map (fun d => stamp_or_zero (ps_timestamp d))
               (JSMap.values (polymarketData st)))).

(** The time stamps held by the two stores. *)
Definition stamps (st : t) : list Z :=
  map (fun d => bs_timestamp d) (JSMap.values (boltOddsData st))
  ++ map (fun d => ps_timestamp d) (JSMap.values (polymarketData st)).

(** What writes the stores: the two ingestions and the cleanup. *)
Inductive Write : Type :=
| WriteOdds (now : Z) (gameData : GameData)
| WritePrice (now : Z) (tokenId : string) (marketData : MarketData)
| WriteClear (now : Z) (maxAgeMinutes : Z).

Definition write (st : t) (w : Write) : t :=
  match w with
  | WriteOdds now g => updateBoltOddsData now g st
  | WritePrice now tok md => updatePolymarketData now tok md st
  | WriteClear now age => clearOldData now age st
  end.

Definition written (ws : list Write) (threshold : num) : t :=
  fold_left write ws (OddsComparison.new threshold).

(** A string without the separator of [createGameKey]. *)
Fixpoint plain (s : string) : bool :=
  match s with
  | EmptyString => true
  | String c r => (negb (Ascii.eqb c "_") && plain r)%bool
  end.

(** The pair a match is made of. *)
Definition pairOf (m : Comparison) : string * string :=
  (gameKey m, tokenId m).

(** The games of the odds store that can be matched: NHL games with a
    moneyline outcome. *)
Definition matchable (b : BoltSnapshot) : bool :=
  (String.eqb (sport (bs_data b)) "NHL"
   && negb (Nat.eqb (List.length (findMoneylineOutcomes b)) 0))%bool.

(** Two feed payloads that name the same game: same sport, teams and
    game label. *)
Definition sameGame (g g' : GameData) : bool :=
  (String.eqb (sport g) (sport g')
   && String.eqb (home_team g) (home_team g')
   && String.eqb (away_team g) (away_team g')
   && String.eqb (game g) (game g'))%bool.

(** Sport and team names without the separator. *)
Definition plainGame (g : GameData) : Prop :=
  plain (sport g) = true /\ plain (home_team g) = true
  /\ plain (away_team g) = true.

(** Two payloads for different games, with team names that contain the
    separator. *)
Definition gameAB_C : GameData :=
  mkGameData "NHL" "A_B" "C" "1" [].

Definition gameA_BC : GameData :=
  mkGameData "NHL" "A" "B_C" "1"
    [("m", mkOutcome "Moneyline" "A" "150" "")].

End OddsData.

(* ------------------------------------------------------------------------- *)
(** ** src/services/BoltOddsClient.js: the subscription

    [sent] records, in order, the filters of every subscribe message
    handed to [this.ws.send].  The socket events are those of
    [BoltOddsClient]. *)

Module Subscription.

Import BoltOddsClient.
Open Scope string_scope.
Open Scope list_scope.

Record Filters : Type := mkFilters {
  sports : list string;
  sportsbooks : list string;
  games : list string;
  markets : list string
}.

(** The filters set by the constructor. *)
Definition defaultFilters : Filters :=
  mkFilters ["NHL"] [] [] ["Moneyline"; "Spread"; "Total"].

(** The argument of [updateSubscription]: the filter properties it
    carries. *)
Record Patch : Type := mkPatch {
  p_sports : option (list string);
  p_sportsbooks : option (list string);
  p_games : option (list string);
  p_markets : option (list string)
}.

Definition over {A : Type} (new : option A) (old : A) : A :=
  match new with
  | Some a => a
  | None => old
  end.

(** [{ ...this.subscriptionFilters, ...filters }] *)
Definition merge (f : Filters) (p : Patch) : Filters :=
  mkFilters (over (p_sports p) (sports f))
            (over (p_sportsbooks p) (sportsbooks f))
            (over (p_games p) (games f))
            (over (p_markets p) (markets f)).

Record t : Type := mkFeed {
  client : BoltOddsClient.t;
  subscriptionFilters : Filters;
  sent : list Filters
}.

Definition new : t := mkFeed BoltOddsClient.new defaultFilters [].

Definition subscribe (s : t) : t :=
  if (negb (isConnected (client s)) || negb (hasSocket (client s)))%bool
  then s
  else mkFeed (client s) (subscriptionFilters s)
              (sent s ++ [subscriptionFilters s]).

Definition updateSubscription (p : Patch) (s : t) : t :=
  let filters := merge (subscriptionFilters s) p in
  if (isConnected (client s) && hasSocket (client s))%bool
  then mkFeed (client s) filters (sent s ++ [filters])
  else mkFeed (client s) filters (sent s).

Inductive Event : Type :=
| Socket (e : BoltOddsClient.Event)
| Update (p : Patch).

(** The [open] handler subscribes after it has set the connection
    state; the other socket events only touch the connection state. *)
Definition step (s : t) (e : Event) : t :=
  match e with
  | Socket SocketOpened =>
      subscribe (mkFeed (BoltOddsClient.step (client s) SocketOpened)
                        (subscriptionFilters s) (sent s))
  | Socket e' =>
      mkFeed (BoltOddsClient.step (client s) e') (subscriptionFilters s)
             (sent s)
  | Update p => updateSubscription p s
  end.

Definition steps (es : list Event) (s : t) : t := fold_left step es s.

(** Socket events come from a socket: none happens before [connect] has
    created one.  [has] tells whether a socket exists at the start. *)
Fixpoint ordered (has : bool) (es : list Event) : bool :=
  match es with
  | [] => true
  | Socket (Connect false) :: r => ordered true r
  | Socket (Connect true) :: r => ordered has r
  | Socket CloseCalled :: r => ordered has r
  | Socket _ :: r => (has && ordered has r)%bool
  | Update _ :: r => ordered has r
  end.

(** The filter changes asked for by a sequence of events, in order. *)
Definition patches (es : list Event) : list Patch :=
  flat_map (fun e => match e with
                     | Update p => [p]
                     | Socket _ => []
                     end) es.

(** The last subscribe message sent, if any. *)
Definition lastSent (s : t) : option Filters := last (map Some (sent s)) None.

(** The subscription is in step with the filters whenever the client
    reports a connection. *)
Definition in_step (s : t) : Prop :=
  isConnected (client s) = true ->
  hasSocket (client s) = true /\ lastSent s = Some (subscriptionFilters s).

End Subscription.

(* ------------------------------------------------------------------------- *)
(** ** Reading the ledger: exposure and the trail of orders *)

Module Accounting.

Import Exchange TradingBot.
Open Scope list_scope.

(** The amount of a position as a rational, for amounts that are
    finite. *)
Definition amountQ (p : Position) : Q :=
  match amount p with
  | Fin q => q
  | _ => 0
  end.

(** The exposure: the sum of the amounts of the active set. *)
Definition exposure (m : JSMap.t Position) : Q :=
  fold_right (fun e acc => (amountQ (snd e) + acc)%Q) 0%Q m.

(** Every active position has a finite amount above 0. *)
Definition positive (m : JSMap.t Position) : Prop :=
  Forall (fun e : string * Position =>
            exists q, amount (snd e) = Fin q /\ (0 < q)%Q) m.

(** The size of a trade under a finite cap: a tenth of the cap, at most
    50. *)
Definition tradeSize (cap : Q) : Q :=
  if Qltb 50 (cap * (1 # 10)) then 50%Q else (cap * (1 # 10))%Q.

(** A sell whose requested amount, if any, is not below 0. *)
Definition sellsNothingNegative (op : Op) : bool :=
  match op with
  | OpSell _ _ _ (Some r) => negb (r <? Fin 0)%num
  | _ => true
  end.

(** A position is backed by a buy entry of the history that carries its
    token, order and entry data. *)
Definition backed (history : list HistoryEntry) (tok : string)
    (p : Position) : Prop :=
  exists p0 res,
    In (Buy p0 res) history
    /\ pos_tokenId p0 = tok
    /\ pos_orderId p0 = order_id res
    /\ pos_orderId p = pos_orderId p0
    /\ buyTime p = buyTime p0
    /\ pos_price p = pos_price p0.

(** Every sell entry of the history comes after a buy entry of its
    token. *)
Definition sellsFollowBuys (history : list HistoryEntry) : Prop :=
  forall before tok a pr time res after,
    history = before ++ Sell tok a pr time res :: after ->
    exists p0 res0, In (Buy p0 res0) before /\ pos_tokenId p0 = tok.

(** A position held for more than two hours at time [now]. *)
Definition overdue (now : Z) (e : string * Position) : bool :=
  (now - buyTime (snd e) >? 2 * 60 * 60 * 1000)%Z.

(** The calls queued by a sweep, taken one after the other and answered
    by [ex] at time [time]. *)
Definition sweepOps (ex : Exchange.t) (time : Z)
    (queue : list (string * option num)) : list Op :=
  map (fun a : string * option num => OpSell ex time (fst a) (snd a)) queue.

(** An exchange with a bid in every book that accepts every sell. *)
Definition liquid (ex : Exchange.t) : Prop :=
  forall tok,
    exists ob bid,
      getOrderbook ex tok = Resolved ob
      /\ first_level (bids ob) = Some bid
      /\ forall s, exists res,
           sellContract ex tok s (level_price bid) = Resolved res.

Definition trail_ok (bot : TradingBot.t) : Prop :=
  (forall tok p, In (tok, p) (activePositions bot) ->
                 backed (tradingHistory bot) tok p)
  /\ sellsFollowBuys (tradingHistory bot).

End Accounting.

(* ------------------------------------------------------------------------- *)
(** ** Calls in flight together

    Schedules of calls and answers for [Interleaved], and what a call
    tests before its first [await]. *)

Module Schedules.

Import Exchange TradingBot Interleaved.
Open Scope list_scope.

(** The three tests of [evaluateOpportunity], on the ledger as it is
    when the call is made. *)
Definition passes (st : Interleaved.t) (o : OddsComparison.Opportunity)
    : bool :=
  (negb (JSMap.has (tokenOf o) (active st))
   && negb (getTotalPositionValue (view st) >=? maxSize st)%num
   && confident (OddsComparison.confidence (OddsComparison.valueAnalysis o)))%bool.

(** The position recorded by [executeBuyOrder] for an opportunity. *)
Definition boughtPosition (now : Z) (o : OddsComparison.Opportunity)
    (size : num) (bestAsk : Level) (orderResult : OrderResult) : Position :=
  let gameInfo := OddsComparison.gameInfo (OddsComparison.op_match o) in
  mkPosition (tokenOf o) (gameKeyOfInfo gameInfo) gameInfo
             (order_id orderResult) size (level_price bestAsk) now
             (OddsComparison.valueAnalysis o) StatusOpen None None.

(** The exchange answers [n] pending calls in the order they were made:
    first every order book, then every order. *)
Definition answersInOrder (book : Orderbook) (res : OrderResult) (now : Z)
    (n : nat) : list Action :=
  repeat (AnswerBook 0 (Resolved book)) n
  ++ repeat (AnswerOrder 0 now (Resolved res)) n.

(** The loop of [checkTradingOpportunities] over [opps]: the calls are
    made one after the other without waiting for any. *)
Definition pass (opps : list OddsComparison.Opportunity) : list Action :=
  map CallEvaluate opps.

(** Two calls [sellPosition(tokenId)] made before the exchange has
    answered the first, as two sweeps of [checkAutoSellConditions] make
    them for a position held too long; then the answers. *)
Definition twoSells (tokenId : string) (book : Orderbook)
    (now1 : Z) (res1 : OrderResult) (now2 : Z) (res2 : OrderResult)
    : list Action :=
  [CallSell tokenId None; CallSell tokenId None;
   AnswerBook 0 (Resolved book); AnswerBook 0 (Resolved book);
   AnswerOrder 0 now1 (Resolved res1); AnswerOrder 0 now2 (Resolved res2)].

(** The sample bot between its awaits, after it has bought the best
    opportunity of the sample stores. *)
Definition held : Config :=
  match Demo.bestOpportunity with
  | Some o =>
      play [CallEvaluate o; AnswerBook 0 (Resolved Demo.book);
            AnswerOrder 0 0 (Resolved (mkOrderResult "buy-1"))]
           (mkConfig (init (Fin 100) true (Fin (1 # 10))) [])
  | None => mkConfig (init (Fin 100) true (Fin (1 # 10))) []
  end.

End Schedules.

(* ------------------------------------------------------------------------- *)
(** ** TradingBot.js: what drives the bot

    The bot as a whole: the comparison service it owns, the ledger with
    its calls in flight, and the events it reacts to.  A feed message
    is taken after [JSON.parse], as its [action] and its [data] (absent
    when the message has none: reading a property of it then throws, and
    the handler's or [emit]'s [catch] ends the handling there).  The
    calls made by the loops are not awaited: they reach the ledger as
    [Interleaved] calls, and go on when the exchange answers.  A call
    that fails is dropped. *)

Module Runtime.

Import OddsComparison Exchange TradingBot Interleaved.
Open Scope string_scope.
Open Scope list_scope.

Record t : Type := mkRuntime {
  isRunning : bool;
  oddsComparison : OddsComparison.t;
  calls : Config
}.

(** constructor *)
Definition new (threshold maxPositionSize : num) (autoSellEnabled : bool)
    (autoSellThreshold : num) : t :=
  mkRuntime false (OddsComparison.new threshold)
            (mkConfig (init maxPositionSize autoSellEnabled autoSellThreshold)
                      []).

(** [handleMessage]: the event emitted for an action, if any. *)
Definition eventOf (action : string) : option string :=
  if String.eqb action "initial_state" then Some "initialState"
  else if String.eqb action "game_update" then Some "gameUpdate"
  else if String.eqb action "game_removed" then Some "gameRemoved"
  else if String.eqb action "game_added" then Some "gameAdded"
  else if String.eqb action "line_update" then Some "lineUpdate"
  else if String.eqb action "book_clear" then Some "bookClear"
  else if String.eqb action "error" then Some "error"
  else if String.eqb action "subscription_updated"
       then Some "subscriptionUpdated"
  else None.

Definition checkTradingOpportunities (now : Z) (odds : OddsComparison.t)
    (c : Config) : Config :=
  play (map CallEvaluate (findTradingOpportunities now odds)) c.

Definition checkAutoSellConditions (now : Z) (c : Config) : Config :=
  play (map (fun a : string * option num => CallSell (fst a) (snd a))
            (TradingBot.checkAutoSellConditions now (view (state c))))
       c.

Definition handleBoltOddsUpdate (now : Z) (data : option GameData) (rt : t)
    : t :=
  match data with
  | None => rt
  | Some gameData =>
      let odds := updateBoltOddsData now gameData (oddsComparison rt) in
      let c := checkTradingOpportunities now odds (calls rt) in
      mkRuntime (isRunning rt) odds
                (if autoSell (state c) then checkAutoSellConditions now c
                 else c)
  end.

(** [handleGameRemoved] changes nothing; these are the tokens of the
    positions it reports for the game. *)
Definition handleGameRemoved (data : GameData) (rt : t) : list string :=
  map fst
      (filter (fun e : string * Position =>
                 String.eqb (pos_gameKey (snd e)) (createGameKey data))
              (entries (state (calls rt)))).

(** The handlers registered by [setupEventHandlers], by event. *)
Definition emit (event : string) (now : Z) (data : option GameData) (rt : t)
    : t :=
  if (String.eqb event "initialState" || String.eqb event "gameUpdate"
      || String.eqb event "lineUpdate" || String.eqb event "gameAdded")%bool
  then handleBoltOddsUpdate now data rt
  else rt.

Definition handleMessage (now : Z) (action : string)
    (data : option GameData) (rt : t) : t :=
  match eventOf action with
  | Some event => emit event now data rt
  | None => rt
  end.

Inductive Event : Type :=
| Started
| Stopped
| Message (now : Z) (action : string) (data : option GameData)
| Unparsed
| TradingTick (now : Z)
| CleanupTick (now : Z)
| SellCommand (tokenId : string)
| BookAnswered (i : nat) (answer : Response Orderbook)
| OrderAnswered (i : nat) (now : Z) (answer : Response OrderResult)
| PriceWritten (now : Z) (tokenId : string) (marketData : MarketData).

(** [Started] and [Stopped] are [start()] and [stop()] as far as the
    bot's own state goes; the two ticks are the interval callbacks of
    [startTradingLoop] and [startPeriodicCleanup]; [SellCommand] is the
    [sell] command of the command line; [PriceWritten] is a call of
    [updatePolymarketData] on the comparison service, which nothing in
    the bot makes. *)
Definition step (rt : t) (e : Event) : t :=
  match e with
  | Started => mkRuntime true (oddsComparison rt) (calls rt)
  | Stopped => mkRuntime false (oddsComparison rt) (calls rt)
  | Message now action data => handleMessage now action data rt
  | Unparsed => rt
  | TradingTick now =>
      if isRunning rt then
        let c := checkTradingOpportunities now (oddsComparison rt) (calls rt) in
        mkRuntime (isRunning rt) (oddsComparison rt)
                  (if autoSell (state c) then checkAutoSellConditions now c
                   else c)
      else rt
  | CleanupTick now =>
      if isRunning rt then
        mkRuntime (isRunning rt)
                  (OddsData.clearOldData now 60 (oddsComparison rt))
                  (calls rt)
      else rt
  | SellCommand tokenId =>
      mkRuntime (isRunning rt) (oddsComparison rt)
                (act (calls rt) (CallSell tokenId None))
  | BookAnswered i answer =>
      mkRuntime (isRunning rt) (oddsComparison rt)
                (act (calls rt) (AnswerBook i answer))
  | OrderAnswered i now answer =>
      mkRuntime (isRunning rt) (oddsComparison rt)
                (act (calls rt) (AnswerOrder i now answer))
  | PriceWritten now tokenId marketData =>
      mkRuntime (isRunning rt)
                (updatePolymarketData now tokenId marketData
                                      (oddsComparison rt))
                (calls rt)
  end.

Definition run (es : list Event) (rt : t) : t := fold_left step es rt.

(** Events other than a write of the price store. *)
Definition writesNoPrice (e : Event) : bool :=
  match e with
  | PriceWritten _ _ _ => false
  | _ => true
  end.

(** The feed actions that reach [handleBoltOddsUpdate]. *)
Definition updatesOdds (action : string) : bool :=
  (String.eqb action "initial_state" || String.eqb action "game_update"
   || String.eqb action "line_update" || String.eqb action "game_added")%bool.

(** What is known of every position object and of every buy in flight:
    the opportunity was one on an NHL game, and the game key recorded is
    the one [createGameKey] builds from its game info. *)
Definition nhlPosition (p : Position) : Prop :=
  gi_sport (pos_gameInfo p) = "NHL"
  /\ pos_gameKey p = gameKeyOfInfo (pos_gameInfo p).

Definition nhlTask (task : Task) : Prop :=
  match task with
  | BuyAwaitsBook o _ | BuyAwaitsOrder o _ _ =>
      gi_sport (gameInfo (op_match o)) = "NHL"
  | _ => True
  end.

Definition nhl_ok (rt : t) : Prop :=
  Forall nhlPosition (objects (state (calls rt)))
  /\ Forall nhlTask (pending (calls rt)).

End Runtime.

(* ------------------------------------------------------------------------- *)
(** ** src/services/PolymarketClient.js: the order requests

    An order is an object with string keys; [{ ...a, k: v }] is [JSMap.set]
    on the entries of [a].  The request interceptor hands to the logger
    the data of the request with one more property. *)

Module Orders.

Open Scope string_scope.
Open Scope list_scope.

Inductive Value : Type :=
| Str (s : string)
| Num (n : num).

Definition Obj : Type := JSMap.t Value.

(** The fields of the client set by the constructor from the
    configuration. *)
Record Client : Type := mkClient {
  walletAddress : string;
  privateKey : string
}.

(** [orderPayload] of [placeOrder]. *)
Definition orderPayload (cl : Client) (orderData : Obj) : Obj :=
  JSMap.set "private_key" (Str (privateKey cl))
            (JSMap.set "maker" (Str (walletAddress cl)) orderData).

(** The order data of [buyContract] and [sellContract]. *)
Definition buyContract (tokenId : string) (amount price : num) : Obj :=
  [("token_id", Str tokenId); ("side", Str "buy"); ("amount", Num amount);
   ("price", Num price); ("order_type", Str "limit")].

Definition sellContract (tokenId : string) (amount price : num) : Obj :=
  [("token_id", Str tokenId); ("side", Str "sell"); ("amount", Num amount);
   ("price", Num price); ("order_type", Str "limit")].

(** What the request interceptor passes to [logger.debug] as [data]. *)
Definition requestLogged (data : Obj) : Obj :=
  JSMap.set "privateKey" (Str "***") data.

(** What [placeOrder] passes to [logger.error] as [orderData] when the
    request fails. *)
Definition failureLogged (orderData : Obj) : Obj :=
  JSMap.set "private_key" (Str "***") orderData.

End Orders.

(* ------------------------------------------------------------------------- *)
(** ** src/services/OddsComparison.js: the reading methods, as methods

    [findMatchingMarkets], [calculateValue] and [findTradingOpportunities]
    written as methods of the object: a method is given the fields and
    returns its result together with the fields as it leaves them.
    [this.x] is a [read]; an assignment to a field, or a [set] or
    [delete] on one of the two Maps, would return other fields. *)

Module Methods.

Import OddsComparison.
Open Scope list_scope.

Definition Method (A : Type) : Type := OddsComparison.t -> A * OddsComparison.t.

Definition ret {A : Type} (a : A) : Method A := fun this => (a, this).

Definition bind {A B : Type} (m : Method A) (f : A -> Method B) : Method B :=
  fun this => let (a, this') := m this in f a this'.

Definition read {A : Type} (field : OddsComparison.t -> A) : Method A :=
  fun this => (field this, this).

(** [for (const x of l) body], the body working on what the loop has
    built so far. *)
Fixpoint forEach {A B : Type} (l : list A) (body : B -> A -> Method B)
    (acc : B) : Method B :=
  match l with
  | [] => ret acc
  | x :: r => bind (body acc x) (forEach r body)
  end.

Definition findMatchingMarkets (now : Z) : Method (list Comparison) :=
  bind (read boltOddsData) (fun games =>
    forEach games
      (fun matches (ge : string * BoltSnapshot) =>
         bind (read polymarketData) (fun tokens =>
           forEach tokens
             (fun matches (pe : string * PolySnapshot) =>
                ret (match compareMarkets now (fst ge) (snd ge)
                                          (fst pe) (snd pe) with
                     | Some m => matches ++ [m]
                     | None => matches
                     end))
             matches))
      []).

Definition calculateValue (c : Comparison) : Method (option ValueAnalysis) :=
  bind (read valueThreshold) (fun threshold =>
    ret (OddsComparison.calculateValue threshold c)).

Definition findTradingOpportunities (now : Z) : Method (list Opportunity) :=
  bind (findMatchingMarkets now) (fun matches =>
    bind (forEach matches
            (fun opportunities m =>
               bind (calculateValue m) (fun value =>
                 ret (match value with
                      | Some v => opportunities ++ [opportunityOf m v]
                      | None => opportunities
                      end)))
            [])
         (fun opportunities => ret (js_sort byValueDesc opportunities))).

(** What the two loops make of one game entry and one token entry: the
    opportunity pushed for the pair, if any. *)
Definition found (threshold : num) (now : Z) (ge : string * BoltSnapshot)
    (pe : string * PolySnapshot) : option Opportunity :=
  match compareMarkets now (fst ge) (snd ge) (fst pe) (snd pe) with
  | Some m => opportunityFor threshold m
  | None => None
  end.

(** The decimal odds [calculateValue] reads for a token entry, 0 standing
    for null. *)
Definition oddsOf (pe : string * PolySnapshot) : num :=
  num_of_nullable
    (polymarketPriceToDecimal (price_or_default (price (ps_data (snd pe))))).

End Methods.

(* ========================================================================= *)
(** * Properties *)

(* ------------------------------------------------------------------------- *)
(** ** Facts about the number model *)

Section NumFacts.

Lemma Qltb_lt (a b : Q) : Qltb a b = true <-> (a < b)%Q.
Proof.
unfold Qltb. rewrite negb_true_iff.
split.
- intros H. apply Qnot_le_lt. intros Hle.
  apply Qle_bool_iff in Hle. congruence.
- intros H. destruct (Qle_bool b a) eqn:E; [|reflexivity].
  apply Qle_bool_iff in E. exfalso. apply (Qlt_not_le _ _ H E).
Qed.

Lemma Qltb_ge (a b : Q) : Qltb a b = false <-> (b <= a)%Q.
Proof.
unfold Qltb. rewrite negb_false_iff. apply Qle_bool_iff.
Qed.

Lemma gtb_trans (a b c : num) :
(a >? b)%num = true -> (b >? c)%num = true -> (a >? c)%num = true.
Proof.
unfold gtb.
destruct a, b, c; simpl; try discriminate; try reflexivity.
rewrite !Qltb_lt. intros H1 H2. eapply Qlt_trans; eassumption.
Qed.

Lemma geb_gtb_trans (a b c : num) :
(a >=? b)%num = true -> (b >? c)%num = true -> (a >? c)%num = true.
Proof.
unfold gtb, geb.
destruct a, b, c; simpl; try discriminate; try reflexivity.
rewrite !Qltb_lt, Qle_bool_iff. intros H1 H2. eapply Qlt_le_trans; eassumption.
Qed.

Lemma geb_trans (a b c : num) :
(a >=? b)%num = true -> (b >=? c)%num = true -> (a >=? c)%num = true.
Proof.
unfold geb.
destruct a, b, c; simpl; try discriminate; try reflexivity.
rewrite !Qle_bool_iff. intros H1 H2. eapply Qle_trans; eassumption.
Qed.

Lemma gtb_irrefl (a : num) : (a >? a)%num = false.
Proof.
unfold gtb. destruct a; simpl; try reflexivity.
apply Qltb_ge. apply Qle_refl.
Qed.

Lemma gtb_not_nan_l (a b : num) : (a >? b)%num = true -> is_nan a = false.
Proof. unfold gtb. destruct a, b; simpl; congruence. Qed.

(** On values that are not NaN the order is total. *)
Lemma not_gtb_geb (a b : num) :
is_nan a = false -> is_nan b = false ->
(b >? a)%num = false -> (a >=? b)%num = true.
Proof.
unfold gtb, geb.
destruct a, b; simpl; try discriminate; try reflexivity.
intros _ _. rewrite Qltb_ge, Qle_bool_iff. trivial.
Qed.

(** The sign of a difference decides the comparison, as a comparator
  function expects. *)
Lemma sub_gtb_zero (a b : num) : ((b - a) >? Fin 0)%num = (b >? a)%num.
Proof.
unfold gtb, sub.
destruct a, b; simpl; try reflexivity.
destruct (Qltb q q0) eqn:E.
- apply Qltb_lt. apply Qltb_lt in E. lra.
- apply Qltb_ge. apply Qltb_ge in E. lra.
Qed.

(** Above a non-negative bound a value is truthy. *)
Lemma gtb_nonneg_truthy (v thr : num) :
(Fin 0 <=? thr)%num = true -> (v >? thr)%num = true -> truthy v = true.
Proof.
unfold gtb.
destruct v, thr; simpl; try discriminate; try reflexivity.
rewrite Qle_bool_iff, Qltb_lt. intros H0 H1.
apply negb_true_iff. destruct (Qeq_bool q 0) eqn:E; [|reflexivity].
apply Qeq_bool_iff in E. lra.
Qed.

End NumFacts.

(* ------------------------------------------------------------------------- *)
(** ** Facts about [JSMap] *)

Section MapFacts.
Variable V : Type.
Implicit Types (m : JSMap.t V) (k : string) (v : V).

Lemma get_set m k k' v :
  JSMap.get k' (JSMap.set k v m)
  = if String.eqb k' k then Some v else JSMap.get k' m.
Proof.
  induction m as [|[k0 v0] r IH]; simpl.
  - destruct (String.eqb k' k); reflexivity.
  - destruct (String.eqb k k0) eqn:E; simpl.
    + apply String.eqb_eq in E. subst k0.
      destruct (String.eqb k' k); reflexivity.
    + rewrite IH. destruct (String.eqb k' k0) eqn:E'; [|reflexivity].
      apply String.eqb_eq in E'. subst k0.
      rewrite String.eqb_sym, E. reflexivity.
Qed.

Lemma get_delete m k k' :
  JSMap.get k' (JSMap.delete k m)
  = if String.eqb k' k then None else JSMap.get k' m.
Proof.
  unfold JSMap.delete.
  induction m as [|[k0 v0] r IH]; simpl.
  - destruct (String.eqb k' k); reflexivity.
  - destruct (String.eqb k k0) eqn:E; simpl.
    + apply String.eqb_eq in E. subst k0. rewrite IH.
      destruct (String.eqb k' k); reflexivity.
    + rewrite IH. destruct (String.eqb k' k0) eqn:E'; [|reflexivity].
      apply String.eqb_eq in E'. subst k0.
      rewrite String.eqb_sym, E. reflexivity.
Qed.

Lemma keys_set_in m k v k' :
  In k' (JSMap.keys (JSMap.set k v m)) -> k' = k \/ In k' (JSMap.keys m).
Proof.
  induction m as [|[k0 v0] r IH]; simpl.
  - intros [H|[]]; auto.
  - destruct (String.eqb k k0) eqn:E; simpl.
    + apply String.eqb_eq in E. subst k0. intros [H|H]; auto.
    + intros [H|H]; auto. destruct (IH H); auto.
Qed.

Lemma wf_set m k v : JSMap.wf m -> JSMap.wf (JSMap.set k v m).
Proof.
  unfold JSMap.wf.
  induction m as [|[k0 v0] r IH]; simpl; intros H.
  - constructor; [intros []|constructor].
  - inversion H as [|? ? Hnotin Hr]; subst.
    destruct (String.eqb k k0) eqn:E; simpl.
    + apply String.eqb_eq in E. subst k0. constructor; assumption.
    + constructor; [|auto].
      intros Hin. apply keys_set_in in Hin. destruct Hin as [->|Hin].
      * rewrite String.eqb_refl in E. discriminate.
      * contradiction.
Qed.

Lemma wf_delete m k : JSMap.wf m -> JSMap.wf (JSMap.delete k m).
Proof.
  unfold JSMap.wf, JSMap.delete, JSMap.keys.
  induction m as [|[k0 v0] r IH]; simpl; intros H; [constructor|].
  inversion H as [|? ? Hnotin Hr]; subst.
  destruct (String.eqb k k0); simpl; [auto|].
  constructor; [|auto].
  intros Hin. apply Hnotin.
  apply in_map_iff in Hin. destruct Hin as [e [He Hin]].
  apply filter_In in Hin. apply in_map_iff. exists e. tauto.
Qed.

Lemma get_in m k v : JSMap.get k m = Some v -> In (k, v) m.
Proof.
  induction m as [|[k0 v0] r IH]; simpl; [discriminate|].
  destruct (String.eqb k k0) eqn:E.
  - apply String.eqb_eq in E. intros [= ->]. subst. auto.
  - auto.
Qed.

End MapFacts.

(* ------------------------------------------------------------------------- *)
(** ** Odds conversions and the price store *)

Section OddsConversions.
Import OddsComparison.

(** The mock feed of src/test.js: American odds +150 give decimal 2.5. *)
Example americanToDecimal_150 :
  eqn (americanToDecimal (Parse.parseFloat "150")) (Fin (5 # 2)).
Proof. vm_compute. reflexivity. Qed.

Example price_060_decimal :
  polymarketPriceToDecimal (Fin (6 # 10)) = Some (Fin (10 # 6)).
Proof. reflexivity. Qed.

Example price_060_american :
  polymarketPriceToAmerican (Fin (6 # 10)) = Some (Fin (-150)).
Proof. reflexivity. Qed.

Example price_050_american :
  polymarketPriceToAmerican (Fin (1 # 2)) = Some (Fin 100).
Proof. reflexivity. Qed.

(** An integer is its own rounding. *)
Lemma round_integer (z : Z) : round (of_Z z) = of_Z z.
Proof.
  unfold round, of_Z. f_equal. f_equal.
  pose proof (Qfloor_le (inject_Z z + (1 # 2))) as Hle.
  pose proof (Qlt_floor (inject_Z z + (1 # 2))) as Hlt.
  unfold Qle, Qlt in *. simpl in *. lia.
Qed.

Lemma roundtrip_above_100 (q : Q) :
  (100 <= q)%Q ->
  decimalToAmerican (americanToDecimal (Fin q)) = round (Fin q).
Proof.
  intros Hq. unfold americanToDecimal, gtb. cbn [ltb].
  replace (Qltb 0 q) with true by (symmetry; apply Qltb_lt; lra).
  cbn [div]. change (Qeq_bool 100 0) with false. cbn iota. cbn [add].
  change (q / 100)%Q with (q * (1 # 100))%Q.
  unfold decimalToAmerican, geb. cbn [leb].
  replace (Qle_bool 2 (q * (1 # 100) + 1)) with true
    by (symmetry; apply Qle_bool_iff; lra).
  unfold sub. cbn [neg add mul round]. f_equal. f_equal.
  apply Qfloor_comp. field.
Qed.

Lemma roundtrip_below_minus_100 (q : Q) :
  (q < -100)%Q ->
  decimalToAmerican (americanToDecimal (Fin q)) = round (Fin q).
Proof.
  intros Hq. unfold americanToDecimal, gtb. cbn [ltb].
  replace (Qltb 0 q) with false by (symmetry; apply Qltb_ge; lra).
  cbn [abs div add].
  assert (Habs : (Qabs q == - q)%Q) by (apply Qabs_neg; lra).
  assert (Hnz : Qeq_bool (Qabs q) 0 = false).
  { destruct (Qeq_bool (Qabs q) 0) eqn:E; [|reflexivity].
    apply Qeq_bool_iff in E. lra. }
  rewrite Hnz. cbn [add].
  assert (Hfrac : (0 < 100 / Qabs q /\ 100 / Qabs q < 1)%Q).
  { rewrite Habs. split.
    - apply Qlt_shift_div_l; lra.
    - apply Qlt_shift_div_r; lra. }
  assert (Hback : (-100 / (100 / Qabs q + 1 + - (1)) + (1 # 2)
                   == q + (1 # 2))%Q).
  { rewrite Habs. field. lra. }
  revert Hfrac Hback. generalize (100 / Qabs q)%Q. intros f Hfrac Hback.
  unfold decimalToAmerican, geb. cbn [leb].
  replace (Qle_bool 2 (f + 1)) with false.
  2:{ symmetry. destruct (Qle_bool 2 (f + 1)) eqn:E; [|reflexivity].
      apply Qle_bool_iff in E. lra. }
  unfold sub. cbn [neg add div].
  assert (Hnz' : Qeq_bool (f + 1 + - (1)) 0 = false).
  { destruct (Qeq_bool (f + 1 + - (1)) 0) eqn:E; [|reflexivity].
    apply Qeq_bool_iff in E. lra. }
  rewrite Hnz'. cbn [round]. f_equal. f_equal.
  apply Qfloor_comp. exact Hback.
Qed.

(** The way back from decimal odds is exact on every integer from +100
    up and below -100; -100 comes back as +100, the same odds. *)
Lemma roundtrip_integers (x : Z) :
  (100 <= x \/ x < -100)%Z ->
  decimalToAmerican (americanToDecimal (of_Z x)) = of_Z x.
Proof.
  intros [Hx|Hx]; rewrite <- (round_integer x) at 2; unfold of_Z.
  - apply roundtrip_above_100. unfold Qle. simpl. lia.
  - apply roundtrip_below_minus_100. unfold Qlt. simpl. lia.
Qed.

Example roundtrip_minus_100 :
  decimalToAmerican (americanToDecimal (Fin (-100))) = Fin 100.
Proof. reflexivity. Qed.

(** C5. For each American odds value x among +150, -120, +100 and -300,
    converting x to decimal odds with [americanToDecimal] and back with
    [decimalToAmerican] gives x again (the rounding of the way back
    absorbs the fraction). *)
Theorem american_decimal_roundtrip :
  forall x : Z,
    In x [150; -120; 100; -300]%Z ->
    decimalToAmerican (americanToDecimal (of_Z x)) = of_Z x.
Proof.
  intros x Hx. apply roundtrip_integers. simpl in Hx.
  destruct Hx as [<-|[<-|[<-|[<-|[]]]]]; lia.
Qed.

Lemma american_decimal_roundtrip_witness :
  In (-120)%Z [150; -120; 100; -300]%Z
  /\ decimalToAmerican (americanToDecimal (of_Z (-120))) = of_Z (-120).
Proof.
  split.
  - simpl. right. left. reflexivity.
  - apply american_decimal_roundtrip. simpl. right. left. reflexivity.
Defined.

End OddsConversions.

Section PriceStore.
Import OddsComparison.

(** The conversions refuse exactly the prices that are at most 0 or at
    least 1. *)
Lemma polymarketPriceToDecimal_null (p : num) :
  polymarketPriceToDecimal p = None
  <-> ((p <=? Fin 0) || (p >=? Fin 1))%num = true.
Proof.
  unfold polymarketPriceToDecimal.
  destruct ((p <=? Fin 0) || (p >=? Fin 1))%num; split; congruence.
Qed.

Lemma polymarketPriceToAmerican_null (p : num) :
  polymarketPriceToAmerican p = None
  <-> ((p <=? Fin 0) || (p >=? Fin 1))%num = true.
Proof.
  unfold polymarketPriceToAmerican.
  destruct ((p <=? Fin 0) || (p >=? Fin 1))%num; split; congruence.
Qed.

(** C1, as stated, fails: prices 0, 1, -1/2 and 3/2 are each stored by
    [updatePolymarketData] under their token. *)
Lemma invalid_price_is_stored :
  Forall
    (fun p =>
       ((p <=? Fin 0) || (p >=? Fin 1))%num = true
       /\ JSMap.get "token-1"
            (polymarketData
               (updatePolymarketData 1700000000000 "token-1"
                  (mkMarketData (PriceNum p)) (new (Fin (5 # 100)))))
          = Some (mkPolySnapshot (mkMarketData (PriceNum p)) 1700000000000))
    [Fin 0; Fin 1; Fin (-1 # 2); Fin (3 # 2)].
Proof. repeat constructor. Qed.

Lemma no_price_default (f : PriceField) :
  no_price f -> price_or_default f = Fin (1 # 2).
Proof.
  intros [->|[->|[q [-> Hq]]]]; simpl; try reflexivity.
  apply Qeq_bool_iff in Hq. rewrite Hq. reflexivity.
Qed.

(** C9. For a stored price snapshot whose price is missing, null or 0,
    [compareMarkets] gives the same answer as for a snapshot with price
    0.5: the snapshot is not refused because of its price (the answer is
    null only for a sport other than NHL or a game without moneyline
    outcome), and the comparison built carries price 0.5, decimal odds 2
    and American odds +100, so that the edge of every outcome is its
    implied probability minus 1/2. *)
Theorem compareMarkets_default_price :
  forall (now : Z) (gk : string) (b : BoltSnapshot) (tok : string)
         (ps : PolySnapshot),
    no_price (price (ps_data ps)) ->
    compareMarkets now gk b tok ps
    = compareMarkets now gk b tok
        (mkPolySnapshot (mkMarketData (PriceNum (Fin (1 # 2))))
                        (ps_timestamp ps))
    /\ (compareMarkets now gk b tok ps = None
        <-> (String.eqb (sport (bs_data b)) "NHL" = false
             \/ findMoneylineOutcomes b = []))
    /\ (forall c,
           compareMarkets now gk b tok ps = Some c ->
           pv_price (polymarket c) = Fin (1 # 2)
           /\ pv_decimalOdds (polymarket c) = Some (Fin 2)
           /\ pv_americanOdds (polymarket c) = Some (Fin 100)
           /\ forall thr,
               calculateValue thr c
               = match fold_left (best_step thr (Fin 2)) (boltOdds c)
                                 (None, None) with
                 | (Some v, Some o) =>
                     if truthy v
                     then Some (mkValueAnalysis v o (Fin 2)
                                  (calculateConfidence v))
                     else None
                 | _ => None
                 end)
    /\ (forall o, edge (Fin 2) o = (impliedProbability o - Fin (1 # 2))%num).
Proof.
  intros now gk b tok ps Hp.
  pose proof (no_price_default Hp) as Hd.
  unfold compareMarkets. simpl. rewrite Hd.
  split; [reflexivity|].
  split; [|split].
  - destruct (String.eqb (sport (bs_data b)) "NHL"); simpl.
    + destruct (findMoneylineOutcomes b); simpl.
      * split; auto.
      * split; [discriminate|]. intros [H|H]; discriminate.
    + split; auto.
  - intros c.
    destruct (String.eqb (sport (bs_data b)) "NHL"); simpl; [|discriminate].
    destruct (findMoneylineOutcomes b) as [|o os] eqn:E; simpl; [discriminate|].
    intros [= <-]. simpl.
    repeat split.
  - intros o. reflexivity.
Qed.

Lemma compareMarkets_default_price_witness :
  let b :=
    mkBoltSnapshot
      (mkGameData "NHL" "Toronto Maple Leafs" "Montreal Canadiens" "G1"
         [("Toronto Maple Leafs Moneyline"%string,
           mkOutcome "Moneyline" "Toronto Maple Leafs" "150" "")]) 0 in
  let ps := mkPolySnapshot (mkMarketData (PriceNum (Fin 0))) 0 in
  no_price (price (ps_data ps))
  /\ exists c,
      compareMarkets 1 "k" b "token-1" ps = Some c
      /\ pv_price (polymarket c) = Fin (1 # 2).
Proof.
  assert (Hp : no_price (PriceNum (Fin 0))).
  { right. right. exists 0%Q. split; reflexivity. }
  split; [exact Hp|].
  eexists. split; [reflexivity|].
  destruct (compareMarkets_default_price 1 "k"
              (mkBoltSnapshot
                 (mkGameData "NHL" "Toronto Maple Leafs" "Montreal Canadiens"
                    "G1"
                    [("Toronto Maple Leafs Moneyline"%string,
                      mkOutcome "Moneyline" "Toronto Maple Leafs" "150" "")])
                 0)
              "token-1"
              (mkPolySnapshot (mkMarketData (PriceNum (Fin 0))) 0) Hp)
    as (_ & _ & H & _).
  apply (H _ eq_refl).
Defined.

End PriceStore.

(* ------------------------------------------------------------------------- *)
(** ** The value calculation *)

Section ValueCalculation.
Import OddsComparison.

Variable threshold : num.
Variable d : num.

Hypothesis threshold_nonneg : (Fin 0 <=? threshold)%num = true.

Lemma not_true_false (b : bool) : (b = true -> False) -> b = false.
Proof. destruct b; [intros H; exfalso; auto | reflexivity]. Qed.

Lemma best_step_keeps (seen : list MoneylineOutcome)
    (best : option num * option MoneylineOutcome) (o : MoneylineOutcome) :
  best_of threshold d seen best ->
  best_of threshold d (seen ++ [o]) (best_step threshold d best o).
Proof.
  intros Hb. unfold best_step.
  destruct Hb as [Hnone | pre b post Hseen Hb Hmax Hfirst]; simpl.
  - destruct (edge d o >? threshold)%num eqn:Ho.
    + apply (@best_some threshold d (seen ++ [o]) seen o []); auto.
      * intros o' Hin. apply in_app_or in Hin. destruct Hin as [Hin|[<-|[]]].
        -- apply not_true_false. intros Hgt.
           pose proof (gtb_trans _ _ _ Hgt Ho). pose proof (Hnone _ Hin).
           congruence.
        -- apply gtb_irrefl.
      * intros o' Hin. apply not_true_false. intros Hge.
        pose proof (geb_gtb_trans _ _ _ Hge Ho). pose proof (Hnone _ Hin). congruence.
    + constructor. intros o' Hin.
      apply in_app_or in Hin. destruct Hin as [Hin|[<-|[]]]; auto.
  - rewrite (gtb_nonneg_truthy _ _ threshold_nonneg Hb). simpl.
    destruct (edge d o >? threshold)%num eqn:Ho.
    + destruct (edge d o >? edge d b)%num eqn:Hgt.
      * apply (@best_some threshold d (seen ++ [o]) seen o []); auto.
        -- intros o' Hin. apply in_app_or in Hin.
           destruct Hin as [Hin|[<-|[]]].
           ++ apply not_true_false. intros Hgt'.
              pose proof (gtb_trans _ _ _ Hgt' Hgt). pose proof (Hmax _ Hin).
              congruence.
           ++ apply gtb_irrefl.
        -- intros o' Hin. apply not_true_false. intros Hge.
           pose proof (geb_gtb_trans _ _ _ Hge Hgt). pose proof (Hmax _ Hin).
           congruence.
      * apply (@best_some threshold d (seen ++ [o]) pre b (post ++ [o])); auto.
        -- rewrite Hseen, <- app_assoc. reflexivity.
        -- intros o' Hin. apply in_app_or in Hin.
           destruct Hin as [Hin|[<-|[]]]; auto.
    + apply (@best_some threshold d (seen ++ [o]) pre b (post ++ [o])); auto.
      * rewrite Hseen, <- app_assoc. reflexivity.
      * intros o' Hin. apply in_app_or in Hin.
        destruct Hin as [Hin|[<-|[]]]; auto.
        apply not_true_false. intros Hgt.
        rewrite (gtb_trans _ _ _ Hgt Hb) in Ho. discriminate.
Qed.

Lemma best_fold (rest seen : list MoneylineOutcome)
    (best : option num * option MoneylineOutcome) :
  best_of threshold d seen best ->
  best_of threshold d (seen ++ rest)
          (fold_left (best_step threshold d) rest best).
Proof.
  revert seen best.
  induction rest as [|o rest IH]; intros seen best Hb; simpl.
  - rewrite app_nil_r. assumption.
  - replace (seen ++ o :: rest) with ((seen ++ [o]) ++ rest)
      by (rewrite <- app_assoc; reflexivity).
    apply IH. apply best_step_keeps. assumption.
Qed.

Lemma best_all (l : list MoneylineOutcome) :
  best_of threshold d l (fold_left (best_step threshold d) l (None, None)).
Proof.
  apply (@best_fold l [] (None, None)). constructor. intros o [].
Qed.

End ValueCalculation.

Section ValueCalculationSpec.
Import OddsComparison.

(** Without usable decimal odds on the price side no edge is above any
    threshold. *)
Lemma edge_falsy_odds (threshold : num) (od : option num) (o : MoneylineOutcome) :
  falsy od = true ->
  (edge (num_of_nullable od) o >? threshold)%num = false.
Proof.
  unfold falsy, edge, gtb, sub, div.
  destruct od as [[q| | |]|]; simpl; try discriminate; intros H.
  - apply negb_true_iff, negb_false_iff in H. rewrite H. simpl.
    destruct (impliedProbability o), threshold; reflexivity.
  - destruct (impliedProbability o), threshold; reflexivity.
  - destruct (impliedProbability o), threshold; reflexivity.
Qed.

(** The two ways [calculateValue] can end. *)
Lemma calculateValue_cases (threshold : num) (c : Comparison) :
  (Fin 0 <=? threshold)%num = true ->
  let d := num_of_nullable (pv_decimalOdds (polymarket c)) in
  (calculateValue threshold c = None
   /\ forall o, In o (boltOdds c) -> (edge d o >? threshold)%num = false)
  \/ (exists pre b post,
         boltOdds c = pre ++ b :: post
         /\ (edge d b >? threshold)%num = true
         /\ (forall o, In o (boltOdds c) -> (edge d o >? edge d b)%num = false)
         /\ (forall o, In o pre -> (edge d o >=? edge d b)%num = false)
         /\ calculateValue threshold c
            = Some (mkValueAnalysis (edge d b) b d
                      (calculateConfidence (edge d b)))).
Proof.
  intros Hthr d.
  unfold calculateValue. fold d.
  destruct (boltOdds c) as [|o0 os] eqn:Hbo.
  { left. split; [reflexivity | intros o []]. }
  rewrite <- Hbo. replace (Nat.eqb (List.length (boltOdds c)) 0) with false
    by (rewrite Hbo; reflexivity).
  cbn [orb].
  destruct (falsy (pv_decimalOdds (polymarket c))) eqn:Hf.
  { left. split; [reflexivity|]. intros o _.
    apply (edge_falsy_odds threshold _ o Hf). }
  pose proof (@best_all threshold d Hthr (boltOdds c)) as Hbest.
  destruct Hbest as [Hnone | pre b post Hseen Hb Hmax Hfirst].
  - left. split; [reflexivity | assumption].
  - right. exists pre, b, post.
    rewrite (gtb_nonneg_truthy _ _ Hthr Hb). auto.
Qed.

(** C4. For a match [c], with [d] the decimal odds of the price side, the
    edge of an outcome is its implied probability minus [1 / d].
    [calculateValue] gives an opportunity exactly when some outcome has
    an edge above the threshold, that is when the greatest edge is above
    it; the outcome retained has an edge that no outcome exceeds, and no
    outcome before it in the list reaches that edge: among equal maxima
    the first met wins.  The threshold is the configured
    MIN_VALUE_THRESHOLD, which the configuration schema keeps at 0 or
    more. *)
Theorem calculateValue_first_maximum :
  forall (threshold : num) (c : Comparison),
    (Fin 0 <=? threshold)%num = true ->
    let d := num_of_nullable (pv_decimalOdds (polymarket c)) in
    ((exists v, calculateValue threshold c = Some v)
     <-> (exists o, In o (boltOdds c) /\ (edge d o >? threshold)%num = true))
    /\ (forall v,
           calculateValue threshold c = Some v ->
           exists pre post,
             boltOdds c = pre ++ outcome v :: post
             /\ value v = (impliedProbability (outcome v) - Fin 1 / d)%num
             /\ (value v >? threshold)%num = true
             /\ (forall o, In o (boltOdds c) ->
                           (edge d o >? value v)%num = false)
             /\ (forall o, In o pre -> (edge d o >=? value v)%num = false)).
Proof.
  intros threshold c Hthr d.
  destruct (@calculateValue_cases threshold c Hthr)
    as [[Hnone Hlow] | (pre & b & post & Hseen & Hb & Hmax & Hfirst & Hsome)];
    fold d in Hlow || fold d in Hseen, Hb, Hmax, Hfirst, Hsome.
  - rewrite Hnone. split.
    + split; [intros [v [=]] | intros [o [Hin Ho]]].
      rewrite (Hlow _ Hin) in Ho. discriminate.
    + intros v [=].
  - rewrite Hsome. split.
    + split; [intros _; exists b; split; [|assumption] | eauto].
      rewrite Hseen. apply in_or_app. right. left. reflexivity.
    + intros v [= <-]. cbn [outcome value]. exists pre, post. auto.
Qed.

(** Implied probability 40 % against price 0.55: edge -0.15, nothing
    retained.  Implied probability 70 % against price 0.50: edge 0.20,
    retained with high confidence. *)
Example edge_below_threshold :
  calculateValue (Fin (5 # 100))
    (mkComparison "k" "token-1" (mkGameInfo "NHL" "A" "B" "G1" 0)
       [mkMoneylineOutcome "A" "150" (Fin 150) (Fin (5 # 2)) (Fin (4 # 10)) ""]
       (mkPolyView "token-1" (Fin (55 # 100))
          (polymarketPriceToDecimal (Fin (55 # 100)))
          (polymarketPriceToAmerican (Fin (55 # 100)))) 0)
  = None.
Proof. reflexivity. Qed.

Example edge_above_threshold :
  exists v,
    calculateValue (Fin (5 # 100))
      (mkComparison "k" "token-1" (mkGameInfo "NHL" "A" "B" "G1" 0)
         [mkMoneylineOutcome "A" "-233" (Fin (-233)) (Fin (333 # 233))
                             (Fin (7 # 10)) ""]
         (mkPolyView "token-1" (Fin (1 # 2))
            (polymarketPriceToDecimal (Fin (1 # 2)))
            (polymarketPriceToAmerican (Fin (1 # 2)))) 0)
    = Some v
    /\ eqn (value v) (Fin (2 # 10))
    /\ confidence v = High.
Proof.
  eexists. split; [reflexivity|]. split; vm_compute; reflexivity.
Qed.

(** The bound on the threshold matters: below 0 a retained edge of 0 counts
    as none and a later, smaller edge takes its place.  (The schema of the
    configuration refuses such a threshold.) *)
Example negative_threshold_retains_smaller_edge :
  exists v,
    calculateValue (Fin (-1 # 10))
      (mkComparison "k" "token-1" (mkGameInfo "NHL" "A" "B" "G1" 0)
         [mkMoneylineOutcome "A" "100" (Fin 100) (Fin 2) (Fin (1 # 2)) "";
          mkMoneylineOutcome "B" "122" (Fin 122) (Fin (222 # 100))
                             (Fin (45 # 100)) ""]
         (mkPolyView "token-1" (Fin (1 # 2)) (Some (Fin 2)) (Some (Fin 100)))
         0)
    = Some v
    /\ team (outcome v) = "B"%string
    /\ eqn (value v) (Fin (-5 # 100)).
Proof.
  eexists. split; [reflexivity|]. split; vm_compute; reflexivity.
Qed.

Lemma calculateValue_first_maximum_witness :
  let o1 := mkMoneylineOutcome "A" "-233" (Fin (-233)) (Fin (333 # 233))
                               (Fin (7 # 10)) "" in
  let o2 := mkMoneylineOutcome "B" "150" (Fin 150) (Fin (5 # 2))
                               (Fin (4 # 10)) "" in
  let c := mkComparison "k" "token-1" (mkGameInfo "NHL" "A" "B" "G1" 0)
                        [o2; o1; o1]
                        (mkPolyView "token-1" (Fin (1 # 2)) (Some (Fin 2))
                                    (Some (Fin 100))) 0 in
  (Fin 0 <=? Fin (5 # 100))%num = true
  /\ exists v, calculateValue (Fin (5 # 100)) c = Some v
               /\ (value v >? Fin (5 # 100))%num = true.
Proof.
  intros o1 o2 c.
  split; [reflexivity|].
  eexists. split; [reflexivity|].
  destruct (calculateValue_first_maximum (Fin (5 # 100)) c eq_refl)
    as [_ H].
  destruct (H _ eq_refl) as (pre & post & _ & _ & Hv & _).
  exact Hv.
Defined.

End ValueCalculationSpec.

(* ------------------------------------------------------------------------- *)
(** ** Loops that push, and the sort *)

Section PushLoops.
Variables A B : Type.
Variable f : A -> option B.

Lemma fold_push (l : list A) (acc : list B) :
  fold_left (fun acc x => match f x with
                          | Some y => acc ++ [y]
                          | None => acc
                          end) l acc
  = acc ++ flat_map (fun x => pushed (f x)) l.
Proof.
  revert acc. induction l as [|x l IH]; intros acc; simpl.
  - rewrite app_nil_r. reflexivity.
  - rewrite IH. destruct (f x); simpl.
    + rewrite <- app_assoc. reflexivity.
    + reflexivity.
Qed.
End PushLoops.

Section SortFacts.
Variable A : Type.
Variable key : A -> num.

Lemma sort_insert_perm (x : A) (l : list A) :
  Permutation (sort_insert (by_key_desc key) x l) (x :: l).
Proof.
  induction l as [|y r IH]; cbn [sort_insert]; [apply Permutation_refl|].
  destruct (by_key_desc key x y >? Fin 0)%num.
  - eapply Permutation_trans; [apply perm_skip, IH | apply perm_swap].
  - apply Permutation_refl.
Qed.

Lemma js_sort_perm (l : list A) :
  Permutation (js_sort (by_key_desc key) l) l.
Proof.
  induction l as [|x l IH]; cbn [js_sort fold_right]; [constructor|].
  eapply Permutation_trans; [apply sort_insert_perm|].
  apply perm_skip, IH.
Qed.

Lemma gtb_geb (a b : num) : (a >? b)%num = true -> (a >=? b)%num = true.
Proof.
  unfold gtb, geb. destruct a, b; simpl; try discriminate; try reflexivity.
  rewrite Qltb_lt, Qle_bool_iff. apply Qlt_le_weak.
Qed.

Lemma sort_insert_sorted (x : A) (l : list A) :
  is_nan (key x) = false ->
  Forall (fun a => is_nan (key a) = false) l ->
  StronglySorted (descending key) l ->
  StronglySorted (descending key) (sort_insert (by_key_desc key) x l).
Proof.
  intros Hx Hl Hs.
  induction Hs as [|y r Hr IH Hy]; cbn [sort_insert].
  - constructor; constructor.
  - inversion Hl as [|? ? Hny Hnr]; subst.
    unfold by_key_desc at 1. rewrite sub_gtb_zero.
    destruct (key y >? key x)%num eqn:E.
    + constructor; [auto|].
      apply Forall_forall. intros z Hz.
      apply (Permutation_in _ (sort_insert_perm x r)) in Hz.
      destruct Hz as [<-|Hz].
      * apply gtb_geb. assumption.
      * rewrite Forall_forall in Hy. auto.
    + assert (Hxy : descending key x y) by (apply not_gtb_geb; assumption).
      constructor; [constructor; assumption|].
      constructor; [assumption|].
      apply Forall_forall. intros z Hz.
      rewrite Forall_forall in Hy.
      unfold descending. eapply geb_trans; [exact Hxy | apply Hy; assumption].
Qed.

Lemma js_sort_sorted (l : list A) :
  Forall (fun a => is_nan (key a) = false) l ->
  StronglySorted (descending key) (js_sort (by_key_desc key) l).
Proof.
  induction l as [|x l IH]; cbn [js_sort fold_right]; intros H;
    [constructor|].
  inversion H as [|? ? Hx Hl]; subst.
  apply sort_insert_sorted; auto.
  apply Forall_forall. intros z Hz.
  apply (Permutation_in _ (js_sort_perm l)) in Hz.
  rewrite Forall_forall in Hl. auto.
Qed.

(** A change of the elements that the comparator does not see commutes
    with the sort. *)
Variable g : A -> A.
Hypothesis key_g : forall a, key (g a) = key a.

Lemma sort_insert_map (x : A) (l : list A) :
  sort_insert (by_key_desc key) (g x) (map g l)
  = map g (sort_insert (by_key_desc key) x l).
Proof.
  induction l as [|y r IH]; cbn [sort_insert map]; [reflexivity|].
  unfold by_key_desc at 1 3. rewrite !key_g.
  destruct (key y - key x >? Fin 0)%num; cbn [map]; [rewrite IH|];
    reflexivity.
Qed.

Lemma js_sort_map (l : list A) :
  js_sort (by_key_desc key) (map g l) = map g (js_sort (by_key_desc key) l).
Proof.
  induction l as [|x l IH]; cbn [js_sort fold_right map]; [reflexivity|].
  fold (js_sort (by_key_desc key) (map g l)).
  fold (js_sort (by_key_desc key) l).
  rewrite IH. apply sort_insert_map.
Qed.
End SortFacts.

(* ------------------------------------------------------------------------- *)
(** ** Ranking the opportunities *)

Section Opportunities.
Import OddsComparison.

Lemma fold_append (A B : Type) (h : A -> list B -> list B) (k : A -> list B)
    (l : list A) (acc : list B) :
  (forall x acc, h x acc = acc ++ k x) ->
  fold_left (fun acc x => h x acc) l acc = acc ++ flat_map k l.
Proof.
  intros Hh. revert acc. induction l as [|x l IH]; intros acc; simpl.
  - rewrite app_nil_r. reflexivity.
  - rewrite IH, Hh, <- app_assoc. reflexivity.
Qed.

(** The matching pass pairs every game with every token, games first. *)
Lemma findMatchingMarkets_pairs (now : Z) (st : t) :
  findMatchingMarkets now st
  = flat_map
      (fun ge : string * BoltSnapshot =>
         flat_map
           (fun pe : string * PolySnapshot =>
              pushed (compareMarkets now (fst ge) (snd ge) (fst pe) (snd pe)))
           (polymarketData st))
      (boltOddsData st).
Proof.
  unfold findMatchingMarkets.
  rewrite (fold_append
             (fun (ge : string * BoltSnapshot) matches =>
                fold_left
                  (fun matches (pe : string * PolySnapshot) =>
                     match compareMarkets now (fst ge) (snd ge) (fst pe) (snd pe) with
                     | Some m => matches ++ [m]
                     | None => matches
                     end) (polymarketData st) matches)
             (fun ge : string * BoltSnapshot =>
                flat_map
                  (fun pe : string * PolySnapshot =>
                     pushed (compareMarkets now (fst ge) (snd ge) (fst pe) (snd pe)))
                  (polymarketData st))).
  - reflexivity.
  - intros ge acc.
    apply (fold_push
             (fun pe : string * PolySnapshot =>
                compareMarkets now (fst ge) (snd ge) (fst pe) (snd pe))).
Qed.

Lemma collectOpportunities_pushed (threshold : num) (ms : list Comparison) :
  collectOpportunities threshold ms
  = flat_map (fun m => pushed (opportunityFor threshold m)) ms.
Proof.
  unfold collectOpportunities.
  rewrite (fold_append
             (fun m opportunities =>
                match calculateValue threshold m with
                | Some v => opportunities ++ [opportunityOf m v]
                | None => opportunities
                end)
             (fun m => pushed (opportunityFor threshold m))).
  - reflexivity.
  - intros m acc. unfold opportunityFor.
    destruct (calculateValue threshold m); simpl;
      [reflexivity | rewrite app_nil_r; reflexivity].
Qed.

Lemma in_collect (threshold : num) (ms : list Comparison) (o : Opportunity) :
  In o (collectOpportunities threshold ms)
  <-> exists m v, In m ms /\ calculateValue threshold m = Some v
                  /\ o = opportunityOf m v.
Proof.
  rewrite collectOpportunities_pushed, in_flat_map. unfold opportunityFor.
  split.
  - intros [m [Hm Ho]]. destruct (calculateValue threshold m) as [v|] eqn:E;
      simpl in Ho; [|contradiction].
    destruct Ho as [<-|[]]. eauto.
  - intros (m & v & Hm & Hv & ->). exists m. rewrite Hv. simpl. auto.
Qed.

(** A retained value passed the test against the threshold. *)
Lemma best_step_above (threshold d : num) (l : list MoneylineOutcome)
    (best : option num * option MoneylineOutcome) :
  (forall v, fst best = Some v -> (v >? threshold)%num = true) ->
  forall v, fst (fold_left (best_step threshold d) l best) = Some v ->
            (v >? threshold)%num = true.
Proof.
  revert best. induction l as [|o l IH]; intros best Hb; simpl; [exact Hb|].
  apply IH. unfold best_step.
  destruct (edge d o >? threshold)%num eqn:Ho; [|exact Hb].
  destruct (falsy (fst best) || (edge d o >? num_of_nullable (fst best))%num)%bool;
    [|exact Hb].
  intros v [= <-]. exact Ho.
Qed.

Lemma calculateValue_above (threshold : num) (c : Comparison) (v : ValueAnalysis) :
  calculateValue threshold c = Some v -> (value v >? threshold)%num = true.
Proof.
  unfold calculateValue.
  destruct (Nat.eqb (List.length (boltOdds c)) 0
            || falsy (pv_decimalOdds (polymarket c)))%bool; [discriminate|].
  destruct (fold_left _ (boltOdds c) (None, None)) as [[bv|] [bo|]] eqn:E;
    try discriminate.
  destruct (truthy bv); [|discriminate].
  intros [= <-]. cbn [value].
  apply (@best_step_above threshold
           (num_of_nullable (pv_decimalOdds (polymarket c)))
           (boltOdds c) (None, None)).
  - intros v [=].
  - rewrite E. reflexivity.
Qed.

Lemma flat_map_map (A B : Type) (g : B -> B) (h h' : A -> list B) (l : list A) :
  (forall x, h' x = map g (h x)) ->
  flat_map h' l = map g (flat_map h l).
Proof.
  intros H. induction l as [|x l IH]; simpl; [reflexivity|].
  rewrite map_app, IH, H. reflexivity.
Qed.

Lemma findMatchingMarkets_stamped (now now' : Z) (st : t) :
  findMatchingMarkets now' st = map (stamped now') (findMatchingMarkets now st).
Proof.
  rewrite !findMatchingMarkets_pairs.
  apply flat_map_map. intros ge.
  apply flat_map_map. intros pe.
  unfold compareMarkets.
  destruct (negb (String.eqb (gi_sport (extractGameInfo (snd ge))) "NHL"));
    [reflexivity|].
  destruct (Nat.eqb (List.length (findMoneylineOutcomes (snd ge))) 0);
    reflexivity.
Qed.

Lemma collectOpportunities_stamped (threshold : num) (time : Z)
    (ms : list Comparison) :
  collectOpportunities threshold (map (stamped time) ms)
  = map (at_time time) (collectOpportunities threshold ms).
Proof.
  rewrite !collectOpportunities_pushed, flat_map_concat_map, map_map,
    <- flat_map_concat_map.
  apply flat_map_map. intros m. unfold opportunityFor.
  change (calculateValue threshold (stamped time m))
    with (calculateValue threshold m).
  destruct (calculateValue threshold m); reflexivity.
Qed.

End Opportunities.

(* ------------------------------------------------------------------------- *)
(** ** The position ledger *)

Section Ledger.
Import Exchange TradingBot.

Lemma in_set (V : Type) (m : JSMap.t V) (k k' : string) (v v' : V) :
  In (k', v') (JSMap.set k v m) -> (k', v') = (k, v) \/ In (k', v') m.
Proof.
  induction m as [|[k0 v0] r IH]; simpl.
  - intros [H|[]]; auto.
  - destruct (String.eqb k k0); simpl; intros [H|H]; auto.
    destruct (IH H); auto.
Qed.

Lemma in_delete (V : Type) (m : JSMap.t V) (k : string) (e : string * V) :
  In e (JSMap.delete k m) -> In e m.
Proof. unfold JSMap.delete. intros H. apply filter_In in H. tauto. Qed.

(** In a well-formed map at most one entry answers to a key. *)
Lemma wf_filter_key (V : Type) (m : JSMap.t V) (k : string)
    (P : string * V -> bool) :
  JSMap.wf m ->
  (List.length
     (filter (fun e => (String.eqb (fst e) k && P e)%bool) m) <= 1)%nat.
Proof.
  unfold JSMap.wf.
  induction m as [|[k0 v0] r IH]; simpl; intros H; [lia|].
  inversion H as [|? ? Hnotin Hr]; subst.
  destruct (String.eqb k0 k) eqn:E; simpl; [|auto].
  apply String.eqb_eq in E. subst k0.
  assert (Hnil : filter (fun e => (String.eqb (fst e) k && P e)%bool) r = []).
  { clear -Hnotin. induction r as [|[k1 v1] r IH]; simpl; [reflexivity|].
    simpl in Hnotin.
    destruct (String.eqb k1 k) eqn:E; simpl.
    - apply String.eqb_eq in E. subst. exfalso. auto.
    - apply IH. intros Hin. auto. }
  rewrite Hnil. destruct (P (k, v0)); simpl; lia.
Qed.

Lemma ledger_ok_new (size : num) (enabled : bool) (thr : num) :
  ledger_ok (new size enabled thr).
Proof. split; [constructor | intros tok p []]. Qed.

Lemma executeBuyOrder_ok (ex : Exchange.t) (now : Z)
    (opp : OddsComparison.Opportunity) (bot : t) :
  ledger_ok bot -> ledger_ok (executeBuyOrder ex now opp bot).
Proof.
  intros [Hwf Hopen]. unfold executeBuyOrder.
  destruct (getOrderbook ex _) as [ob|]; [|split; assumption].
  destruct (first_level (asks ob)) as [ask|]; [|split; assumption].
  destruct (buyContract ex _ _ _) as [res|]; [|split; assumption].
  split; simpl.
  - apply wf_set. assumption.
  - intros tok p Hin. apply in_set in Hin.
    destruct Hin as [[= -> ->]|Hin]; [split; reflexivity | auto].
Qed.

Lemma evaluateOpportunity_ok (ex : Exchange.t) (now : Z)
    (opp : OddsComparison.Opportunity) (bot : t) :
  ledger_ok bot -> ledger_ok (evaluateOpportunity ex now opp bot).
Proof.
  intros H. unfold evaluateOpportunity.
  destruct (JSMap.has _ _); [assumption|].
  destruct (_ >=? _)%num; [assumption|].
  destruct (confident _); [|assumption].
  apply executeBuyOrder_ok. assumption.
Qed.

Lemma sellPosition_ok (ex : Exchange.t) (now : Z) (tok : string)
    (req : option num) (bot : t) :
  ledger_ok bot -> ledger_ok (fst (sellPosition ex now tok req bot)).
Proof.
  intros [Hwf Hopen]. unfold sellPosition.
  destruct (JSMap.get tok (activePositions bot)) as [p|] eqn:Hget;
    [|split; assumption].
  destruct (getOrderbook ex tok) as [ob|]; [|split; assumption].
  destruct (first_level (bids ob)) as [bid|]; [|split; assumption].
  destruct (sellContract ex _ _ _) as [res|]; [|split; assumption].
  cbn [fst]. unfold sold. cbn [amount].
  destruct (amount p - sellAmountOf req p <=? Fin 0)%num eqn:E.
  - split; cbn [activePositions with_ledger].
    + apply wf_delete. assumption.
    + intros tok' p' Hin. apply in_delete in Hin. auto.
  - split; cbn [activePositions with_ledger].
    + apply wf_set. assumption.
    + intros tok' p' Hin. apply in_set in Hin.
      destruct Hin as [[= -> ->]|Hin]; [|auto].
      cbn [status pos_tokenId].
      apply get_in in Hget. apply (Hopen _ _ Hget).
Qed.

Lemma run_ok (ops : list Op) (bot : t) :
  ledger_ok bot -> ledger_ok (run ops bot).
Proof.
  unfold run. revert bot.
  induction ops as [|op ops IH]; intros bot H; simpl; [assumption|].
  apply IH. destruct op; simpl.
  - apply evaluateOpportunity_ok. assumption.
  - apply sellPosition_ok. assumption.
Qed.

(** With no position the total is 0, and the test against the cap lets
    through only caps for which the size of a trade is above 0. *)
Lemma first_trade_size (bot : t) :
  activePositions bot = [] ->
  (getTotalPositionValue bot >=? maxPositionSize bot)%num = false ->
  (positionSize bot <=? Fin 0)%num = false.
Proof.
  unfold getTotalPositionValue, positionSize. intros -> . simpl.
  unfold geb. destruct (maxPositionSize bot) as [m| | |]; simpl;
    try discriminate; try reflexivity.
  intros Hm.
  assert (Hpos : (0 < m)%Q).
  { apply Qnot_le_lt. intros Hle. apply Qle_bool_iff in Hle. congruence. }
  destruct (Qltb 50 (m * (1 # 10))); simpl; [reflexivity|].
  destruct (Qle_bool (m * (1 # 10)) 0) eqn:E; [|reflexivity].
  apply Qle_bool_iff in E. lra.
Qed.

Lemma amounts_ok_new (size : num) (enabled : bool) (thr : num) :
  amounts_ok (new size enabled thr).
Proof. split; [intros tok p [] | intros H; contradiction H; reflexivity]. Qed.

Lemma set_not_nil (V : Type) (m : JSMap.t V) (k : string) (v : V) :
  JSMap.set k v m <> [].
Proof.
  destruct m as [|[k0 v0] r]; simpl; [discriminate|].
  destruct (String.eqb k k0); discriminate.
Qed.

Lemma evaluateOpportunity_amounts (ex : Exchange.t) (now : Z)
    (opp : OddsComparison.Opportunity) (bot : t) :
  amounts_ok bot -> amounts_ok (evaluateOpportunity ex now opp bot).
Proof.
  intros [Hamt Hsize]. unfold evaluateOpportunity.
  destruct (JSMap.has _ _); [split; assumption|].
  destruct (_ >=? _)%num eqn:Hguard; [split; assumption|].
  destruct (confident _); [|split; assumption].
  assert (Hs : (positionSize bot <=? Fin 0)%num = false).
  { destruct (activePositions bot) eqn:E.
    - apply first_trade_size; assumption.
    - apply Hsize. discriminate. }
  unfold executeBuyOrder.
  destruct (getOrderbook ex _) as [ob|]; [|split; assumption].
  destruct (first_level (asks ob)) as [ask|]; [|split; assumption].
  destruct (buyContract ex _ _ _) as [res|]; [|split; assumption].
  split; cbn [activePositions with_ledger].
  - intros tok p Hin. apply in_set in Hin.
    destruct Hin as [[= -> ->]|Hin]; [exact Hs | eauto].
  - intros _. exact Hs.
Qed.

Lemma sellPosition_amounts (ex : Exchange.t) (now : Z) (tok : string)
    (req : option num) (bot : t) :
  amounts_ok bot -> amounts_ok (fst (sellPosition ex now tok req bot)).
Proof.
  intros [Hamt Hsize]. unfold sellPosition.
  destruct (JSMap.get tok (activePositions bot)) as [p|] eqn:Hget;
    [|split; assumption].
  destruct (getOrderbook ex tok) as [ob|]; [|split; assumption].
  destruct (first_level (bids ob)) as [bid|]; [|split; assumption].
  destruct (sellContract ex _ _ _) as [res|]; [|split; assumption].
  cbn [fst].
  assert (Hany : (positionSize bot <=? Fin 0)%num = false).
  { apply Hsize. apply get_in in Hget. intros E. rewrite E in Hget.
    contradiction. }
  split; [|intros _; exact Hany].
  cbn [activePositions with_ledger].
  destruct (amount (sold p (sellAmountOf req p) (level_price bid) now)
            <=? Fin 0)%num eqn:E.
  - intros tok' p' Hin. apply in_delete in Hin. eauto.
  - intros tok' p' Hin. apply in_set in Hin.
    destruct Hin as [[= -> ->]|Hin]; [exact E | eauto].
Qed.

Lemma run_amounts (ops : list Op) (bot : t) :
  amounts_ok bot -> amounts_ok (run ops bot).
Proof.
  unfold run. revert bot.
  induction ops as [|op ops IH]; intros bot H; simpl; [assumption|].
  apply IH. destruct op; simpl.
  - apply evaluateOpportunity_amounts. assumption.
  - apply sellPosition_amounts. assumption.
Qed.

End Ledger.

Section Selling.
Import Exchange TradingBot.

(** C3. [sellPosition(tokenId, amount)]:
    - with no position under the token it fails with the not-found
      error, ledger and history unchanged;
    - with a position and an order book without bid it fails with the
      no-bids error, ledger and history unchanged;
    - with a bid and the sell order accepted it succeeds.  The amount
      sold is the amount asked for, or the whole amount of the position
      when none is given or the one given is 0 or NaN.  One sell entry
      with the amount sold, the bid price and the time is appended to the
      history, in the partial and in the full case.  What remains is the
      amount of the position minus the amount sold: when that is 0 or
      less the token leaves the active set, otherwise the position stays
      under its token with the remaining amount, the sell price and time,
      and its status as before.  So a sale of the whole of a finite
      amount removes the position, and a sale of a positive amount below
      the amount held leaves the position with the difference.  The
      other positions are untouched. *)
Theorem sellPosition_outcomes :
  forall (ex : Exchange.t) (now : Z) (tok : string) (req : option num)
         (bot : t),
    (JSMap.get tok (activePositions bot) = None ->
     sellPosition ex now tok req bot = (bot, Failed (NoActivePosition tok)))
    /\ (forall p ob,
           JSMap.get tok (activePositions bot) = Some p ->
           getOrderbook ex tok = Resolved ob ->
           first_level (bids ob) = None ->
           sellPosition ex now tok req bot = (bot, Failed NoBids))
    /\ (forall p ob bid res sellAmount,
           JSMap.get tok (activePositions bot) = Some p ->
           getOrderbook ex tok = Resolved ob ->
           first_level (bids ob) = Some bid ->
           sellAmount = match req with
                        | Some a => if truthy a then a else amount p
                        | None => amount p
                        end ->
           sellContract ex tok sellAmount (level_price bid) = Resolved res ->
           let remaining := (amount p - sellAmount)%num in
           let bot' := fst (sellPosition ex now tok req bot) in
           snd (sellPosition ex now tok req bot) = Sold res
           /\ tradingHistory bot'
              = tradingHistory bot
                ++ [Sell tok sellAmount (level_price bid) now res]
           /\ (forall tok',
                  JSMap.get tok' (activePositions bot')
                  = if String.eqb tok' tok
                    then (if (remaining <=? Fin 0)%num then None
                          else Some (mkPosition
                                       (pos_tokenId p) (pos_gameKey p)
                                       (pos_gameInfo p) (pos_orderId p)
                                       remaining (pos_price p) (buyTime p)
                                       (pos_valueAnalysis p) (status p)
                                       (Some (level_price bid)) (Some now)))
                    else JSMap.get tok' (activePositions bot))
           /\ (forall a, amount p = Fin a -> sellAmount = amount p ->
                         JSMap.get tok (activePositions bot') = None)
           /\ (forall a s, amount p = Fin a -> sellAmount = Fin s ->
                           (0 < s)%Q -> (s < a)%Q ->
                           exists p', JSMap.get tok (activePositions bot')
                                      = Some p'
                                      /\ amount p' = Fin (a + - s)
                                      /\ status p' = status p)
           /\ maxPositionSize bot' = maxPositionSize bot).
Proof.
  intros ex now tok req bot. unfold sellPosition.
  split; [|split].
  - intros ->. reflexivity.
  - intros p ob -> -> ->. reflexivity.
  - intros p ob bid res sellAmount -> -> -> Hs.
    change (sellAmountOf req p) with
      (match req with
       | Some a => if truthy a then a else amount p
       | None => amount p
       end).
    rewrite <- Hs. intros ->. cbn zeta. cbn [fst snd].
    split; [reflexivity|]. split; [reflexivity|].
    assert (Hget : forall tok',
               JSMap.get tok'
                 (activePositions
                    (with_ledger bot
                       (if (amount (sold p sellAmount (level_price bid) now)
                            <=? Fin 0)%num
                        then JSMap.delete tok (activePositions bot)
                        else JSMap.set tok
                               (sold p sellAmount (level_price bid) now)
                               (activePositions bot))
                       (tradingHistory bot
                        ++ [Sell tok sellAmount (level_price bid) now res])))
               = if String.eqb tok' tok
                 then (if (amount p - sellAmount <=? Fin 0)%num then None
                       else Some (mkPosition
                                    (pos_tokenId p) (pos_gameKey p)
                                    (pos_gameInfo p) (pos_orderId p)
                                    (amount p - sellAmount)%num
                                    (pos_price p) (buyTime p)
                                    (pos_valueAnalysis p) (status p)
                                    (Some (level_price bid)) (Some now)))
                 else JSMap.get tok' (activePositions bot)).
    { intros tok'. cbn [activePositions with_ledger].
      unfold sold. cbn [amount].
      destruct (amount p - sellAmount <=? Fin 0)%num.
      - apply get_delete.
      - apply get_set. }
    split; [exact Hget|]. split; [|split; [|reflexivity]].
    + intros a Ha E. rewrite Hget, String.eqb_refl, E, Ha.
      unfold sub. cbn [neg add leb].
      replace (Qle_bool (a + - a) 0) with true; [reflexivity|].
      symmetry. apply Qle_bool_iff. lra.
    + intros a s Ha E H0 H1. rewrite Hget, String.eqb_refl, E, Ha.
      unfold sub. cbn [neg add leb].
      replace (Qle_bool (a + - s) 0) with false.
      * eexists. split; [reflexivity|]. cbn [amount status]. auto.
      * symmetry. destruct (Qle_bool (a + - s) 0) eqn:K; [|reflexivity].
        apply Qle_bool_iff in K. lra.
Qed.

(** An amount requested above an amount that is not 0 or less is a
    truthy number. *)
Lemma above_positive_truthy (r a : num) :
  (a <=? Fin 0)%num = false -> (r >? a)%num = true -> truthy r = true.
Proof.
  unfold gtb.
  destruct r, a; simpl; try discriminate; try reflexivity.
  intros Ha Hr. apply Qltb_lt in Hr.
  assert (Hpos : (0 < q0)%Q).
  { apply Qnot_le_lt. intros Hle. apply Qle_bool_iff in Hle. congruence. }
  apply negb_true_iff. destruct (Qeq_bool q 0) eqn:E; [|reflexivity].
  apply Qeq_bool_iff in E. lra.
Qed.

Lemma oversell_negative (r a : num) :
  (r >? a)%num = true -> ((a - r) <? Fin 0)%num = true.
Proof.
  unfold gtb, sub. destruct r, a; simpl; try discriminate; try reflexivity.
  rewrite !Qltb_lt. intros H. lra.
Qed.

Lemma ltb_leb (a b : num) : (a <? b)%num = true -> (a <=? b)%num = true.
Proof.
  destruct a, b; simpl; try discriminate; try reflexivity.
  rewrite Qltb_lt, Qle_bool_iff. apply Qlt_le_weak.
Qed.

(** A sell of a non-zero amount above what remains, in any state. *)
Lemma oversell_in_any_state :
  forall (ex : Exchange.t) (now : Z) (tok : string) (r : num) (bot : t)
         (p : Position) (ob : Orderbook) (bid : Level) (res : OrderResult),
    JSMap.get tok (activePositions bot) = Some p ->
    (r >? amount p)%num = true ->
    truthy r = true ->
    getOrderbook ex tok = Resolved ob ->
    first_level (bids ob) = Some bid ->
    sellContract ex tok r (level_price bid) = Resolved res ->
    let bot' := fst (sellPosition ex now tok (Some r) bot) in
    let p' := sold p r (level_price bid) now in
    snd (sellPosition ex now tok (Some r) bot) = Sold res
    /\ tradingHistory bot'
       = tradingHistory bot ++ [Sell tok r (level_price bid) now res]
    /\ amount p' = (amount p - r)%num
    /\ (amount p' <? Fin 0)%num = true
    /\ status p' = StatusClosed
    /\ JSMap.get tok (activePositions bot') = None
    /\ JSMap.has tok (activePositions bot') = false.
Proof.
  intros ex now tok r bot p ob bid res Hget Hgt Htr Hob Hbid Hsell bot' p'.
  pose proof (oversell_negative _ _ Hgt) as Hneg.
  pose proof (ltb_leb _ _ Hneg) as Hle.
  assert (Hs : sellAmountOf (Some r) p = r).
  { unfold sellAmountOf. rewrite Htr. reflexivity. }
  assert (Hrun : sellPosition ex now tok (Some r) bot
                 = (with_ledger bot (JSMap.delete tok (activePositions bot))
                      (tradingHistory bot
                       ++ [Sell tok r (level_price bid) now res]),
                    Sold res)).
  { unfold sellPosition. rewrite Hget, Hob, Hbid, Hs, Hsell.
    unfold sold at 1. cbn [amount]. rewrite Hle. reflexivity. }
  unfold bot', p'. rewrite Hrun. cbn [fst snd tradingHistory with_ledger].
  unfold sold. cbn [amount status]. rewrite Hle.
  cbn [activePositions].
  assert (Hnone : JSMap.get tok (JSMap.delete tok (activePositions bot)) = None).
  { rewrite get_delete, String.eqb_refl. reflexivity. }
  repeat split; try assumption.
  unfold JSMap.has. cbn [activePositions with_ledger].
  rewrite Hnone. reflexivity.
Qed.

(** C10. In any ledger the bot reaches, a sell of an amount [r] above
    what remains of a position, with a bid in the book and the order
    accepted, is neither refused nor cut down: the sell entry appended to
    the history records [r], the amount of the position object becomes
    negative and its status closed, and the position leaves the active
    set. *)
Theorem sellPosition_oversell :
  forall (ops : list Op) (size : num) (enabled : bool) (thr : num)
         (ex : Exchange.t) (now : Z) (tok : string) (r : num)
         (p : Position) (ob : Orderbook) (bid : Level) (res : OrderResult),
    let bot := run ops (new size enabled thr) in
    JSMap.get tok (activePositions bot) = Some p ->
    (r >? amount p)%num = true ->
    getOrderbook ex tok = Resolved ob ->
    first_level (bids ob) = Some bid ->
    sellContract ex tok r (level_price bid) = Resolved res ->
    let bot' := fst (sellPosition ex now tok (Some r) bot) in
    let p' := sold p r (level_price bid) now in
    snd (sellPosition ex now tok (Some r) bot) = Sold res
    /\ tradingHistory bot'
       = tradingHistory bot ++ [Sell tok r (level_price bid) now res]
    /\ amount p' = (amount p - r)%num
    /\ (amount p' <? Fin 0)%num = true
    /\ status p' = StatusClosed
    /\ JSMap.get tok (activePositions bot') = None
    /\ JSMap.has tok (activePositions bot') = false.
Proof.
  intros ops size enabled thr ex now tok r p ob bid res bot Hget Hgt.
  apply oversell_in_any_state; try assumption.
  destruct (run_amounts ops (amounts_ok_new size enabled thr)) as [Hamt _].
  apply get_in in Hget.
  apply (@above_positive_truthy r (amount p) (Hamt _ _ Hget) Hgt).
Qed.

End Selling.

Section LedgerInvariant.
Import Exchange TradingBot.

Lemma executeBuyOrder_other (ex : Exchange.t) (now : Z)
    (opp : OddsComparison.Opportunity) (bot : t) (tok : string) :
  String.eqb tok (OddsComparison.rec_tokenId (OddsComparison.recommendation opp))
  = false ->
  JSMap.get tok (activePositions (executeBuyOrder ex now opp bot))
  = JSMap.get tok (activePositions bot).
Proof.
  intros Hne. unfold executeBuyOrder.
  destruct (getOrderbook ex _) as [ob|]; [|reflexivity].
  destruct (first_level (asks ob)) as [ask|]; [|reflexivity].
  destruct (buyContract ex _ _ _) as [res|]; [|reflexivity].
  cbn [activePositions with_ledger]. rewrite get_set, Hne. reflexivity.
Qed.

Lemma evaluateOpportunity_keeps (ex : Exchange.t) (now : Z)
    (opp : OddsComparison.Opportunity) (bot : t) (tok : string) (p : Position) :
  JSMap.get tok (activePositions bot) = Some p ->
  JSMap.get tok (activePositions (evaluateOpportunity ex now opp bot)) = Some p.
Proof.
  intros Hget. unfold evaluateOpportunity.
  destruct (JSMap.has _ _) eqn:Hhas; [assumption|].
  destruct (_ >=? _)%num; [assumption|].
  destruct (confident _); [|assumption].
  rewrite executeBuyOrder_other; [assumption|].
  destruct (String.eqb tok _) eqn:E; [|reflexivity].
  apply String.eqb_eq in E. subst tok.
  unfold JSMap.has in Hhas. rewrite Hget in Hhas. discriminate.
Qed.

Lemma sellPosition_removes (ex : Exchange.t) (now : Z) (tok : string)
    (req : option num) (bot : t) (p : Position) :
  status p = StatusOpen ->
  JSMap.get tok (activePositions bot) = Some p ->
  (JSMap.get tok (activePositions (fst (sellPosition ex now tok req bot))) = None
   <-> exists ob bid res,
        getOrderbook ex tok = Resolved ob
        /\ first_level (bids ob) = Some bid
        /\ sellContract ex tok (sellAmountOf req p) (level_price bid)
           = Resolved res
        /\ status (sold p (sellAmountOf req p) (level_price bid) now)
           = StatusClosed).
Proof.
  intros Hopen Hget. unfold sellPosition. rewrite Hget.
  destruct (getOrderbook ex tok) as [ob|m].
  2:{ cbn [fst]. rewrite Hget.
      split; [discriminate | intros (? & ? & ? & [=] & _)]. }
  destruct (first_level (bids ob)) as [bid|] eqn:Hbid.
  2:{ cbn [fst]. rewrite Hget.
      split; [discriminate|].
      intros (? & ? & ? & [= <-] & Hb & _).
      rewrite Hbid in Hb. discriminate. }
  destruct (sellContract ex tok _ _) as [res|m] eqn:Hsell.
  2:{ cbn [fst]. rewrite Hget.
      split; [discriminate|].
      intros (? & ? & ? & [= <-] & Hb & Hs & _).
      rewrite Hbid in Hb. injection Hb as <-.
      rewrite Hsell in Hs. discriminate. }
  cbn [fst activePositions with_ledger].
  unfold sold. cbn [amount status]. rewrite Hopen.
  destruct (amount p - sellAmountOf req p <=? Fin 0)%num.
  - rewrite get_delete, String.eqb_refl.
    split; [|reflexivity]. intros _. exists ob, bid, res. auto.
  - rewrite get_set, String.eqb_refl.
    split; [discriminate|].
    intros (? & ? & ? & _ & _ & _ & [=]).
Qed.

(** The ledger after calls taken one after the other. *)
Lemma serialized_ledger :
  forall (ops : list Op) (size : num) (enabled : bool) (thr : num),
    let bot := run ops (new size enabled thr) in
    (forall tok, (List.length (openPositions tok bot) <= 1)%nat)
    /\ (forall tok p,
           In (tok, p) (activePositions bot) -> status p = StatusOpen)
    /\ (forall ex now opp,
           JSMap.has
             (OddsComparison.rec_tokenId (OddsComparison.recommendation opp))
             (activePositions bot) = true ->
           evaluateOpportunity ex now opp bot = bot)
    /\ (forall ex now opp tok p,
           JSMap.get tok (activePositions bot) = Some p ->
           JSMap.get tok
             (activePositions (evaluateOpportunity ex now opp bot)) = Some p)
    /\ (forall ex now tok req p,
           JSMap.get tok (activePositions bot) = Some p ->
           (JSMap.get tok
              (activePositions (fst (sellPosition ex now tok req bot))) = None
            <-> exists ob bid res,
                 getOrderbook ex tok = Resolved ob
                 /\ first_level (bids ob) = Some bid
                 /\ sellContract ex tok (sellAmountOf req p) (level_price bid)
                    = Resolved res
                 /\ status (sold p (sellAmountOf req p) (level_price bid) now)
                    = StatusClosed)).
Proof.
  intros ops size enabled thr bot.
  assert (Hok : ledger_ok bot) by apply run_ok, ledger_ok_new.
  destruct Hok as [Hwf Hopen].
  split; [|split; [|split; [|split]]].
  - intros tok. unfold openPositions. rewrite length_map.
    apply wf_filter_key. assumption.
  - intros tok p Hin. apply (Hopen _ _ Hin).
  - intros ex now opp Hhas. unfold evaluateOpportunity.
    rewrite Hhas. reflexivity.
  - intros ex now opp tok p. apply evaluateOpportunity_keeps.
  - intros ex now tok req p Hget. apply sellPosition_removes; [|assumption].
    apply get_in in Hget. apply (Hopen _ _ Hget).
Qed.

End LedgerInvariant.

(* ------------------------------------------------------------------------- *)
(** ** The auto-sell sweep *)

Section AutoSell.
Import TradingBot.

Lemma hoursHeld_after_two (now : Z) (p : Position) :
  (hoursHeld now p >? Fin 2)%num = (now - buyTime p >? 7200000)%Z.
Proof.
  unfold hoursHeld, of_Z, gtb, div.
  change (Qeq_bool (inject_Z (1000 * 60 * 60)) 0) with false.
  cbn [ltb]. set (held := (now - buyTime p)%Z).
  change (inject_Z (1000 * 60 * 60)) with (inject_Z 3600000).
  rewrite Z.gtb_ltb.
  destruct (Z.ltb_spec 7200000 held) as [H|H].
  - apply Qltb_lt. apply Qlt_shift_div_l; [reflexivity|].
    unfold Qlt. simpl. lia.
  - apply Qltb_ge. apply Qle_shift_div_r; [reflexivity|].
    unfold Qle. simpl. lia.
Qed.

Lemma checkAutoSellConditions_filter (now : Z) (bot : t) :
  checkAutoSellConditions now bot
  = map (fun e : string * Position => (fst e, @None num))
        (filter (fun e => (now - buyTime (snd e) >? 7200000)%Z)
                (activePositions bot)).
Proof.
  unfold checkAutoSellConditions.
  rewrite (fold_append
             (fun (e : string * Position) queued =>
                if (hoursHeld now (snd e) >? Fin 2)%num
                then queued ++ [(fst e, @None num)]
                else queued)
             (fun e : string * Position =>
                if (now - buyTime (snd e) >? 7200000)%Z
                then [(fst e, @None num)] else [])).
  - simpl. induction (activePositions bot) as [|e l IH]; simpl;
      [reflexivity|].
    destruct (now - buyTime (snd e) >? 7200000)%Z; simpl; rewrite IH;
      reflexivity.
  - intros e acc. rewrite hoursHeld_after_two.
    destruct (now - buyTime (snd e) >? 7200000)%Z;
      [reflexivity | rewrite app_nil_r; reflexivity].
Qed.

End AutoSell.

Section DemoChecks.
Import OddsComparison TradingBot.

Example demo_opportunities :
  map (fun o => (rec_tokenId (recommendation o), rec_confidence (recommendation o)))
      (findTradingOpportunities 10 Demo.stores)
  = [("token-3"%string, High); ("token-1"%string, Low)].
Proof. vm_compute. reflexivity. Qed.

Example demo_positions :
  map (fun e : string * Position => (fst e, amount (snd e), buyTime (snd e)))
      (activePositions Demo.bot)
  = [("token-3"%string, Fin (100 # 10), 0%Z)].
Proof. vm_compute. reflexivity. Qed.
End DemoChecks.

Section AutoSellSweep.
Import TradingBot.

(** C7, as stated, fails.  The bot of the sample has the default
    configured threshold 0.1 and one position bought at time 0; one hour
    later the position has been held beyond the configured threshold,
    and the sweep queues nothing. *)
Lemma autoSell_ignores_configured_threshold :
  autoSellThreshold Demo.bot = Fin (1 # 10)
  /\ (exists p,
         activePositions Demo.bot = [("token-3"%string, p)]
         /\ eqn (hoursHeld 3600000 p) (Fin 1)
         /\ (hoursHeld 3600000 p >? autoSellThreshold Demo.bot)%num = true)
  /\ checkAutoSellConditions 3600000 Demo.bot = [].
Proof.
  split; [reflexivity|]. split; [|vm_compute; reflexivity].
  eexists. split; [vm_compute; reflexivity|].
  split; vm_compute; reflexivity.
Qed.

(** C7, amended.  The sweep calls [sellPosition(tokenId)], with no amount
    and hence for the whole position, for exactly the positions held for
    more than two hours, in the order of the active set: two hours is a
    constant of the sweep, and the configured auto-sell threshold is not
    read.  A position entered three hours ago is held for more than two
    hours, one entered an hour ago is not. *)
Theorem autoSell_after_two_hours :
  forall (now : Z) (bot : t),
    checkAutoSellConditions now bot
    = map (fun e : string * Position => (fst e, @None num))
          (filter (fun e => (hoursHeld now (snd e) >? Fin 2)%num)
                  (activePositions bot))
    /\ (forall p,
           (hoursHeld now p >? Fin 2)%num
           = (now - buyTime p >? 2 * 60 * 60 * 1000)%Z)
    /\ (forall p, sellAmountOf None p = amount p)
    /\ (forall thr,
           checkAutoSellConditions now
             (mkBot (activePositions bot) (tradingHistory bot)
                    (maxPositionSize bot) (autoSellEnabled bot) thr)
           = checkAutoSellConditions now bot)
    /\ (forall p,
           ((buyTime p = now - 3 * 60 * 60 * 1000)%Z ->
            (hoursHeld now p >? Fin 2)%num = true)
           /\ ((buyTime p = now - 1 * 60 * 60 * 1000)%Z ->
               (hoursHeld now p >? Fin 2)%num = false)).
Proof.
  intros now bot.
  split; [|split; [|split; [|split]]].
  - rewrite checkAutoSellConditions_filter. f_equal.
    apply filter_ext. intros e. symmetry. apply hoursHeld_after_two.
  - intros p. apply hoursHeld_after_two.
  - reflexivity.
  - reflexivity.
  - intros p. rewrite hoursHeld_after_two.
    split; intros ->.
    + apply Z.gtb_lt. lia.
    + rewrite Z.gtb_ltb. apply Z.ltb_ge. lia.
Qed.

Lemma autoSell_after_two_hours_witness :
  exists p,
    activePositions Demo.bot = [("token-3"%string, p)]
    /\ (buyTime p = 10800000 - 3 * 60 * 60 * 1000)%Z
    /\ (hoursHeld 10800000 p >? Fin 2)%num = true
    /\ checkAutoSellConditions 10800000 Demo.bot = [("token-3"%string, None)].
Proof.
  eexists. split; [vm_compute; reflexivity|].
  split; [reflexivity|].
  destruct (autoSell_after_two_hours 10800000 Demo.bot) as (_ & _ & _ & _ & H).
  split; [apply H; reflexivity | vm_compute; reflexivity].
Defined.

End AutoSellSweep.

(* ------------------------------------------------------------------------- *)
(** ** Reconnection *)

Section Reconnection.
Import BoltOddsClient.
Open Scope Z_scope.







(** The ten delays of the default configuration, and silence after them. *)
Example default_backoff :
  let ten := repeat SocketClosed 10 in
  timers (steps ten new)
  = [5000; 10000; 20000; 40000; 80000; 160000; 320000; 640000; 1280000;
     2560000]
  /\ steps (ten ++ [SocketClosed; Connect true]) new = steps ten new.
Proof. split; vm_compute; reflexivity. Qed.

End Reconnection.

(* ------------------------------------------------------------------------- *)
(** ** The theorems at the sample data *)

Section Witnesses.
Import OddsComparison Exchange TradingBot.

Lemma sellPosition_oversell_witness :
  exists p,
    JSMap.get "token-3" (activePositions Demo.bot) = Some p
    /\ (Fin 25 >? amount p)%num = true
    /\ JSMap.get "token-3"
         (activePositions
            (fst (sellPosition Demo.exchange 50 "token-3" (Some (Fin 25))
                               Demo.bot)))
       = None
    /\ tradingHistory
         (fst (sellPosition Demo.exchange 50 "token-3" (Some (Fin 25))
                            Demo.bot))
       = tradingHistory Demo.bot
         ++ [Sell "token-3" (Fin 25) (Fin (29 # 100)) 50
                  (mkOrderResult "sell-1")].
Proof.
  eexists.
  match goal with
  | |- ?G /\ _ => assert (Hget : G) by (vm_compute; reflexivity)
  end.
  split; [exact Hget|].
  match goal with
  | |- ?G /\ _ => assert (Hgt : G) by reflexivity
  end.
  split; [exact Hgt|].
  destruct (@sellPosition_oversell Demo.firstOps (Fin 100) true (Fin (1 # 10))
              Demo.exchange 50 "token-3" (Fin 25) _ Demo.book
              (mkLevel (Fin (29 # 100))) (mkOrderResult "sell-1")
              Hget Hgt eq_refl eq_refl eq_refl)
    as (_ & Hhist & _ & _ & _ & Hgone & _).
  split; [exact Hgone | exact Hhist].
Defined.

Lemma sellPosition_outcomes_witness :
  let part := fst (sellPosition Demo.exchange 50 "token-3" (Some (Fin 4))
                                Demo.bot) in
  let whole := fst (sellPosition Demo.exchange 50 "token-3" None Demo.bot) in
  sellPosition Demo.exchange 50 "token-9" None Demo.bot
  = (Demo.bot, Failed (NoActivePosition "token-9"))
  /\ sellPosition Demo.exchangeNoBids 50 "token-3" None Demo.bot
     = (Demo.bot, Failed NoBids)
  /\ (exists p p',
         JSMap.get "token-3" (activePositions Demo.bot) = Some p
         /\ amount p = Fin (100 # 10)
         /\ JSMap.get "token-3" (activePositions part) = Some p'
         /\ amount p' = Fin ((100 # 10) + - 4)
         /\ eqn (amount p') (Fin 6)
         /\ status p' = StatusOpen)
  /\ tradingHistory part
     = tradingHistory Demo.bot
       ++ [Sell "token-3" (Fin 4) (Fin (29 # 100)) 50
                (mkOrderResult "sell-1")]
  /\ JSMap.get "token-3" (activePositions whole) = None
  /\ tradingHistory whole
     = tradingHistory Demo.bot
       ++ [Sell "token-3" (Fin (100 # 10)) (Fin (29 # 100)) 50
                (mkOrderResult "sell-1")].
Proof.
  intros part whole.
  destruct (sellPosition_outcomes Demo.exchange 50 "token-9" None Demo.bot)
    as (Hnone & _ & _).
  destruct (sellPosition_outcomes Demo.exchangeNoBids 50 "token-3" None
                                  Demo.bot)
    as (_ & Hnobid & _).
  destruct (sellPosition_outcomes Demo.exchange 50 "token-3" (Some (Fin 4))
                                  Demo.bot)
    as (_ & _ & Hpart).
  destruct (sellPosition_outcomes Demo.exchange 50 "token-3" None Demo.bot)
    as (_ & _ & Hwhole).
  assert (Hget : exists p, JSMap.get "token-3" (activePositions Demo.bot)
                           = Some p /\ amount p = Fin (100 # 10)
                           /\ status p = StatusOpen)
    by (eexists; vm_compute; auto).
  destruct Hget as (p & Hget & Hamt & Hst).
  destruct (Hpart p Demo.book (mkLevel (Fin (29 # 100)))
              (mkOrderResult "sell-1") (Fin 4) Hget eq_refl eq_refl
              eq_refl eq_refl)
    as (_ & Hhist & _ & _ & Hstays & _).
  destruct (Hwhole p Demo.book (mkLevel (Fin (29 # 100)))
              (mkOrderResult "sell-1") (amount p) Hget eq_refl eq_refl
              eq_refl eq_refl)
    as (_ & Hhist' & _ & Hgone & _).
  destruct (Hstays (100 # 10)%Q 4%Q Hamt eq_refl eq_refl eq_refl)
    as (p' & Hget' & Hamt' & Hst').
  split; [apply Hnone; vm_compute; reflexivity|].
  split; [apply (Hnobid _ _ Hget eq_refl eq_refl)|].
  split.
  { exists p, p'. rewrite <- Hst.
    repeat (split; [assumption|]). split; [|assumption].
    rewrite Hamt'. reflexivity. }
  split; [exact Hhist|].
  split; [apply (Hgone (100 # 10)%Q Hamt eq_refl)|].
  rewrite <- Hamt. exact Hhist'.
Defined.

End Witnesses.

(* ------------------------------------------------------------------------- *)
(** ** The ledger between the awaits *)

Section InterleavedInvariant.
Import Exchange TradingBot Interleaved.

Lemma nth_error_assign (l : list Position) (ref i : nat) (p : Position) :
  nth_error (assign ref p l) i
  = if Nat.eqb i ref
    then match nth_error l ref with Some _ => Some p | None => None end
    else nth_error l i.
Proof.
  revert ref i. induction l as [|x l IH]; intros ref i; simpl.
  - destruct (Nat.eqb i ref); destruct ref, i; reflexivity.
  - destruct ref as [|ref], i as [|i]; simpl; try reflexivity.
    apply IH.
Qed.

Lemma nth_error_grow (l : list Position) (p q : Position) (i : nat) :
  nth_error l i = Some q -> nth_error (l ++ [p]) i = Some q.
Proof.
  intros H. rewrite nth_error_app1; [assumption|].
  apply nth_error_Some. congruence.
Qed.

Lemma without_incl (i : nat) (l : list Task) (task : Task) :
  In task (without i l) -> In task l.
Proof.
  unfold without. intros H. apply in_app_or in H.
  destruct H as [H|H].
  - apply (In_nth_error) in H. destruct H as [n Hn].
    rewrite <- (firstn_skipn i l). apply in_or_app. left.
    apply nth_error_In in Hn. assumption.
  - rewrite <- (firstn_skipn (S i) l). apply in_or_app. right. assumption.
Qed.

Lemma Forall_without (P : Task -> Prop) (i : nat) (l : list Task) :
  Forall P l -> Forall P (without i l).
Proof.
  rewrite !Forall_forall. intros H task Hin.
  apply H, (without_incl i). assumption.
Qed.

(** Steps that only add a pending call. *)
Lemma startSell_ok (tok : string) (req : option num) (st : t) (task : Task) :
  state_ok st -> startSell tok req st = inr task -> task_ok st task.
Proof.
  intros [_ Hent]. unfold startSell.
  destruct (JSMap.get tok (active st)) as [ref|] eqn:Hget; [|discriminate].
  destruct (deref st ref) as [p|] eqn:Hp; [|discriminate].
  intros [= <-]. simpl.
  apply get_in in Hget. rewrite Forall_forall in Hent.
  destruct (Hent _ Hget) as (q & Hq & _ & Htok). simpl in Hq, Htok.
  exists q. auto.
Qed.

Lemma sellAfterBook_ok (tok : string) (ref : nat) (s : num)
    (answer : Response Orderbook) (st : t) (task : Task) :
  task_ok st (SellAwaitsBook tok ref s) ->
  sellAfterBook tok ref s answer = inr task -> task_ok st task.
Proof.
  intros H. unfold sellAfterBook.
  destruct answer as [ob|]; [|discriminate].
  destruct (first_level (bids ob)); [|discriminate].
  intros [= <-]. exact H.
Qed.

Lemma buyAfterBook_ok (opp : OddsComparison.Opportunity) (size : num)
    (answer : Response Orderbook) (st : t) (task : Task) :
  buyAfterBook opp size answer = Some task -> task_ok st task.
Proof.
  unfold buyAfterBook.
  destruct answer as [ob|]; [|discriminate].
  destruct (first_level (asks ob)); [|discriminate].
  intros [= <-]. exact I.
Qed.

Lemma startEvaluate_ok (opp : OddsComparison.Opportunity) (st : t) (task : Task) :
  startEvaluate opp st = Some task -> task_ok st task.
Proof.
  unfold startEvaluate.
  destruct (JSMap.has _ _); [discriminate|].
  destruct (_ >=? _)%num; [discriminate|].
  destruct (confident _); [|discriminate].
  intros [= <-]. exact I.
Qed.

(** A buy that completes adds an object and points the Map at it. *)
Lemma buyAfterOrder_ok (now : Z) (opp : OddsComparison.Opportunity) (size : num)
    (ask : Level) (answer : Response OrderResult) (c : Config) :
  config_ok c ->
  let st' := buyAfterOrder now opp size ask answer (state c) in
  state_ok st' /\ Forall (task_ok st') (pending c).
Proof.
  intros [[Hwf Hent] Htasks]. unfold buyAfterOrder.
  destruct answer as [res|]; [|repeat split; assumption].
  cbn zeta. split; [split|]; cbn [active objects].
  - apply wf_set. assumption.
  - apply Forall_forall. intros [k r] Hin.
    apply in_set in Hin. destruct Hin as [[= -> ->]|Hin].
    + eexists. unfold deref. cbn [objects snd fst].
      rewrite nth_error_app2, Nat.sub_diag by lia. simpl.
      repeat split.
    + rewrite Forall_forall in Hent.
      destruct (Hent _ Hin) as (q & Hq & Hopen & Htok).
      exists q. unfold deref in *. cbn [objects snd fst] in *.
      split; [apply nth_error_grow; assumption | auto].
  - eapply Forall_impl; [|exact Htasks].
    intros task Hok. destruct task; simpl in *; auto;
      destruct Hok as (q & Hq & Htok); exists q; unfold deref in *;
      cbn [objects]; (split; [apply nth_error_grow; assumption | auto]).
Qed.

(** A sell that completes updates the object it holds and, when the
    object is closed, deletes the entry of the token. *)
Lemma sellAfterOrder_ok (now : Z) (tok : string) (ref : nat) (s : num)
    (bid : Level) (answer : Response OrderResult) (c : Config) :
  config_ok c ->
  task_ok (state c) (SellAwaitsOrder tok ref s bid) ->
  let st' := fst (sellAfterOrder now tok ref s bid answer (state c)) in
  state_ok st' /\ Forall (task_ok st') (pending c).
Proof.
  intros [[Hwf Hent] Htasks] (p & Hp & Htok). unfold sellAfterOrder.
  destruct answer as [res|]; [|repeat split; assumption].
  rewrite Hp. cbn zeta. cbn [fst]. unfold deref in Hp.
  assert (Hderef : forall i q,
             deref (state c) i = Some q ->
             exists q',
               nth_error (assign ref (sold p s (level_price bid) now)
                                 (objects (state c))) i = Some q'
               /\ pos_tokenId q' = pos_tokenId q
               /\ (i <> ref -> q' = q)).
  { intros i q Hq. unfold deref in Hq. rewrite nth_error_assign.
    destruct (Nat.eqb_spec i ref) as [->|Hne].
    - rewrite Hp. eexists. split; [reflexivity|].
      split; [|congruence].
      assert (q = p) by congruence. subst q. reflexivity.
    - exists q. auto. }
  rewrite Forall_forall in Hent.
  set (p' := sold p s (level_price bid) now) in *.
  assert (Hp' : status p' = (if (amount p' <=? Fin 0)%num then StatusClosed
                             else status p)
                /\ pos_tokenId p' = pos_tokenId p) by (split; reflexivity).
  destruct Hp' as [Hstatus Htok'].
  split; [split|]; cbn [active objects].
  - destruct (_ <=? _)%num; [apply wf_delete|]; assumption.
  - apply Forall_forall. intros [k r] Hin.
    unfold entry_ok, deref. cbn [objects snd fst].
    destruct (amount p' <=? Fin 0)%num eqn:E.
    + assert (Hk : String.eqb tok k = false).
      { unfold JSMap.delete in Hin. apply filter_In in Hin.
        destruct Hin as [_ Hin]. apply negb_true_iff in Hin. exact Hin. }
      apply in_delete in Hin.
      destruct (Hent _ Hin) as (q & Hq & Hopen & Hqtok).
      cbn [snd fst] in *.
      destruct (Hderef _ _ Hq) as (q' & Hq' & _ & Hsame).
      assert (Hne : r <> ref).
      { intros ->. unfold deref in Hq.
        assert (q = p) by congruence. subst q.
        rewrite Htok in Hqtok. subst k.
        rewrite String.eqb_refl in Hk. discriminate. }
      rewrite (Hsame Hne) in Hq'. exists q. auto.
    + destruct (Hent _ Hin) as (q & Hq & Hopen & Hqtok).
      cbn [snd fst] in *.
      rewrite nth_error_assign.
      destruct (Nat.eqb_spec r ref) as [->|Hne].
      * rewrite Hp. exists p'. split; [reflexivity|].
        unfold deref in Hq.
        assert (q = p) by congruence. subst q.
        rewrite Hstatus, Htok'. auto.
      * exists q. auto.
  - eapply Forall_impl; [|exact Htasks].
    intros task Hok. destruct task; simpl in *; auto;
      destruct Hok as (q & Hq & Hqtok);
      destruct (Hderef _ _ Hq) as (q' & Hq' & Hqtok' & _);
      exists q'; unfold deref; cbn [objects]; (split; [assumption | congruence]).
Qed.

Lemma Forall_spawn (P : Task -> Prop) (l : list Task) (o : option Task) :
  Forall P l -> (forall task, o = Some task -> P task) ->
  Forall P (l ++ spawn o).
Proof.
  intros Hl Ho. apply Forall_app. split; [assumption|].
  destruct o as [task|]; simpl; [|constructor].
  constructor; [auto | constructor].
Qed.

Lemma act_ok (c : Config) (a : Action) : config_ok c -> config_ok (act c a).
Proof.
  intros Hc. pose proof Hc as [Hst Htasks].
  destruct a as [opp | tok req | i answer | i now answer]; cbn [act].
  - split; [assumption|]. cbn [state pending].
    apply Forall_spawn; [assumption|].
    intros task. apply startEvaluate_ok.
  - split; [assumption|]. cbn [state pending].
    apply Forall_spawn; [assumption|].
    intros task. destruct (startSell tok req (state c)) eqn:E; simpl;
      [discriminate|].
    intros [= <-]. apply (startSell_ok tok req Hst E).
  - destruct (nth_error (pending c) i) as [task|] eqn:Hi; [|assumption].
    assert (Hok : task_ok (state c) task).
    { rewrite Forall_forall in Htasks. apply Htasks.
      apply (nth_error_In _ _ Hi). }
    destruct task; try assumption; split; try assumption; cbn [state pending];
      (apply Forall_spawn; [apply Forall_without; assumption|]); intros task.
    + apply buyAfterBook_ok.
    + destruct (sellAfterBook _ _ _ _) eqn:E; simpl; [discriminate|].
      intros [= <-]. apply (sellAfterBook_ok _ Hok E).
  - destruct (nth_error (pending c) i) as [task|] eqn:Hi; [|assumption].
    assert (Hok : task_ok (state c) task).
    { rewrite Forall_forall in Htasks. apply Htasks.
      apply (nth_error_In _ _ Hi). }
    destruct task; try assumption.
    + destruct (buyAfterOrder_ok now opportunity size bestAsk answer Hc)
        as [H1 H2].
      split; [exact H1|]. apply Forall_without. exact H2.
    + destruct (sellAfterOrder_ok now answer Hc Hok) as [H1 H2].
      split; [exact H1|]. apply Forall_without. exact H2.
Qed.

Lemma play_ok (actions : list Action) (c : Config) :
  config_ok c -> config_ok (play actions c).
Proof.
  unfold play. revert c.
  induction actions as [|a actions IH]; intros c Hc; simpl; [assumption|].
  apply IH, act_ok, Hc.
Qed.

Lemma init_ok (size : num) (enabled : bool) (limit : num) :
  config_ok (mkConfig (init size enabled limit) []).
Proof. repeat split; constructor. Qed.

(** Under the invariant the view is the Map with each reference replaced
    by its object. *)
Lemma entries_resolved (st : t) :
  state_ok st ->
  JSMap.keys (entries st) = JSMap.keys (active st)
  /\ forall tok p,
       In (tok, p) (entries st)
       <-> exists ref, In (tok, ref) (active st) /\ deref st ref = Some p.
Proof.
  intros [_ Hent]. unfold entries, resolve, entry_ok, deref in *.
  unfold JSMap.keys.
  induction (active st) as [|[k r] m IH]; simpl.
  - split; [reflexivity|]. intros tok p.
    split; [intros [] | intros [ref [[] _]]].
  - inversion Hent as [|? ? (q & Hq & _) Hm]; subst.
    cbn [snd fst] in *. rewrite Hq. simpl.
    destruct (IH Hm) as [IHk IHin]. split; [f_equal; exact IHk|].
    intros tok p. rewrite IHin. split.
    + intros [[= -> ->] | (ref & Hin & Hp)]; eauto.
    + intros (ref & [[= -> ->] | Hin] & Hp); [left; congruence | eauto].
Qed.

Lemma view_ok (st : t) : state_ok st -> ledger_ok (view st).
Proof.
  intros Hst. destruct (entries_resolved Hst) as [Hkeys Hin].
  destruct Hst as [Hwf Hent]. split; cbn [view activePositions].
  - unfold JSMap.wf. rewrite Hkeys. exact Hwf.
  - intros tok p Hp. apply Hin in Hp. destruct Hp as (ref & Hr & Hp).
    rewrite Forall_forall in Hent.
    destruct (Hent _ Hr) as (q & Hq & Hopen & Htok). cbn [snd fst] in *.
    assert (q = p) by congruence. subst q. auto.
Qed.

(** Whatever the order in which calls are made and answered, the active
    set never holds two positions for one token, and holds open positions
    only. *)
Lemma interleaved_ledger :
  forall (actions : list Action) (size : num) (enabled : bool) (limit : num)
         (tok : string),
    let bot :=
      view (state (play actions (mkConfig (init size enabled limit) []))) in
    (List.length (openPositions tok bot) <= 1)%nat
    /\ forall p, In (tok, p) (activePositions bot) -> status p = StatusOpen.
Proof.
  intros actions size enabled limit tok bot.
  assert (Hok : ledger_ok bot).
  { apply view_ok. apply (play_ok actions (init_ok size enabled limit)). }
  destruct Hok as [Hwf Hopen]. split.
  - unfold openPositions. rewrite length_map.
    apply wf_filter_key. assumption.
  - intros p Hin. apply (Hopen _ _ Hin).
Qed.

End InterleavedInvariant.

(* ------------------------------------------------------------------------- *)
(** ** Calls made one after the other

    When a call is answered before any other call is made, the cut-up
    methods do what [TradingBot.evaluateOpportunity] and
    [TradingBot.sellPosition] do on the view. *)

Section Serialized.
Import Exchange TradingBot Interleaved.

Lemma state_ok_tied (st : t) :
  state_ok st -> Forall (tied (objects st)) (active st).
Proof.
  intros [_ H]. eapply Forall_impl; [|exact H].
  intros e (p & Hp & _ & Htok). exists p. auto.
Qed.

Lemma get_resolve (objs : list Position) (m : JSMap.t nat) (tok : string) :
  Forall (tied objs) m ->
  JSMap.get tok (resolve objs m)
  = match JSMap.get tok m with
    | Some ref => nth_error objs ref
    | None => None
    end.
Proof.
  unfold resolve. induction m as [|[k r] m IH]; intros H; simpl;
    [reflexivity|].
  inversion H as [|? ? (q & Hq & _) Hm]; subst. cbn [snd fst] in *.
  rewrite Hq. simpl. destruct (String.eqb tok k); [congruence | auto].
Qed.

Lemma resolve_grow (objs : list Position) (m : JSMap.t nat) (p : Position) :
  Forall (tied objs) m -> resolve (objs ++ [p]) m = resolve objs m.
Proof.
  unfold resolve. induction m as [|[k r] m IH]; intros H; simpl;
    [reflexivity|].
  inversion H as [|? ? (q & Hq & _) Hm]; subst. cbn [snd fst] in *.
  rewrite (nth_error_grow _ p _ Hq), Hq, IH by assumption. reflexivity.
Qed.

Lemma resolve_set_new (objs : list Position) (m : JSMap.t nat) (tok : string)
    (p : Position) :
  Forall (tied objs) m ->
  resolve (objs ++ [p]) (JSMap.set tok (List.length objs) m)
  = JSMap.set tok p (resolve objs m).
Proof.
  unfold resolve. induction m as [|[k r] m IH]; intros H; simpl.
  - rewrite nth_error_app2, Nat.sub_diag by lia. reflexivity.
  - inversion H as [|? ? (q & Hq & _) Hm]; subst. cbn [snd fst] in *.
    rewrite Hq. simpl. destruct (String.eqb tok k); simpl.
    + rewrite nth_error_app2, Nat.sub_diag by lia. simpl. f_equal.
      apply (resolve_grow p Hm).
    + rewrite (nth_error_grow _ p _ Hq), IH by assumption. reflexivity.
Qed.

(** Entries of other tokens refer to other objects. *)
Lemma tied_other (objs : list Position) (e : string * nat) (ref : nat)
    (p : Position) (tok : string) :
  tied objs e -> nth_error objs ref = Some p -> pos_tokenId p = tok ->
  String.eqb tok (fst e) = false -> snd e <> ref.
Proof.
  intros (q & Hq & Hqtok) Hp Htok Hne Heq. rewrite Heq in Hq.
  assert (q = p) by congruence. subst q.
  rewrite <- Hqtok, Htok, String.eqb_refl in Hne. discriminate.
Qed.

Lemma resolve_assign_other (objs : list Position) (m : JSMap.t nat) (ref : nat)
    (p' : Position) :
  Forall (fun e => snd e <> ref) m ->
  resolve (assign ref p' objs) m = resolve objs m.
Proof.
  unfold resolve. induction m as [|[k r] m IH]; intros H; simpl;
    [reflexivity|].
  inversion H as [|? ? Hr Hm]; subst. cbn [snd] in Hr.
  rewrite nth_error_assign.
  destruct (Nat.eqb_spec r ref); [contradiction|].
  rewrite IH by assumption. reflexivity.
Qed.

Lemma resolve_assign_delete (objs : list Position) (m : JSMap.t nat)
    (ref : nat) (p p' : Position) (tok : string) :
  Forall (tied objs) m ->
  nth_error objs ref = Some p -> pos_tokenId p = tok ->
  resolve (assign ref p' objs) (JSMap.delete tok m)
  = JSMap.delete tok (resolve objs m).
Proof.
  intros H Hp Htok. unfold resolve, JSMap.delete.
  induction m as [|[k r] m IH]; simpl; [reflexivity|].
  inversion H as [|? ? Hkr Hm]; subst.
  pose proof Hkr as (q & Hq & _). cbn [snd fst] in *.
  rewrite Hq. simpl.
  destruct (String.eqb (pos_tokenId p) k) eqn:E; simpl; [auto|].
  rewrite nth_error_assign.
  destruct (Nat.eqb_spec r ref) as [Heq|Hne].
  - exfalso. apply (tied_other Hkr Hp eq_refl E Heq).
  - rewrite Hq, IH by assumption. reflexivity.
Qed.

Lemma resolve_assign_set (objs : list Position) (m : JSMap.t nat)
    (ref : nat) (p p' : Position) (tok : string) :
  JSMap.wf m -> Forall (tied objs) m ->
  JSMap.get tok m = Some ref ->
  nth_error objs ref = Some p -> pos_tokenId p = tok ->
  resolve (assign ref p' objs) m = JSMap.set tok p' (resolve objs m).
Proof.
  intros Hwf H Hget Hp Htok. unfold JSMap.wf in Hwf.
  induction m as [|[k r] m IH]; simpl in *; [discriminate|].
  inversion H as [|? ? Hkr Hm]; subst.
  inversion Hwf as [|? ? Hnotin Hwf']; subst.
  pose proof Hkr as (q & Hq & _). cbn [snd fst] in *.
  unfold resolve. cbn [flat_map snd fst]. fold (resolve objs m).
  fold (resolve (assign ref p' objs) m).
  rewrite Hq. simpl.
  destruct (String.eqb (pos_tokenId p) k) eqn:E.
  - injection Hget as ->. rewrite nth_error_assign, Nat.eqb_refl, Hp.
    apply String.eqb_eq in E. subst k.
    simpl. f_equal.
    apply resolve_assign_other.
    apply Forall_forall. intros e He.
    rewrite Forall_forall in Hm.
    apply (tied_other (Hm _ He) Hp eq_refl).
    destruct (String.eqb (pos_tokenId p) (fst e)) eqn:E'; [|reflexivity].
    apply String.eqb_eq in E'. exfalso. apply Hnotin.
    rewrite E'. apply in_map. assumption.
  - rewrite nth_error_assign.
    destruct (Nat.eqb_spec r ref) as [Heq|Hne].
    + exfalso. apply (tied_other Hkr Hp eq_refl E Heq).
    + rewrite Hq. simpl. f_equal. apply IH; assumption.
Qed.

Lemma has_resolve (st : t) (tok : string) :
  state_ok st ->
  JSMap.has tok (entries st) = JSMap.has tok (active st).
Proof.
  intros Hst. pose proof (state_ok_tied Hst) as Htied.
  unfold JSMap.has, entries. rewrite (get_resolve tok Htied).
  destruct (JSMap.get tok (active st)) as [ref|] eqn:Hget; [|reflexivity].
  apply get_in in Hget. rewrite Forall_forall in Htied.
  destruct (Htied _ Hget) as (q & Hq & _). cbn [snd] in Hq.
  rewrite Hq. reflexivity.
Qed.

(** [evaluateOpportunity] answered at once. *)
Lemma evaluateAlone_view (ex : Exchange.t) (now : Z)
    (opp : OddsComparison.Opportunity) (st : t) :
  state_ok st ->
  view (evaluateAlone ex now opp st)
  = evaluateOpportunity ex now opp (view st).
Proof.
  intros Hst. unfold evaluateAlone, startEvaluate, evaluateOpportunity.
  fold (tokenOf opp).
  change (activePositions (view st)) with (entries st).
  rewrite (has_resolve _ Hst).
  destruct (JSMap.has (tokenOf opp) (active st)); [reflexivity|].
  change (maxPositionSize (view st)) with (maxSize st).
  destruct (_ >=? _)%num; [reflexivity|].
  destruct (confident _); [|reflexivity].
  unfold buyAfterBook, executeBuyOrder. fold (tokenOf opp).
  destruct (getOrderbook ex (tokenOf opp)) as [ob|]; [|reflexivity].
  destruct (first_level (asks ob)) as [ask|]; [|reflexivity].
  unfold buyAfterOrder.
  destruct (buyContract ex _ _ _) as [res|]; [|reflexivity].
  unfold view, with_ledger, entries. cbn [objects active history maxSize
    autoSell autoSellLimit activePositions tradingHistory maxPositionSize
    autoSellEnabled autoSellThreshold].
  rewrite (resolve_set_new _ _ (state_ok_tied Hst)). reflexivity.
Qed.

(** [sellPosition] answered at once. *)
Lemma sellAlone_view (ex : Exchange.t) (now : Z) (tok : string)
    (req : option num) (st : t) :
  state_ok st ->
  (view (fst (sellAlone ex now tok req st)), snd (sellAlone ex now tok req st))
  = sellPosition ex now tok req (view st).
Proof.
  intros Hst. pose proof (state_ok_tied Hst) as Htied.
  unfold sellAlone, startSell, sellPosition.
  change (activePositions (view st)) with (entries st).
  unfold entries at 1. rewrite (get_resolve tok Htied).
  destruct (JSMap.get tok (active st)) as [ref|] eqn:Hget; [|reflexivity].
  unfold deref.
  destruct (nth_error (objects st) ref) as [p|] eqn:Hp; [|reflexivity].
  assert (Htok : pos_tokenId p = tok).
  { apply get_in in Hget. rewrite Forall_forall in Htied.
    destruct (Htied _ Hget) as (q & Hq & Hqtok). cbn [snd fst] in *.
    congruence. }
  unfold sellAfterBook.
  destruct (getOrderbook ex tok) as [ob|]; [|reflexivity].
  destruct (first_level (bids ob)) as [bid|]; [|reflexivity].
  unfold sellAfterOrder.
  destruct (sellContract ex tok _ _) as [res|]; [|reflexivity].
  unfold deref. rewrite Hp. cbn [fst snd].
  set (p' := sold p (sellAmountOf req p) (level_price bid) now).
  unfold view, with_ledger, entries. cbn [objects active history maxSize
    autoSell autoSellLimit activePositions tradingHistory maxPositionSize
    autoSellEnabled autoSellThreshold].
  destruct Hst as [Hwf _].
  destruct (amount p' <=? Fin 0)%num.
  - rewrite (@resolve_assign_delete _ _ ref p p' tok Htied Hp Htok).
    reflexivity.
  - rewrite (@resolve_assign_set _ _ ref p p' tok Hwf Htied Hget Hp Htok).
    reflexivity.
Qed.

(** A call answered at once is one of the schedules: the call, the answer
    to its order-book request, the answer to its order. *)
Lemma evaluateAlone_schedule (ex : Exchange.t) (now : Z)
    (opp : OddsComparison.Opportunity) (st : t) :
  exists actions,
    play actions (mkConfig st []) = mkConfig (evaluateAlone ex now opp st) [].
Proof.
  unfold evaluateAlone.
  destruct (startEvaluate opp st) as [[o size | | | ]|] eqn:Hstart;
    try (unfold startEvaluate in Hstart;
         destruct (JSMap.has _ _); [discriminate|];
         destruct (_ >=? _)%num; [discriminate|];
         destruct (confident _); discriminate).
  - destruct (buyAfterBook o size (getOrderbook ex (tokenOf o)))
      as [[ | o' size' ask | | ]|] eqn:Hbook;
      try (unfold buyAfterBook in Hbook;
           destruct (getOrderbook ex (tokenOf o)) as [ob|]; [|discriminate];
           destruct (first_level (asks ob)); discriminate).
    + exists [CallEvaluate opp; AnswerBook 0 (getOrderbook ex (tokenOf o));
              AnswerOrder 0 now
                (buyContract ex (tokenOf o') size' (level_price ask))].
      unfold play. simpl. rewrite Hstart. simpl. rewrite Hbook. reflexivity.
    + exists [CallEvaluate opp; AnswerBook 0 (getOrderbook ex (tokenOf o))].
      unfold play. simpl. rewrite Hstart. simpl. rewrite Hbook. reflexivity.
  - exists [CallEvaluate opp]. unfold play. simpl. rewrite Hstart. reflexivity.
Qed.

Lemma sellAlone_schedule (ex : Exchange.t) (now : Z) (tok : string)
    (req : option num) (st : t) :
  exists actions,
    play actions (mkConfig st [])
    = mkConfig (fst (sellAlone ex now tok req st)) [].
Proof.
  unfold sellAlone.
  destruct (startSell tok req st) as [e | [ | | tok1 ref s | ]] eqn:Hstart;
    try (unfold startSell in Hstart;
         destruct (JSMap.get tok (active st)); [|discriminate];
         destruct (deref st _); discriminate).
  - exists [CallSell tok req]. unfold play. simpl. rewrite Hstart. reflexivity.
  - destruct (sellAfterBook tok1 ref s (getOrderbook ex tok1))
      as [e | [ | | | tok2 ref2 s2 bid]] eqn:Hbook;
      try (unfold sellAfterBook in Hbook;
           destruct (getOrderbook ex tok1) as [ob|]; [|discriminate];
           destruct (first_level (bids ob)); discriminate).
    + exists [CallSell tok req; AnswerBook 0 (getOrderbook ex tok1)].
      unfold play. simpl. rewrite Hstart. simpl. rewrite Hbook. reflexivity.
    + exists [CallSell tok req; AnswerBook 0 (getOrderbook ex tok1);
              AnswerOrder 0 now
                (sellContract ex tok2 s2 (level_price bid))].
      unfold play. simpl. rewrite Hstart. simpl. rewrite Hbook. reflexivity.
Qed.

(** Two evaluations of the same opportunity, both started before either
    is answered: both pass the test on the active set and both buy; the
    Map keeps the second position. *)
Example two_evaluations_in_flight :
  match Demo.bestOpportunity with
  | Some opp =>
      let answered :=
        play [CallEvaluate opp; CallEvaluate opp;
              AnswerBook 0 (Resolved Demo.book);
              AnswerBook 0 (Resolved Demo.book);
              AnswerOrder 0 5 (Resolved (mkOrderResult "buy-1"));
              AnswerOrder 0 6 (Resolved (mkOrderResult "buy-2"))]
             (mkConfig (init (Fin 100) true (Fin (1 # 10))) []) in
      map (fun h => match h with
                    | Buy p r => (pos_tokenId p, order_id r)
                    | Sell tok _ _ _ r => (tok, order_id r)
                    end) (history (state answered))
      = [("token-3", "buy-1"); ("token-3", "buy-2")]%string
      /\ map (fun e : string * Position => (fst e, pos_orderId (snd e)))
             (entries (state answered))
         = [("token-3", "buy-2")]%string
  | None => False
  end.
Proof. vm_compute. split; reflexivity. Qed.

End Serialized.

(* ------------------------------------------------------------------------- *)
(** ** One open position per instrument *)

Section OnePosition.
Import Exchange TradingBot Interleaved.

(** The active set after any sequence of [evaluateOpportunity] and
    [sellPosition] calls on a fresh bot: for every token it holds at most
    one position, and every position it holds has status open.  This
    counts the entries of the Map, not the positions that were bought: a
    position whose entry was overwritten is no longer counted (see
    [two_evaluations_in_flight]).
    - With the calls taken one after the other: [evaluateOpportunity] for
      a token that has a position changes nothing, no call of it removes
      or replaces a position, and [sellPosition] takes a position out of
      the active set exactly when the sell goes through and marks the
      position closed.
    - With the calls made and answered in any order, a call of
      [evaluateOpportunity] for a token that has a position starts
      nothing, and a call answered before anything else happens does what
      the call taken alone does. *)
Theorem one_open_position_per_instrument :
  forall (size : num) (enabled : bool) (thr : num),
    (forall ops : list Op,
        let bot := run ops (TradingBot.new size enabled thr) in
        (forall tok, (List.length (openPositions tok bot) <= 1)%nat)
        /\ (forall tok p,
               In (tok, p) (activePositions bot) -> status p = StatusOpen)
        /\ (forall ex now opp,
               JSMap.has (tokenOf opp) (activePositions bot) = true ->
               evaluateOpportunity ex now opp bot = bot)
        /\ (forall ex now opp tok p,
               JSMap.get tok (activePositions bot) = Some p ->
               JSMap.get tok
                 (activePositions (evaluateOpportunity ex now opp bot))
               = Some p)
        /\ (forall ex now tok req p,
               JSMap.get tok (activePositions bot) = Some p ->
               (JSMap.get tok
                  (activePositions (fst (sellPosition ex now tok req bot)))
                = None
                <-> exists ob bid res,
                     getOrderbook ex tok = Resolved ob
                     /\ first_level (bids ob) = Some bid
                     /\ sellContract ex tok (sellAmountOf req p)
                                     (level_price bid) = Resolved res
                     /\ status (sold p (sellAmountOf req p)
                                     (level_price bid) now)
                        = StatusClosed)))
    /\ (forall actions : list Action,
           let st :=
             state (play actions (mkConfig (init size enabled thr) [])) in
           (forall tok,
               (List.length (openPositions tok (view st)) <= 1)%nat)
           /\ (forall tok p,
                  In (tok, p) (activePositions (view st)) ->
                  status p = StatusOpen)
           /\ (forall opp,
                  JSMap.has (tokenOf opp) (activePositions (view st)) = true ->
                  startEvaluate opp st = None)
           /\ (forall ex now opp,
                  view (evaluateAlone ex now opp st)
                  = evaluateOpportunity ex now opp (view st))
           /\ (forall ex now tok req,
                  (view (fst (sellAlone ex now tok req st)),
                   snd (sellAlone ex now tok req st))
                  = sellPosition ex now tok req (view st))).
Proof.
  intros size enabled thr. split.
  - intros ops. apply serialized_ledger.
  - intros actions st.
    assert (Hst : state_ok st).
    { apply (play_ok actions (init_ok size enabled thr)). }
    split; [|split; [|split; [|split]]].
    + intros tok. apply (interleaved_ledger actions size enabled thr tok).
    + intros tok p. apply (interleaved_ledger actions size enabled thr tok).
    + intros opp Hhas. unfold startEvaluate.
      change (activePositions (view st)) with (entries st) in Hhas.
      rewrite (has_resolve _ Hst) in Hhas. rewrite Hhas. reflexivity.
    + intros ex now opp. apply evaluateAlone_view. assumption.
    + intros ex now tok req. apply sellAlone_view. assumption.
Qed.

Lemma one_open_position_per_instrument_witness :
  let bot := run Demo.ops (TradingBot.new (Fin 100) true (Fin (1 # 10))) in
  (List.length (openPositions "token-3" bot) <= 1)%nat
  /\ map amount (openPositions "token-3" bot) = [Fin (60 # 10)].
Proof.
  intros bot.
  destruct (one_open_position_per_instrument (Fin 100) true (Fin (1 # 10)))
    as (Hserial & _).
  destruct (Hserial Demo.ops) as (Hone & _).
  split; [apply Hone | vm_compute; reflexivity].
Defined.

End OnePosition.

(* ------------------------------------------------------------------------- *)
(** ** The stores over time: cleanup and status *)

Section StoresOverTime.
Import OddsComparison OddsData.

Lemma get_notin (V : Type) (m : JSMap.t V) (k : string) :
  ~ In k (JSMap.keys m) -> JSMap.get k m = None.
Proof.
  induction m as [|[k0 v0] r IH]; simpl; intros H; [reflexivity|].
  destruct (String.eqb k k0) eqn:E.
  - apply String.eqb_eq in E. subst. exfalso. auto.
  - apply IH. auto.
Qed.

Lemma keys_filter (V : Type) (P : string * V -> bool) (m : JSMap.t V)
    (k : string) :
  In k (JSMap.keys (filter P m)) -> In k (JSMap.keys m).
Proof.
  unfold JSMap.keys. rewrite !in_map_iff.
  intros [e [He Hin]]. apply filter_In in Hin. exists e. tauto.
Qed.

Lemma wf_filter (V : Type) (P : string * V -> bool) (m : JSMap.t V) :
  JSMap.wf m -> JSMap.wf (filter P m).
Proof.
  unfold JSMap.wf.
  induction m as [|[k0 v0] r IH]; intros H; [constructor|].
  inversion H as [|? ? Hnotin Hr]; subst.
  cbn [filter]. destruct (P (k0, v0)); [|auto].
  cbn [JSMap.keys map fst]. constructor; [|apply IH; assumption].
  intros Hin. apply Hnotin. apply (keys_filter P r). exact Hin.
Qed.

(** Reading a Map after entries have been deleted by a test on the
    entry. *)
Lemma get_filter (V : Type) (P : string * V -> bool) (m : JSMap.t V)
    (k : string) :
  JSMap.wf m ->
  JSMap.get k (filter P m)
  = match JSMap.get k m with
    | Some v => if P (k, v) then Some v else None
    | None => None
    end.
Proof.
  unfold JSMap.wf.
  induction m as [|[k0 v0] r IH]; intros H; [reflexivity|].
  inversion H as [|? ? Hnotin Hr]; subst.
  cbn [filter JSMap.get].
  destruct (String.eqb k k0) eqn:E.
  - apply String.eqb_eq in E. subst k0.
    destruct (P (k, v0)) eqn:HP.
    + cbn [JSMap.get]. rewrite String.eqb_refl. reflexivity.
    + apply get_notin. intros Hin. apply Hnotin.
      apply (keys_filter P r). exact Hin.
  - destruct (P (k0, v0)).
    + cbn [JSMap.get]. rewrite E. apply IH. assumption.
    + apply IH. assumption.
Qed.

Lemma write_wf (st : t) (w : Write) :
  JSMap.wf (boltOddsData st) /\ JSMap.wf (polymarketData st) ->
  JSMap.wf (boltOddsData (write st w))
  /\ JSMap.wf (polymarketData (write st w)).
Proof.
  intros [Hb Hp]. destruct w; cbn [write].
  - split; [apply wf_set; assumption | assumption].
  - split; [assumption | apply wf_set; assumption].
  - split; apply wf_filter; assumption.
Qed.

(** Both stores of a comparison service keep one entry per key. *)
Lemma written_wf (ws : list Write) (threshold : num) :
  JSMap.wf (boltOddsData (written ws threshold))
  /\ JSMap.wf (polymarketData (written ws threshold)).
Proof.
  unfold written.
  assert (H : JSMap.wf (boltOddsData (OddsComparison.new threshold))
              /\ JSMap.wf (polymarketData (OddsComparison.new threshold)))
    by (split; constructor).
  revert H. generalize (OddsComparison.new threshold).
  induction ws as [|w ws IH]; intros st H; [exact H|].
  cbn [fold_left]. apply IH. apply write_wf. exact H.
Qed.

Lemma written_threshold (ws : list Write) (threshold : num) :
  valueThreshold (written ws threshold) = threshold.
Proof.
  unfold written.
  change threshold with (valueThreshold (OddsComparison.new threshold)) at 2.
  generalize (OddsComparison.new threshold).
  induction ws as [|w ws IH]; intros st; [reflexivity|].
  cbn [fold_left]. rewrite IH. destruct w; reflexivity.
Qed.

(** X1. After [clearOldData(maxAgeMinutes)] at time [now], on stores
    written by any sequence of ingestions and cleanups: a key of either
    store leads to the snapshot it led to before when that snapshot is
    stamped at or after [now - maxAgeMinutes * 60000], and to nothing
    when it is stamped before; no key gains a snapshot; the threshold
    is untouched; no remaining snapshot is older than the cutoff.  A
    snapshot exactly [maxAgeMinutes] old is kept. *)
Theorem clearOldData_drops_stale :
  forall (ws : list Write) (threshold : num) (now age : Z),
    let st := written ws threshold in
    let cutoff := (now - age * 60 * 1000)%Z in
    let st' := clearOldData now age st in
    (forall k,
        JSMap.get k (boltOddsData st')
        = match JSMap.get k (boltOddsData st) with
          | Some d => if (bs_timestamp d <? cutoff)%Z then None else Some d
          | None => None
          end)
    /\ (forall k,
           JSMap.get k (polymarketData st')
           = match JSMap.get k (polymarketData st) with
             | Some d => if (ps_timestamp d <? cutoff)%Z then None else Some d
             | None => None
             end)
    /\ valueThreshold st' = threshold
    /\ JSMap.wf (boltOddsData st') /\ JSMap.wf (polymarketData st')
    /\ (forall z, In z (stamps st') -> (cutoff <= z)%Z).
Proof.
  intros ws threshold now age st cutoff st'.
  destruct (written_wf ws threshold) as [Hb Hp]. fold st in Hb, Hp.
  split; [|split; [|split; [|split; [|split]]]].
  - intros k. unfold st', clearOldData. cbn [boltOddsData].
    rewrite get_filter by assumption. fold cutoff.
    destruct (JSMap.get k (boltOddsData st)) as [d|]; [|reflexivity].
    cbn [snd]. destruct (bs_timestamp d <? cutoff)%Z; reflexivity.
  - intros k. unfold st', clearOldData. cbn [polymarketData].
    rewrite get_filter by assumption. fold cutoff.
    destruct (JSMap.get k (polymarketData st)) as [d|]; [|reflexivity].
    cbn [snd]. destruct (ps_timestamp d <? cutoff)%Z; reflexivity.
  - unfold st', st. cbn [clearOldData valueThreshold].
    apply written_threshold.
  - apply wf_filter. assumption.
  - apply wf_filter. assumption.
  - intros z Hz. unfold stamps, st', clearOldData in Hz.
    cbn [boltOddsData polymarketData] in Hz. fold cutoff in Hz.
    unfold JSMap.values in Hz.
    apply in_app_or in Hz. destruct Hz as [Hz|Hz];
      apply in_map_iff in Hz; destruct Hz as [d [<- Hd]];
      apply in_map_iff in Hd; destruct Hd as [e [<- He]];
      apply filter_In in He; destruct He as [_ He];
      apply negb_true_iff, Z.ltb_ge in He; exact He.
Qed.

(** A game is compared with a token exactly when it is an NHL game with
    a moneyline outcome; nothing of the token is looked at. *)
Lemma compareMarkets_matchable (now : Z) (k : string) (b : BoltSnapshot)
    (tok : string) (p : PolySnapshot) :
  compareMarkets now k b tok p
  = if matchable b
    then Some (mkComparison k tok (extractGameInfo b)
                 (findMoneylineOutcomes b)
                 (mkPolyView tok (price_or_default (price (ps_data p)))
                    (polymarketPriceToDecimal
                       (price_or_default (price (ps_data p))))
                    (polymarketPriceToAmerican
                       (price_or_default (price (ps_data p)))))
                 now)
    else None.
Proof.
  unfold compareMarkets, matchable. cbn [extractGameInfo gi_sport].
  destruct (String.eqb (sport (bs_data b)) "NHL"); [|reflexivity].
  destruct (Nat.eqb (List.length (findMoneylineOutcomes b)) 0); reflexivity.
Qed.

Lemma in_findMatchingMarkets (now : Z) (st : t) (m : Comparison) :
  In m (findMatchingMarkets now st)
  <-> exists ge pe,
        In ge (boltOddsData st) /\ In pe (polymarketData st)
        /\ compareMarkets now (fst ge) (snd ge) (fst pe) (snd pe) = Some m.
Proof.
  rewrite findMatchingMarkets_pairs, in_flat_map. split.
  - intros [ge [Hge Hin]]. apply in_flat_map in Hin.
    destruct Hin as [pe [Hpe Hin]]. exists ge, pe.
    destruct (compareMarkets now (fst ge) (snd ge) (fst pe) (snd pe));
      simpl in Hin; [|contradiction].
    destruct Hin as [<-|[]]. auto.
  - intros (ge & pe & Hge & Hpe & E). exists ge. split; [assumption|].
    apply in_flat_map. exists pe. split; [assumption|].
    rewrite E. left. reflexivity.
Qed.

Lemma length_pairs (now : Z) (ge : string * BoltSnapshot)
    (tokens : JSMap.t PolySnapshot) :
  List.length
    (flat_map
       (fun pe : string * PolySnapshot =>
          pushed (compareMarkets now (fst ge) (snd ge) (fst pe) (snd pe)))
       tokens)
  = if matchable (snd ge) then List.length tokens else 0%nat.
Proof.
  induction tokens as [|pe r IH]; cbn [flat_map].
  - destruct (matchable (snd ge)); reflexivity.
  - rewrite length_app, IH, compareMarkets_matchable.
    destruct (matchable (snd ge)); reflexivity.
Qed.

(** X2. The matching pass compares every NHL game that has a moneyline
    outcome with every token of the price store, and nothing else: a
    comparison is produced for a pair exactly when the game qualifies,
    whatever the token is, so the number of comparisons is the number of
    such games times the number of tokens. *)
Theorem findMatchingMarkets_every_pair :
  forall (now : Z) (st : t),
    (forall m,
        In m (findMatchingMarkets now st)
        <-> exists k b tok p,
              In (k, b) (boltOddsData st)
              /\ In (tok, p) (polymarketData st)
              /\ matchable b = true
              /\ gameKey m = k /\ tokenId m = tok
              /\ compareMarkets now k b tok p = Some m)
    /\ List.length (findMatchingMarkets now st)
       = (List.length
            (filter (fun ge => matchable (snd ge)) (boltOddsData st))
          * JSMap.size (polymarketData st))%nat.
Proof.
  intros now st. split.
  - intros m. rewrite in_findMatchingMarkets. split.
    + intros ([k b] & [tok p] & Hge & Hpe & E). cbn [fst snd] in E.
      exists k, b, tok, p.
      pose proof E as E'. rewrite compareMarkets_matchable in E'.
      destruct (matchable b); [|discriminate].
      injection E' as <-. auto 10.
    + intros (k & b & tok & p & Hge & Hpe & _ & _ & _ & E).
      exists (k, b), (tok, p). auto.
  - rewrite findMatchingMarkets_pairs. unfold JSMap.size.
    induction (boltOddsData st) as [|ge r IH]; [reflexivity|].
    cbn [flat_map filter]. rewrite length_app, IH, length_pairs.
    destruct (matchable (snd ge)); cbn [List.length]; lia.
Qed.

Lemma in_findTradingOpportunities (now : Z) (st : t) (o : Opportunity) :
  In o (findTradingOpportunities now st)
  <-> exists m v,
        In m (findMatchingMarkets now st)
        /\ calculateValue (valueThreshold st) m = Some v
        /\ o = opportunityOf m v.
Proof.
  rewrite <- in_collect. unfold findTradingOpportunities.
  split; apply Permutation_in;
    [|apply Permutation_sym]; apply (js_sort_perm edgeValue).
Qed.

(** X3. A cleanup makes no opportunity appear: every opportunity found
    after [clearOldData] was found on the stores before it, and it
    rests on odds stamped at or after the cutoff ([pass] is the time of
    the pass that looks for opportunities). *)
Theorem clearOldData_opportunities :
  forall (now age pass : Z) (st : t) (o : Opportunity),
    In o (findTradingOpportunities pass (clearOldData now age st)) ->
    In o (findTradingOpportunities pass st)
    /\ (now - age * 60 * 1000
        <= gi_timestamp (gameInfo (op_match o)))%Z.
Proof.
  intros now age pass st o Ho.
  apply in_findTradingOpportunities in Ho.
  destruct Ho as (m & v & Hm & Hv & ->).
  apply in_findMatchingMarkets in Hm.
  destruct Hm as (ge & pe & Hge & Hpe & E).
  cbn [clearOldData boltOddsData polymarketData] in Hge, Hpe.
  apply filter_In in Hge. destruct Hge as [Hge Hfresh].
  apply filter_In in Hpe. destruct Hpe as [Hpe _].
  split.
  - apply in_findTradingOpportunities. exists m, v.
    split; [|split; [exact Hv | reflexivity]].
    apply in_findMatchingMarkets. exists ge, pe. auto.
  - cbn [opportunityOf op_match].
    rewrite compareMarkets_matchable in E.
    destruct (matchable (snd ge)); [|discriminate].
    injection E as <-. cbn [gameInfo extractGameInfo gi_timestamp].
    apply negb_true_iff, Z.ltb_ge in Hfresh. exact Hfresh.
Qed.

Lemma clearOldData_opportunities_witness :
  exists o,
    In o (findTradingOpportunities 10 (clearOldData 10 60 Demo.stores))
    /\ In o (findTradingOpportunities 10 Demo.stores)
    /\ (10 - 60 * 60 * 1000 <= gi_timestamp (gameInfo (op_match o)))%Z.
Proof.
  assert (H : exists o,
             In o (findTradingOpportunities 10
                     (clearOldData 10 60 Demo.stores)))
    by (eexists; vm_compute; left; reflexivity).
  destruct H as [o Ho]. exists o. split; [exact Ho|].
  apply (clearOldData_opportunities 10 60 10 Demo.stores o Ho).
Defined.

Lemma ltb_of_Z (a b : Z) : (of_Z a <? of_Z b)%num = (a <? b)%Z.
Proof.
  unfold of_Z. cbn [ltb].
  destruct (Z.ltb_spec a b) as [H|H].
  - apply Qltb_lt. rewrite <- Zlt_Qlt. exact H.
  - apply Qltb_ge. rewrite <- Zle_Qle. exact H.
Qed.

Lemma max2_of_Z (a b : Z) : max2 (of_Z a) (of_Z b) = of_Z (Z.max a b).
Proof.
  unfold max2. change (of_Z a) with (Fin (inject_Z a)) at 1.
  change (of_Z b) with (Fin (inject_Z b)) at 1.
  cbn iota. change (Fin (inject_Z a)) with (of_Z a).
  change (Fin (inject_Z b)) with (of_Z b).
  rewrite ltb_of_Z.
  destruct (Z.ltb_spec a b); f_equal; lia.
Qed.

Lemma math_max_from (zs : list Z) (a : Z) :
  exists top,
    In top (a :: zs)
    /\ fold_left max2 (map of_Z zs) (of_Z a) = of_Z top
    /\ forall z, In z (a :: zs) -> (z <= top)%Z.
Proof.
  revert a. induction zs as [|b zs IH]; intros a.
  - exists a. split; [left; reflexivity|]. split; [reflexivity|].
    intros z [<-|[]]. lia.
  - cbn [map fold_left]. rewrite max2_of_Z.
    destruct (IH (Z.max a b)) as (top & Hin & Heq & Hmax).
    exists top. split; [|split; [exact Heq|]].
    + destruct Hin as [<-|Hin]; [|right; right; exact Hin].
      destruct (Z.max_spec a b) as [[_ ->]|[_ ->]];
        [right; left | left]; reflexivity.
    + assert (Hab : (Z.max a b <= top)%Z) by (apply Hmax; left; reflexivity).
      intros z [<-|[<-|Hz]]; [lia | lia |].
      apply Hmax. right. exact Hz.
Qed.

Lemma stamp_or_zero_of_Z (z : Z) : stamp_or_zero z = of_Z z.
Proof.
  unfold stamp_or_zero. destruct (Z.eqb_spec z 0) as [->|]; reflexivity.
Qed.

(** X4. [getDataStatus] counts the entries of the two stores, and its
    [lastUpdate] is the latest time stamp held by either store; with
    both stores empty there is no time stamp and [lastUpdate] is
    [-Infinity] (which [getOddsSummary] then hands to [new Date]). *)
Theorem getDataStatus_lastUpdate :
  forall st : t,
    boltOddsGames (getDataStatus st) = List.length (boltOddsData st)
    /\ polymarketTokens (getDataStatus st) = List.length (polymarketData st)
    /\ (boltOddsData st = [] /\ polymarketData st = []
        <-> lastUpdate (getDataStatus st) = NInf)
    /\ (forall z,
           In z (stamps st) ->
           exists top,
             lastUpdate (getDataStatus st) = of_Z top
             /\ In top (stamps st) /\ (z <= top)%Z).
Proof.
  intros st.
  assert (Hlast : lastUpdate (getDataStatus st)
                  = math_max (map of_Z (stamps st))).
  { unfold getDataStatus, stamps. cbn [lastUpdate].
    rewrite map_app, !map_map. f_equal. f_equal;
      apply map_ext; intros d; apply stamp_or_zero_of_Z. }
  assert (Hsome : forall a zs,
             stamps st = a :: zs ->
             exists top, lastUpdate (getDataStatus st) = of_Z top
                         /\ In top (stamps st)
                         /\ forall z, In z (stamps st) -> (z <= top)%Z).
  { intros a zs E. rewrite Hlast, E. unfold math_max.
    cbn [map fold_left].
    change (max2 NInf (of_Z a)) with (of_Z a).
    destruct (math_max_from zs a) as (top & Hin & Heq & Hmax).
    exists top. auto. }
  split; [reflexivity|]. split; [reflexivity|]. split.
  - split.
    + intros [Hb Hp]. rewrite Hlast. unfold stamps. rewrite Hb, Hp.
      reflexivity.
    + intros Hinf. destruct (stamps st) as [|a zs] eqn:E.
      * unfold stamps, JSMap.values in E. apply app_eq_nil in E.
        destruct E as [Eb Ep]. apply map_eq_nil in Eb, Ep.
        apply map_eq_nil in Eb, Ep. auto.
      * destruct (Hsome a zs eq_refl) as (top & Htop & _).
        rewrite Htop in Hinf. discriminate.
  - intros z Hz. destruct (stamps st) as [|a zs] eqn:E; [contradiction|].
    destruct (Hsome a zs eq_refl) as (top & Htop & Hin & Hmax).
    exists top. auto.
Qed.

End StoresOverTime.

(* ------------------------------------------------------------------------- *)
(** ** Game keys *)

Section GameKeys.
Import OddsComparison OddsData.
Open Scope string_scope.

Lemma plain_split (a b x y : string) :
  plain a = true -> plain b = true ->
  a ++ String "_" x = b ++ String "_" y ->
  a = b /\ x = y.
Proof.
  revert b. induction a as [|c a IH]; intros [|c' b] Ha Hb E;
    cbn [append plain] in *.
  - injection E as ->. auto.
  - injection E as <- _. discriminate.
  - injection E as -> _. discriminate.
  - injection E as -> E.
    apply andb_true_iff in Ha, Hb.
    destruct (IH b (proj2 Ha) (proj2 Hb) E) as [-> ->]. auto.
Qed.

Lemma createGameKey_injective (g g' : GameData) :
  plainGame g -> plainGame g' ->
  createGameKey g = createGameKey g' ->
  sameGame g g' = true.
Proof.
  intros (Hs & Hh & Ha) (Hs' & Hh' & Ha') E.
  unfold createGameKey, gameKeyOf, show in E.
  change (?a ++ "_" ++ ?b) with (a ++ String "_" b) in E.
  destruct (plain_split _ _ _ _ Hs Hs' E) as [E1 E2].
  change ("_" ++ ?b) with (String "_" b) in E2.
  destruct (plain_split _ _ _ _ Hh Hh' E2) as [E3 E4].
  destruct (plain_split _ _ _ _ Ha Ha' E4) as [E5 E6].
  unfold sameGame. rewrite E1, E3, E5, E6, !String.eqb_refl. reflexivity.
Qed.

Lemma sameGame_key (g g' : GameData) :
  sameGame g g' = true -> createGameKey g = createGameKey g'.
Proof.
  unfold sameGame. rewrite !andb_true_iff, !String.eqb_eq.
  intros [[[E1 E2] E3] E4]. unfold createGameKey. congruence.
Qed.

(** With a separator inside team names two different games get the
    same key, and the odds of one replace the odds of the other. *)
Example gameKey_collision :
  sameGame gameAB_C gameA_BC = false
  /\ createGameKey gameAB_C = createGameKey gameA_BC
  /\ JSMap.get (createGameKey gameAB_C)
       (boltOddsData
          (updateBoltOddsData 2 gameA_BC
             (updateBoltOddsData 1 gameAB_C (OddsComparison.new (Fin 0)))))
     = Some (mkBoltSnapshot gameA_BC 2).
Proof. repeat split. Qed.

(** X5. The odds store holds one snapshot per game.  For payloads whose
    sport and team names contain no underscore, the key built by
    [createGameKey] identifies the game: after [updateBoltOddsData(g)] a
    payload [g'] of the same game (same sport, teams and game label)
    leads to the snapshot of [g], which replaces whatever was stored for
    the game, outcomes included, and a payload of another game leads to
    what it led to before.  The price store and the threshold are
    untouched. *)
Theorem updateBoltOddsData_one_snapshot_per_game :
  forall (now : Z) (g g' : GameData) (st : t),
    plainGame g -> plainGame g' ->
    let st' := updateBoltOddsData now g st in
    (createGameKey g' = createGameKey g <-> sameGame g' g = true)
    /\ JSMap.get (createGameKey g') (boltOddsData st')
       = (if sameGame g' g then Some (mkBoltSnapshot g now)
          else JSMap.get (createGameKey g') (boltOddsData st))
    /\ polymarketData st' = polymarketData st
    /\ valueThreshold st' = valueThreshold st.
Proof.
  intros now g g' st Hg Hg' st'.
  assert (Hiff : createGameKey g' = createGameKey g <-> sameGame g' g = true).
  { split; [apply createGameKey_injective; assumption | apply sameGame_key]. }
  split; [exact Hiff|]. split; [|split; reflexivity].
  unfold st', updateBoltOddsData. cbn [boltOddsData].
  rewrite get_set.
  destruct (String.eqb (createGameKey g') (createGameKey g)) eqn:E.
  - apply String.eqb_eq, Hiff in E. rewrite E. reflexivity.
  - destruct (sameGame g' g) eqn:E'; [|reflexivity].
    pose proof (proj2 Hiff eq_refl) as K.
    apply String.eqb_eq in K. congruence.
Qed.

Lemma updateBoltOddsData_one_snapshot_per_game_witness :
  plainGame Demo.mockBoltData
  /\ JSMap.get (createGameKey Demo.mockBoltData)
       (boltOddsData (updateBoltOddsData 7 Demo.mockBoltData Demo.stores))
     = Some (mkBoltSnapshot Demo.mockBoltData 7).
Proof.
  assert (H : plainGame Demo.mockBoltData) by (repeat split).
  split; [exact H|].
  destruct (@updateBoltOddsData_one_snapshot_per_game
              7 Demo.mockBoltData Demo.mockBoltData Demo.stores H H)
    as (_ & Hget & _).
  exact Hget.
Defined.

End GameKeys.

(* ------------------------------------------------------------------------- *)
(** ** Prices, odds and probabilities *)

Section PriceConversions.
Import OddsComparison OddsData.

Lemma inv_price (q : Q) :
  (0 < q)%Q -> (q < 1)%Q ->
  (1 < 1 / q)%Q /\ (1 / (1 / q) == q)%Q /\ Qeq_bool (1 / q) 0 = false.
Proof.
  intros H0 H1.
  assert (Hd : (1 < 1 / q)%Q).
  { apply Qlt_shift_div_l; [assumption|]. lra. }
  split; [exact Hd|]. split.
  - field. lra.
  - destruct (Qeq_bool (1 / q) 0) eqn:E; [|reflexivity].
    apply Qeq_bool_iff in E. rewrite E in Hd. lra.
Qed.

Lemma price_in_range (q : Q) :
  (0 < q)%Q -> (q < 1)%Q ->
  ((Fin q <=? Fin 0) || (Fin q >=? Fin 1))%num = false.
Proof.
  intros H0 H1. unfold geb. cbn [leb].
  apply orb_false_iff. split.
  - destruct (Qle_bool q 0) eqn:E; [|reflexivity].
    apply Qle_bool_iff in E. lra.
  - destruct (Qle_bool 1 q) eqn:E; [|reflexivity].
    apply Qle_bool_iff in E. lra.
Qed.

Lemma polymarketPriceToDecimal_in_range (q : Q) :
  (0 < q)%Q -> (q < 1)%Q ->
  polymarketPriceToDecimal (Fin q) = Some (Fin (1 / q)).
Proof.
  intros H0 H1. unfold polymarketPriceToDecimal.
  rewrite price_in_range by assumption.
  cbn [div]. destruct (Qeq_bool q 0) eqn:E; [|reflexivity].
  apply Qeq_bool_iff in E. lra.
Qed.

(** What the loop of [calculateValue] retains is an outcome of the list
    together with its edge, which is above the threshold. *)
Lemma best_step_retains (threshold d : num) (l : list MoneylineOutcome)
    (best : option num * option MoneylineOutcome) :
  (best = (None, None)
   \/ exists o, best = (Some (edge d o), Some o)
                /\ (edge d o >? threshold)%num = true) ->
  let best' := fold_left (best_step threshold d) l best in
  best' = (None, None)
  \/ exists o, best' = (Some (edge d o), Some o)
               /\ (edge d o >? threshold)%num = true
               /\ (In o l \/ snd best = Some o).
Proof.
  revert best. induction l as [|x l IH]; intros best Hb; cbn [fold_left].
  - destruct Hb as [->|(o & -> & Ho)]; [left; reflexivity|].
    right. exists o. auto.
  - destruct (IH (best_step threshold d best x)) as [E|(o & E & Ho & Hin)].
    + unfold best_step.
      destruct (edge d x >? threshold)%num eqn:Hx; [|exact Hb].
      destruct (falsy (fst best)
                || (edge d x >? num_of_nullable (fst best))%num)%bool;
        [|exact Hb].
      right. exists x. auto.
    + left. exact E.
    + right. exists o. split; [exact E|]. split; [exact Ho|].
      destruct Hin as [Hin|Hin]; [left; right; exact Hin|].
      unfold best_step in Hin.
      destruct (edge d x >? threshold)%num; [|right; exact Hin].
      destruct (falsy (fst best)
                || (edge d x >? num_of_nullable (fst best))%num)%bool;
        [|right; exact Hin].
      injection Hin as <-. left. left. reflexivity.
Qed.

Lemma calculateValue_retains (threshold : num) (c : Comparison)
    (v : ValueAnalysis) :
  calculateValue threshold c = Some v ->
  let d := num_of_nullable (pv_decimalOdds (polymarket c)) in
  In (outcome v) (boltOdds c)
  /\ value v = edge d (outcome v)
  /\ (value v >? threshold)%num = true
  /\ polymarketOdds v = d
  /\ confidence v = calculateConfidence (value v).
Proof.
  intros Hv d. unfold calculateValue in Hv. fold d in Hv.
  destruct (Nat.eqb (List.length (boltOdds c)) 0
            || falsy (pv_decimalOdds (polymarket c)))%bool; [discriminate|].
  destruct (@best_step_retains threshold d (boltOdds c) (None, None))
    as [E|(o & E & Ho & Hin)].
  - left. reflexivity.
  - rewrite E in Hv. discriminate.
  - rewrite E in Hv. destruct (truthy (edge d o)); [|discriminate].
    injection Hv as <-. cbn [outcome value polymarketOdds confidence].
    destruct Hin as [Hin|Hin]; [|discriminate]. auto.
Qed.

(** The edge against decimal odds [1 / q], for a price [q] in (0,1). *)
Lemma edge_of_price (q : Q) (o : MoneylineOutcome) :
  (0 < q)%Q -> (q < 1)%Q ->
  exists x, (x == q)%Q
            /\ edge (Fin (1 / q)) o = (impliedProbability o + Fin (- x))%num.
Proof.
  intros H0 H1. destruct (inv_price H0 H1) as (_ & Hinv & Hnz).
  exists (1 / (1 / q))%Q. split; [exact Hinv|].
  unfold edge, sub. cbn [div]. rewrite Hnz. reflexivity.
Qed.

Lemma gtb_add_le (a : num) (x y : Q) :
  (x <= y)%Q -> (a + Fin x >? a + Fin y)%num = false.
Proof.
  intros H. unfold gtb. destruct a as [i| | |]; simpl; try reflexivity.
  apply Qltb_ge. lra.
Qed.

Lemma geb_add_le (a : num) (x y : Q) :
  (x <= y)%Q -> is_nan a = false -> (a + Fin y >=? a + Fin x)%num = true.
Proof.
  intros H. unfold geb. destruct a as [i| | |]; simpl; try reflexivity;
    try discriminate.
  intros _. apply Qle_bool_iff. lra.
Qed.

Lemma add_fin_nan (a : num) (x : Q) : is_nan (a + Fin x)%num = is_nan a.
Proof. destruct a; reflexivity. Qed.

(** X6. For a comparison made with a price [q] strictly between 0 and 1
    (the price of the snapshot, or the default 0.5 when it has none):
    the price side records [q] and decimal odds above 1.  The edge of an
    outcome is at most its implied probability and at least that
    probability minus 1.  Against a dearer token ([q <= q'] for the same
    game) the decimal odds are no longer and no outcome has a greater
    edge.  What [calculateValue] reports for the dearer token, for any
    threshold, is an outcome of the comparison with its edge as value,
    above the threshold; and, the threshold being 0 or more, the cheaper
    token then gives an opportunity too, of no smaller value. *)
Theorem edge_falls_as_price_rises :
  forall (now : Z) (k : string) (b : BoltSnapshot) (tok : string)
         (p p' : PolySnapshot) (m m' : Comparison) (q q' : Q),
    compareMarkets now k b tok p = Some m ->
    compareMarkets now k b tok p' = Some m' ->
    price_or_default (price (ps_data p)) = Fin q ->
    price_or_default (price (ps_data p')) = Fin q' ->
    (0 < q)%Q -> (q <= q')%Q -> (q' < 1)%Q ->
    let d := num_of_nullable (pv_decimalOdds (polymarket m)) in
    let d' := num_of_nullable (pv_decimalOdds (polymarket m')) in
    pv_price (polymarket m) = Fin q
    /\ pv_decimalOdds (polymarket m) = Some d
    /\ (d >? Fin 1)%num = true
    /\ (d' >? d)%num = false
    /\ (forall o,
           (edge d o >? impliedProbability o)%num = false
           /\ (impliedProbability o - Fin 1 >? edge d o)%num = false
           /\ (edge d' o >? edge d o)%num = false)
    /\ (forall thr v',
           calculateValue thr m' = Some v' ->
           In (outcome v') (boltOdds m')
           /\ value v' = edge d' (outcome v')
           /\ (value v' >? thr)%num = true
           /\ ((Fin 0 <=? thr)%num = true ->
               exists v, calculateValue thr m = Some v
                         /\ (value v >=? value v')%num = true)).
Proof.
  intros now k b tok p p' m m' q q' Hm Hm' Hp Hp' H0 Hle H1.
  assert (H1q : (q < 1)%Q) by lra.
  assert (H0q' : (0 < q')%Q) by lra.
  rewrite compareMarkets_matchable in Hm, Hm'.
  destruct (matchable b); [|discriminate].
  injection Hm as <-. injection Hm' as <-.
  cbn [polymarket pv_price pv_decimalOdds boltOdds].
  rewrite Hp, Hp', !polymarketPriceToDecimal_in_range by assumption.
  cbn [num_of_nullable]. cbv zeta.
  destruct (inv_price H0 H1q) as (Hd & _ & _).
  assert (Hedges : forall o,
             (edge (Fin (1 / q')) o >? edge (Fin (1 / q)) o)%num = false).
  { intros o.
    destruct (@edge_of_price q o H0 H1q) as (x & Hx & ->).
    destruct (@edge_of_price q' o H0q' H1) as (x' & Hx' & ->).
    apply gtb_add_le. lra. }
  assert (Hedges' : forall o,
             is_nan (impliedProbability o) = false ->
             (edge (Fin (1 / q)) o >=? edge (Fin (1 / q')) o)%num = true).
  { intros o Hnan.
    destruct (@edge_of_price q o H0 H1q) as (x & Hx & ->).
    destruct (@edge_of_price q' o H0q' H1) as (x' & Hx' & ->).
    apply geb_add_le; [lra | exact Hnan]. }
  split; [reflexivity|]. split; [reflexivity|].
  split; [unfold gtb; cbn [ltb]; apply Qltb_lt; exact Hd|].
  split.
  { unfold gtb. cbn [ltb]. apply Qltb_ge.
    apply Qle_shift_div_l; [assumption|].
    assert (E : (1 / q' * q == q / q')%Q) by (field; lra).
    rewrite E. apply Qle_shift_div_r; lra. }
  split.
  { intros o. split; [|split; [|apply Hedges]].
    - destruct (@edge_of_price q o H0 H1q) as (x & Hx & ->).
      unfold gtb. destruct (impliedProbability o) as [i| | |]; simpl;
        try reflexivity.
      apply Qltb_ge. lra.
    - destruct (@edge_of_price q o H0 H1q) as (x & Hx & ->).
      unfold gtb, sub. destruct (impliedProbability o) as [i| | |]; simpl;
        try reflexivity.
      apply Qltb_ge. lra. }
  intros thr v' Hv'. pose proof (calculateValue_retains _ _ Hv') as R.
  cbn [polymarket pv_decimalOdds boltOdds] in R.
  cbn [num_of_nullable] in R. cbv zeta in R.
  destruct R as (Hin & Hval & Hgt & _).
  split; [exact Hin|]. split; [exact Hval|]. split; [exact Hgt|].
  intros Hthr.
  set (c := mkComparison k tok (extractGameInfo b) (findMoneylineOutcomes b)
              (mkPolyView tok (Fin q) (Some (Fin (1 / q)))
                 (polymarketPriceToAmerican (Fin q))) now).
  assert (Hnan : is_nan (impliedProbability (outcome v')) = false).
  { pose proof (gtb_not_nan_l _ _ Hgt) as N. rewrite Hval in N.
    destruct (@edge_of_price q' (outcome v') H0q' H1) as (x' & _ & E).
    rewrite E, add_fin_nan in N. exact N. }
  pose proof (Hedges' _ Hnan) as Hge. rewrite <- Hval in Hge.
  destruct (@calculateValue_cases thr c Hthr)
    as [[_ Hlow] | (pre & o & post & Hseen & Ho & Hmax & _ & Hsome)].
  - cbn [c polymarket pv_decimalOdds boltOdds num_of_nullable] in Hlow.
    specialize (Hlow _ Hin).
    rewrite (geb_gtb_trans _ _ _ Hge Hgt) in Hlow. discriminate.
  - cbn [c polymarket pv_decimalOdds boltOdds num_of_nullable] in Hmax, Ho.
    eexists. split; [exact Hsome|]. cbn [value].
    cbn [c polymarket pv_decimalOdds num_of_nullable].
    apply geb_trans with (edge (Fin (1 / q)) (outcome v')); [|exact Hge].
    apply not_gtb_geb.
    + apply (gtb_not_nan_l _ _ Ho).
    + destruct (@edge_of_price q (outcome v') H0 H1q) as (x & _ & ->).
      rewrite add_fin_nan. exact Hnan.
    + apply Hmax. exact Hin.
Qed.

Lemma edge_falls_as_price_rises_witness :
  let game := mkBoltSnapshot Demo.mockBoltData 0 in
  let cheap := mkPolySnapshot (mkMarketData (PriceNum (Fin (30 # 100)))) 3 in
  let dear := mkPolySnapshot (mkMarketData (PriceNum (Fin (45 # 100)))) 3 in
  exists m m',
    compareMarkets 10 "k" game "token" cheap = Some m
    /\ compareMarkets 10 "k" game "token" dear = Some m'
    /\ pv_price (polymarket m) = Fin (30 # 100)
    /\ forall o,
         (edge (num_of_nullable (pv_decimalOdds (polymarket m'))) o
          >? edge (num_of_nullable (pv_decimalOdds (polymarket m))) o)%num
         = false.
Proof.
  intros game cheap dear.
  assert (H : exists m, compareMarkets 10 "k" game "token" cheap = Some m)
    by (eexists; reflexivity).
  assert (H' : exists m, compareMarkets 10 "k" game "token" dear = Some m)
    by (eexists; reflexivity).
  destruct H as [m Hm]. destruct H' as [m' Hm'].
  exists m, m'. split; [exact Hm|]. split; [exact Hm'|].
  destruct (@edge_falls_as_price_rises 10 "k" game "token" cheap dear m m'
              (30 # 100) (45 # 100) Hm Hm' eq_refl eq_refl
              eq_refl ltac:(discriminate) eq_refl)
    as (Hprice & _ & _ & _ & Hedge & _).
  split; [exact Hprice|]. intros o. apply Hedge.
Defined.

Lemma floor_at_least (x : Q) (z : Z) :
  (inject_Z z <= x)%Q -> (z <= Qfloor x)%Z.
Proof.
  intros H. rewrite <- (Qfloor_Z z). apply Qfloor_resp_le. exact H.
Qed.

Lemma floor_below (x : Q) (z : Z) :
  (x < inject_Z z)%Q -> (Qfloor x <= z - 1)%Z.
Proof.
  intros H.
  assert (K : (inject_Z (Qfloor x) < inject_Z z)%Q).
  { apply Qle_lt_trans with x; [apply Qfloor_le | exact H]. }
  rewrite <- Zlt_Qlt in K. lia.
Qed.

(** X7. A price strictly between 0 and 1 converts to whole American
    odds that are never between -100 and 100: at least +100 for a price
    of at most one half (the underdog side, even money included), at
    most -100 for a price above one half. *)
Theorem polymarketPriceToAmerican_range :
  forall q : Q,
    (0 < q)%Q -> (q < 1)%Q ->
    exists z : Z,
      polymarketPriceToAmerican (Fin q) = Some (of_Z z)
      /\ ((q <= 1 # 2)%Q -> (100 <= z)%Z)
      /\ ((1 # 2 < q)%Q -> (z <= -100)%Z).
Proof.
  intros q H0 H1.
  destruct (inv_price H0 H1) as (Hd & _ & _).
  unfold polymarketPriceToAmerican.
  rewrite price_in_range, polymarketPriceToDecimal_in_range by assumption.
  cbn [num_of_nullable]. unfold decimalToAmerican, geb. cbn [leb].
  assert (Hhalf : (q <= 1 # 2)%Q <-> (2 <= 1 / q)%Q).
  { split; intros H.
    - apply Qle_shift_div_l; [assumption | lra].
    - destruct (Qlt_le_dec (1 # 2) q) as [K|K]; [|exact K].
      exfalso. apply (Qlt_not_le (1 / q) 2); [|exact H].
      apply Qlt_shift_div_r; [assumption | lra]. }
  revert Hd Hhalf. generalize (1 / q)%Q. intros d Hd Hhalf.
  destruct (Qle_bool 2 d) eqn:E.
  - apply Qle_bool_iff in E.
    cbn [sub neg add mul round].
    eexists. split; [reflexivity|]. split.
    + intros _. apply floor_at_least. change (inject_Z 100) with 100%Q. lra.
    + intros K. exfalso. apply Hhalf in E. lra.
  - assert (Hlt : (d < 2)%Q).
    { apply Qnot_le_lt. intros K. apply Qle_bool_iff in K. congruence. }
    cbn [sub neg add div].
    assert (Hnz : Qeq_bool (d + - (1)) 0 = false).
    { destruct (Qeq_bool (d + - (1)) 0) eqn:K; [|reflexivity].
      apply Qeq_bool_iff in K. lra. }
    rewrite Hnz. cbn [round].
    eexists. split; [reflexivity|]. split.
    + intros K. apply Hhalf in K. lra.
    + intros _.
      assert (Hq : (-100 / (d + - (1)) < -100)%Q).
      { apply Qlt_shift_div_r; lra. }
      revert Hq. generalize (-100 / (d + - (1)))%Q. intros y Hy.
      change (-100)%Z with (-99 - 1)%Z. apply floor_below.
      change (inject_Z (-99)) with (-99)%Q. lra.
Qed.

Lemma polymarketPriceToAmerican_range_witness :
  exists z : Z,
    polymarketPriceToAmerican (Fin (60 # 100)) = Some (of_Z z)
    /\ (z <= -100)%Z.
Proof.
  destruct (@polymarketPriceToAmerican_range (60 # 100) eq_refl eq_refl)
    as (z & Hz & _ & Hfav).
  exists z. split; [exact Hz | apply Hfav; reflexivity].
Defined.

Lemma Qeq_bool_pos (x : Q) : (0 < x)%Q -> Qeq_bool x 0 = false.
Proof.
  intros H. destruct (Qeq_bool x 0) eqn:E; [|reflexivity].
  apply Qeq_bool_iff in E. lra.
Qed.

Lemma implied_positive (a : Q) :
  (0 < a)%Q ->
  exists r, calculateImpliedProbability (Fin a) = Fin r
            /\ (r * (a + 100) == 100)%Q /\ (0 < r)%Q.
Proof.
  intros E. unfold calculateImpliedProbability, americanToDecimal, gtb.
  cbn [ltb]. rewrite (proj2 (Qltb_lt 0 a) E).
  cbn [div add].
  change (Qeq_bool 100 0) with false. cbn [add div].
  assert (Hpos : (0 < a / 100 + 1)%Q).
  { assert (0 < a / 100)%Q by (apply Qlt_shift_div_l; lra). lra. }
  rewrite (Qeq_bool_pos Hpos).
  exists (1 / (a / 100 + 1))%Q. split; [reflexivity|]. split.
  - field. lra.
  - apply Qlt_shift_div_l; lra.
Qed.

Lemma implied_negative (a : Q) :
  (a < 0)%Q ->
  exists r, calculateImpliedProbability (Fin a) = Fin r
            /\ (r * (100 - a) == - a)%Q /\ (0 < r)%Q.
Proof.
  intros E. unfold calculateImpliedProbability, americanToDecimal, gtb.
  cbn [ltb].
  assert (E' : Qltb 0 a = false).
  { destruct (Qltb 0 a) eqn:K; [|reflexivity]. apply Qltb_lt in K. lra. }
  rewrite E'. cbn [abs div].
  assert (Habs : (Qabs a == - a)%Q) by (apply Qabs_neg; lra).
  assert (Hs : (0 < Qabs a)%Q) by lra.
  rewrite (Qeq_bool_pos Hs). cbn [add div].
  assert (Hpos : (0 < 100 / Qabs a + 1)%Q).
  { assert (0 < 100 / Qabs a)%Q by (apply Qlt_shift_div_l; lra). lra. }
  rewrite (Qeq_bool_pos Hpos).
  exists (1 / (100 / Qabs a + 1))%Q. split; [reflexivity|]. split.
  - rewrite Habs. field. lra.
  - apply Qlt_shift_div_l; lra.
Qed.

Lemma implied_zero (a : Q) :
  (a == 0)%Q -> calculateImpliedProbability (Fin a) = Fin 0.
Proof.
  intros E. unfold calculateImpliedProbability, americanToDecimal, gtb.
  cbn [ltb].
  assert (E' : Qltb 0 a = false).
  { destruct (Qltb 0 a) eqn:K; [|reflexivity]. apply Qltb_lt in K. lra. }
  rewrite E'. cbn [abs div].
  assert (Hz : Qeq_bool (Qabs a) 0 = true).
  { apply Qeq_bool_iff. rewrite E. reflexivity. }
  rewrite Hz. reflexivity.
Qed.

Lemma le_of_mul (x y c : Q) :
  (0 < c)%Q -> (x * c <= y * c)%Q -> (x <= y)%Q.
Proof. intros Hc H. apply (Qmult_le_r x y c Hc). exact H. Qed.

(** X8. The probability implied by finite American odds [a] is a finite
    number between 0 and 1, and 0 for odds of 0 (where the decimal odds
    are infinite).  It is at most one half for odds of +100 or more and
    for odds from -100 up to 0, and at least one half for odds of -100 or
    less and for odds above 0 up to +100.  On each side of 0 it does not
    grow with the odds.  Odds that are not a number imply a probability
    that is not a number; infinite odds imply 0 and 1. *)
Theorem calculateImpliedProbability_bounds :
  forall a : Q,
    exists r : Q,
      calculateImpliedProbability (Fin a) = Fin r
      /\ (0 <= r)%Q /\ (r <= 1)%Q
      /\ ((a == 0)%Q -> (r == 0)%Q)
      /\ ((100 <= a)%Q \/ (-100 <= a)%Q /\ (a < 0)%Q -> (r <= 1 # 2)%Q)
      /\ ((a <= -100)%Q \/ (0 < a)%Q /\ (a <= 100)%Q -> (1 # 2 <= r)%Q)
      /\ (forall b s,
             calculateImpliedProbability (Fin b) = Fin s ->
             (0 < a)%Q /\ (a <= b)%Q \/ (a <= b)%Q /\ (b < 0)%Q ->
             (s <= r)%Q)
      /\ calculateImpliedProbability NaN = NaN
      /\ calculateImpliedProbability PInf = Fin 0
      /\ calculateImpliedProbability NInf = Fin 1.
Proof.
  intros a.
  destruct (Q_dec a 0) as [[Hneg|Hpos]|Hz].
  - destruct (implied_negative Hneg) as (r & Hr & Hmul & H0).
    exists r. split; [exact Hr|].
    split; [lra|].
    split; [apply (@le_of_mul r 1 (100 - a)); [lra | rewrite Hmul; lra]|].
    split; [intros K; lra|].
    split; [intros K; apply (@le_of_mul r (1 # 2) (100 - a));
            [lra | rewrite Hmul; lra]|].
    split; [intros K; apply (@le_of_mul (1 # 2) r (100 - a));
            [lra | rewrite Hmul; lra]|].
    split; [|repeat split; reflexivity].
    intros b s Hs [[K1 K2]|[K1 K2]]; [lra|].
    destruct (implied_negative K2) as (s' & Hs' & Hmul' & H0').
    rewrite Hs' in Hs. injection Hs as <-.
    apply (@le_of_mul s' r (100 - a)); [lra|]. rewrite Hmul.
    assert (0 <= (1 - s') * (b - a))%Q.
    { apply Qmult_le_0_compat; [|lra].
      assert (s' <= 1)%Q; [|lra].
      apply (@le_of_mul s' 1 (100 - b)); [lra | rewrite Hmul'; lra]. }
    nra.
  - destruct (implied_positive Hpos) as (r & Hr & Hmul & H0).
    exists r. split; [exact Hr|].
    split; [lra|].
    split; [apply (@le_of_mul r 1 (a + 100)); [lra | rewrite Hmul; lra]|].
    split; [intros K; lra|].
    split; [intros K; apply (@le_of_mul r (1 # 2) (a + 100));
            [lra | rewrite Hmul; lra]|].
    split; [intros K; apply (@le_of_mul (1 # 2) r (a + 100));
            [lra | rewrite Hmul; lra]|].
    split; [|repeat split; reflexivity].
    intros b s Hs [[K1 K2]|[K1 K2]]; [|lra].
    assert (Hb : (0 < b)%Q) by lra.
    destruct (implied_positive Hb) as (s' & Hs' & Hmul' & H0').
    rewrite Hs' in Hs. injection Hs as <-.
    apply (@le_of_mul s' r (b + 100)); [lra|]. rewrite Hmul'.
    assert (0 <= r * (b - a))%Q by (apply Qmult_le_0_compat; lra).
    nra.
  - exists 0%Q. split; [apply implied_zero; exact Hz|].
    split; [lra|]. split; [lra|]. split; [reflexivity|].
    split; [intros K; lra|]. split; [intros K; lra|].
    split; [|repeat split; reflexivity].
    intros b s Hs [[K1 K2]|[K1 K2]]; lra.
Qed.

End PriceConversions.

(* ------------------------------------------------------------------------- *)
(** ** From an opportunity to a trade *)

Section TradeSelection.
Import OddsComparison OddsData Exchange TradingBot.

Lemma in_findMoneylineOutcomes (b : BoltSnapshot) (mo : MoneylineOutcome) :
  In mo (findMoneylineOutcomes b)
  <-> exists e,
        In e (outcomes (bs_data b))
        /\ outcome_name (snd e) = "Moneyline"%string
        /\ truthy_string (odds (snd e)) = true
        /\ mo = moneylineOutcome (snd e).
Proof.
  unfold findMoneylineOutcomes.
  rewrite (fold_append
             (fun (e : string * Outcome) acc =>
                if (String.eqb (outcome_name (snd e)) "Moneyline"
                    && truthy_string (odds (snd e)))%bool
                then acc ++ [moneylineOutcome (snd e)]
                else acc)
             (fun e : string * Outcome =>
                if (String.eqb (outcome_name (snd e)) "Moneyline"
                    && truthy_string (odds (snd e)))%bool
                then [moneylineOutcome (snd e)]
                else [])).
  - cbn [app]. rewrite in_flat_map. split.
    + intros [e [He Hin]]. exists e.
      destruct (String.eqb (outcome_name (snd e)) "Moneyline"
                && truthy_string (odds (snd e)))%bool eqn:E;
        [|contradiction].
      apply andb_true_iff in E. destruct E as [E1 E2].
      apply String.eqb_eq in E1. destruct Hin as [<-|[]]. auto.
    + intros (e & He & E1 & E2 & ->). exists e. split; [assumption|].
      rewrite E1, E2. left. reflexivity.
  - intros e acc.
    destruct (String.eqb (outcome_name (snd e)) "Moneyline"
              && truthy_string (odds (snd e)))%bool;
      [reflexivity | rewrite app_nil_r; reflexivity].
Qed.

Lemma confident_above_ten_percent (v : num) :
  confident (calculateConfidence v) = (v >? Fin (1 # 10))%num.
Proof.
  unfold calculateConfidence.
  destruct (v >? Fin (15 # 100))%num eqn:E1.
  - symmetry. apply (gtb_trans _ _ _ E1). reflexivity.
  - destruct (v >? Fin (1 # 10))%num; reflexivity.
Qed.

Lemma gtb_nan_edge (d thr : num) (o : MoneylineOutcome) :
  (edge d o >? thr)%num = true -> is_nan (impliedProbability o) = false.
Proof.
  intros H. apply gtb_not_nan_l in H. unfold edge in H.
  destruct (impliedProbability o); [reflexivity..|].
  discriminate.
Qed.

(** X9. What the bot can buy.  An opportunity found in the stores
    recommends a moneyline outcome of its game whose odds string parsed
    to a number, with an edge above the configured threshold; and
    [evaluateOpportunity] places no order for it unless that edge is also
    above 0.10, the bound of medium confidence, whatever the configured
    threshold is: with an edge of 0.10 or less the ledger stays as it
    is, and no exchange request is started. *)
Theorem bought_edge_above_ten_percent :
  forall (now : Z) (st : OddsComparison.t) (o : Opportunity),
    In o (findTradingOpportunities now st) ->
    (edgeValue o >? valueThreshold st)%num = true
    /\ rec_tokenId (recommendation o) = tokenId (op_match o)
    /\ (exists e,
           outcome (valueAnalysis o) = moneylineOutcome e
           /\ outcome_name e = "Moneyline"%string
           /\ is_nan (Parse.parseFloat (odds e)) = false)
    /\ (forall (ex : Exchange.t) (now' : Z) (bot : TradingBot.t),
           (edgeValue o >? Fin (1 # 10))%num = false ->
           evaluateOpportunity ex now' o bot = bot)
    /\ (forall st' : Interleaved.t,
           (edgeValue o >? Fin (1 # 10))%num = false ->
           Interleaved.startEvaluate o st' = None).
Proof.
  intros now st o Ho.
  apply in_findTradingOpportunities in Ho.
  destruct Ho as (m & v & Hm & Hv & ->).
  apply calculateValue_retains in Hv.
  destruct Hv as (Hin & Hval & Hgt & _ & Hconf).
  apply in_findMatchingMarkets in Hm.
  destruct Hm as (ge & pe & _ & _ & E).
  rewrite compareMarkets_matchable in E.
  destruct (matchable (snd ge)); [|discriminate].
  injection E as <-. cbn [boltOdds polymarket pv_decimalOdds] in Hin, Hval.
  unfold edgeValue. cbn [opportunityOf valueAnalysis recommendation
                          rec_tokenId op_match tokenId].
  split; [exact Hgt|]. split; [reflexivity|]. split; [|split].
  - apply in_findMoneylineOutcomes in Hin.
    destruct Hin as (e & _ & Hname & _ & Hout).
    exists (snd e). split; [exact Hout|]. split; [exact Hname|].
    rewrite Hval in Hgt. apply gtb_nan_edge in Hgt.
    rewrite Hout in Hgt. cbn [moneylineOutcome impliedProbability] in Hgt.
    destruct (Parse.parseFloat (odds (snd e))); [reflexivity..|].
    discriminate.
  - intros ex now' bot Hlow. unfold evaluateOpportunity.
    cbn [valueAnalysis opportunityOf].
    rewrite Hconf, confident_above_ten_percent, Hlow.
    destruct (JSMap.has _ _); [reflexivity|].
    destruct (_ >=? _)%num; reflexivity.
  - intros st' Hlow. unfold Interleaved.startEvaluate.
    cbn [valueAnalysis opportunityOf].
    rewrite Hconf, confident_above_ten_percent, Hlow.
    destruct (JSMap.has _ _); [reflexivity|].
    destruct (_ >=? _)%num; reflexivity.
Qed.

Lemma bought_edge_above_ten_percent_witness :
  exists o,
    In o (findTradingOpportunities 10 Demo.stores)
    /\ (edgeValue o >? valueThreshold Demo.stores)%num = true
    /\ rec_tokenId (recommendation o) = tokenId (op_match o).
Proof.
  assert (H : exists o, In o (findTradingOpportunities 10 Demo.stores))
    by (eexists; vm_compute; left; reflexivity).
  destruct H as [o Ho]. exists o. split; [exact Ho|].
  destruct (@bought_edge_above_ten_percent 10 Demo.stores o Ho)
    as (Hgt & Htok & _).
  split; [exact Hgt | exact Htok].
Defined.

End TradeSelection.

(* ------------------------------------------------------------------------- *)
(** ** The feed connection under any sequence of events *)

Section ConnectionEvents.
Import BoltOddsClient.
Open Scope Z_scope.

(** One event sets at most one timer, that of the next attempt. *)
Lemma step_timer (c : t) (e : Event) :
  0 <= reconnectAttempts c <= maxReconnectAttempts c ->
  0 <= reconnectAttempts (step c e) <= maxReconnectAttempts c
  /\ maxReconnectAttempts (step c e) = maxReconnectAttempts c
  /\ reconnectDelay (step c e) = reconnectDelay c
  /\ (timers (step c e) = timers c
      \/ (triggers_reconnection e = true
          /\ reconnectAttempts c < maxReconnectAttempts c
          /\ timers (step c e)
             = timers c ++ [reconnectDelay c * 2 ^ reconnectAttempts c])).
Proof.
  intros Hb.
  assert (Hre : forall c0 : t,
             0 <= reconnectAttempts c0 <= maxReconnectAttempts c0 ->
             0 <= reconnectAttempts (handleReconnection c0)
               <= maxReconnectAttempts c0
             /\ maxReconnectAttempts (handleReconnection c0)
                = maxReconnectAttempts c0
             /\ reconnectDelay (handleReconnection c0) = reconnectDelay c0
             /\ (timers (handleReconnection c0) = timers c0
                 \/ (reconnectAttempts c0 < maxReconnectAttempts c0
                     /\ timers (handleReconnection c0)
                        = timers c0
                          ++ [reconnectDelay c0 * 2 ^ reconnectAttempts c0]))).
  { intros c0 H0. unfold handleReconnection.
    destruct (Z.geb_spec (reconnectAttempts c0) (maxReconnectAttempts c0)).
    - auto.
    - cbn [reconnectAttempts maxReconnectAttempts reconnectDelay timers].
      split; [lia|]. split; [reflexivity|]. split; [reflexivity|].
      right. split; [lia|].
      replace (reconnectAttempts c0 + 1 - 1) with (reconnectAttempts c0)
        by lia.
      reflexivity. }
  destruct e as [[|]| | | |]; cbn [step].
  - destruct (Hre c Hb) as (H1 & H2 & H3 & [H4|[H4 H5]]); auto 10.
  - cbn [reconnectAttempts maxReconnectAttempts reconnectDelay timers]. auto.
  - cbn [reconnectAttempts maxReconnectAttempts reconnectDelay timers].
    split; [lia|]. auto.
  - destruct (Hre (set_connected false c) Hb)
      as (H1 & H2 & H3 & [H4|[H4 H5]]); auto 10.
  - cbn [set_connected reconnectAttempts maxReconnectAttempts
           reconnectDelay timers]. auto.
  - destruct (hasSocket c);
      cbn [set_connected reconnectAttempts maxReconnectAttempts
             reconnectDelay timers]; auto.
Qed.

(** X10. Under any sequence of connection events (connection attempts
    that throw or not, sockets that open, close or fail, calls of
    [close()]), from a client whose attempt counter is within its
    bounds: the counter stays between 0 and the cap; cap and base delay
    are never changed; no timer is ever removed, and at most one is set
    per failed connection; every delay set is [base * 2 ^ k] with
    [0 <= k < cap], so no retry waits longer than
    [base * 2 ^ (cap - 1)]. *)
Theorem reconnection_bounded_under_any_events :
  forall (c : t) (es : list Event),
    0 <= reconnectAttempts c <= maxReconnectAttempts c ->
    let c' := steps es c in
    0 <= reconnectAttempts c' <= maxReconnectAttempts c
    /\ maxReconnectAttempts c' = maxReconnectAttempts c
    /\ reconnectDelay c' = reconnectDelay c
    /\ exists added,
         timers c' = timers c ++ added
         /\ (List.length added
             <= List.length (filter triggers_reconnection es))%nat
         /\ Forall (fun d => exists k,
                        0 <= k < maxReconnectAttempts c
                        /\ d = reconnectDelay c * 2 ^ k) added.
Proof.
  intros c es. revert c. unfold steps.
  induction es as [|e es IH]; intros c Hb; cbn [fold_left].
  - split; [exact Hb|]. split; [reflexivity|]. split; [reflexivity|].
    exists []. rewrite app_nil_r. split; [reflexivity|].
    split; [apply Nat.le_refl | constructor].
  - destruct (@step_timer c e Hb) as (H1 & H2 & H3 & H4).
    rewrite <- H2 in H1.
    destruct (IH (step c e) H1) as (I1 & I2 & I3 & added & I4 & I5 & I6).
    rewrite H2 in I1, I2. rewrite H3 in I3.
    split; [exact I1|]. split; [exact I2|]. split; [exact I3|].
    destruct H4 as [H4|(Ht & Hlt & H4)].
    + exists added. rewrite I4, H4. split; [reflexivity|]. split.
      * cbn [filter]. destruct (triggers_reconnection e); cbn [List.length]; lia.
      * rewrite H2, H3 in I6. exact I6.
    + exists ((reconnectDelay c * 2 ^ reconnectAttempts c) :: added).
      rewrite I4, H4, <- app_assoc. split; [reflexivity|]. split.
      * cbn [filter]. rewrite Ht. cbn [List.length]. lia.
      * constructor.
        -- exists (reconnectAttempts c). split; [lia | reflexivity].
        -- rewrite H2, H3 in I6. exact I6.
Qed.

Lemma reconnection_bounded_under_any_events_witness :
  let es := [Connect false; SocketOpened; SocketClosed; Connect true;
             CloseCalled; SocketClosed; Connect false; SocketOpened;
             SocketError; SocketClosed] in
  0 <= reconnectAttempts (steps es new) <= 10
  /\ timers (steps es new) = [5000; 10000; 20000; 5000].
Proof.
  intros es.
  destruct (@reconnection_bounded_under_any_events new es)
    as (Hb & _); [cbn; lia|].
  split; [exact Hb | reflexivity].
Defined.

(** Whether the client reports a connection has no influence on what
    an event does to the rest of its state. *)
Lemma step_set_connected (c : t) (e : Event) (b : bool) :
  exists b', step (set_connected b c) e = set_connected b' (step c e).
Proof.
  destruct c as [has con att cap base tm].
  destruct e as [[|]| | | |]; unfold step, handleReconnection, set_connected;
    cbn [hasSocket isConnected reconnectAttempts maxReconnectAttempts
           reconnectDelay timers].
  - destruct (att >=? cap); [exists b | exists b]; reflexivity.
  - exists b. reflexivity.
  - exists true. reflexivity.
  - destruct (att >=? cap); exists false; reflexivity.
  - exists false. reflexivity.
  - destruct has; [exists false | exists b]; reflexivity.
Qed.

Lemma steps_set_connected (es : list Event) (c : t) (b : bool) :
  exists b', steps es (set_connected b c) = set_connected b' (steps es c).
Proof.
  unfold steps. revert c b.
  induction es as [|e es IH]; intros c b; cbn [fold_left].
  - exists b. reflexivity.
  - destruct (step_set_connected c e b) as [b' ->]. apply IH.
Qed.

(** X11. [close()] does not end the reconnection policy.  A call of
    [close()] changes nothing but the reported connection state:
    whatever events follow, the timers set, the attempt counter and the
    socket are those of the same events without the call.  In
    particular the close event of the socket it closes runs
    [handleReconnection] as after any lost connection, and below the
    cap that sets the timer of the next attempt. *)
Theorem close_does_not_stop_reconnection :
  forall (c : t) (es : list Event),
    let closed := steps es (step c CloseCalled) in
    let kept := steps es c in
    timers closed = timers kept
    /\ reconnectAttempts closed = reconnectAttempts kept
    /\ hasSocket closed = hasSocket kept
    /\ (reconnectAttempts c < maxReconnectAttempts c ->
        timers (steps [CloseCalled; SocketClosed] c)
        = timers c ++ [reconnectDelay c * 2 ^ reconnectAttempts c]
        /\ reconnectAttempts (steps [CloseCalled; SocketClosed] c)
           = reconnectAttempts c + 1).
Proof.
  intros c es closed kept.
  assert (Hc : exists b, step c CloseCalled = set_connected b c).
  { destruct c as [has con att cap base tm]. cbn [step hasSocket].
    destruct has; [exists false | exists con]; reflexivity. }
  destruct Hc as [b Hc].
  destruct (steps_set_connected es c b) as [b' Hs].
  unfold closed, kept. rewrite Hc, Hs.
  split; [reflexivity|]. split; [reflexivity|]. split; [reflexivity|].
  intros Hlt. unfold steps. cbn [fold_left]. rewrite Hc.
  cbn [step]. unfold handleReconnection.
  cbn [set_connected reconnectAttempts maxReconnectAttempts reconnectDelay
         timers hasSocket isConnected].
  destruct (Z.geb_spec (reconnectAttempts c) (maxReconnectAttempts c));
    [lia|].
  cbn [timers reconnectAttempts].
  replace (reconnectAttempts c + 1 - 1) with (reconnectAttempts c) by lia.
  split; reflexivity.
Qed.

End ConnectionEvents.

(* ------------------------------------------------------------------------- *)
(** ** The subscription *)

Section SubscriptionFacts.
Import BoltOddsClient Subscription.

Lemma lastSent_push (c : BoltOddsClient.t) (f g : Filters)
    (l : list Filters) :
  lastSent (mkFeed c f (l ++ [g])) = Some g.
Proof.
  unfold lastSent. cbn [sent]. rewrite map_app. cbn [map].
  apply last_last.
Qed.

(** One event keeps the subscription in step, merges the filters it
    carries, and only ever adds to what was sent. *)
Lemma step_in_step (s : Subscription.t) (e : Subscription.Event)
    (has : bool) :
  hasSocket (client s) = has ->
  in_step s ->
  ordered has [e] = true ->
  in_step (Subscription.step s e)
  /\ hasSocket (client (Subscription.step s e))
     = match e with
       | Socket (Connect false) => true
       | _ => has
       end
  /\ subscriptionFilters (Subscription.step s e)
     = fold_left merge (patches [e]) (subscriptionFilters s).
Proof.
  intros Hhas Hin Hord. unfold in_step in *.
  destruct s as [[hs con att cap base tm] f l].
  cbn [client hasSocket isConnected subscriptionFilters] in *.
  subst hs.
  destruct e as [[[|]| | | |]|p]; cbn [ordered] in Hord;
    unfold Subscription.step, BoltOddsClient.step, handleReconnection,
      set_connected, subscribe, updateSubscription;
    cbn [client hasSocket isConnected reconnectAttempts
           maxReconnectAttempts reconnectDelay timers subscriptionFilters
           sent patches flat_map app fold_left negb orb andb].
  - destruct (att >=? cap)%Z;
      cbn [client hasSocket isConnected subscriptionFilters]; auto.
  - split; [|split; reflexivity].
    cbn [client hasSocket isConnected subscriptionFilters].
    intros Hc. destruct (Hin Hc) as [-> Hl]. auto.
  - rewrite andb_true_r in Hord. subst has. cbn [negb orb].
    split; [|split; reflexivity].
    cbn [client hasSocket isConnected subscriptionFilters].
    intros _. split; [reflexivity | apply lastSent_push].
  - destruct (att >=? cap)%Z;
      cbn [client hasSocket isConnected subscriptionFilters];
      (split; [discriminate | split; reflexivity]).
  - cbn [client hasSocket isConnected subscriptionFilters].
    split; [discriminate | split; reflexivity].
  - destruct has;
      cbn [client hasSocket isConnected subscriptionFilters];
      (split; [|split; reflexivity]); [discriminate | exact Hin].
  - destruct con; [destruct (Hin eq_refl) as [-> Hl]|]; cbn [andb];
      cbn [client hasSocket isConnected subscriptionFilters];
      (split; [|split; reflexivity]).
    + intros _. split; [reflexivity | apply lastSent_push].
    + discriminate.
Qed.

Lemma ordered_cons (has : bool) (e : Subscription.Event)
    (es : list Subscription.Event) :
  ordered has (e :: es) = true ->
  ordered has [e] = true
  /\ ordered match e with
             | Socket (Connect false) => true
             | _ => has
             end es = true.
Proof.
  destruct e as [[[|]| | | |]|p]; cbn [ordered]; auto;
    rewrite !andb_true_iff; tauto.
Qed.

Lemma steps_in_step (es : list Subscription.Event) (s : Subscription.t)
    (has : bool) :
  hasSocket (client s) = has ->
  in_step s ->
  ordered has es = true ->
  in_step (Subscription.steps es s)
  /\ subscriptionFilters (Subscription.steps es s)
     = fold_left merge (patches es) (subscriptionFilters s).
Proof.
  unfold Subscription.steps. revert s has.
  induction es as [|e es IH]; intros s has Hhas Hin Hord.
  - auto.
  - apply ordered_cons in Hord. destruct Hord as [H1 H2].
    destruct (step_in_step e Hhas Hin H1) as (S1 & S2 & S3).
    destruct (IH _ _ S2 S1 H2) as [I1 I2].
    cbn [fold_left]. split; [exact I1|].
    rewrite I2, S3. unfold patches. cbn [flat_map].
    rewrite app_nil_r, fold_left_app. reflexivity.
Qed.

(** X12. The subscription follows the filters.  After any sequence of
    socket events and calls of [updateSubscription] on a new client (a
    socket event needs a socket, so none comes before the first
    [connect]): the filters are the defaults with every change merged in
    order, whether or not the client was connected when it was asked
    for; and whenever the client reports a connection, the last
    subscribe message sent carries exactly these filters, so a change
    made while disconnected is sent by the next [open]. *)
Theorem subscription_follows_filters :
  forall es : list Subscription.Event,
    ordered false es = true ->
    let s := Subscription.steps es Subscription.new in
    subscriptionFilters s = fold_left merge (patches es) defaultFilters
    /\ (isConnected (client s) = true ->
        lastSent s = Some (subscriptionFilters s)).
Proof.
  intros es Hord s.
  destruct (@steps_in_step es Subscription.new false eq_refl) as [H1 H2].
  - intros H. discriminate.
  - exact Hord.
  - split; [exact H2|]. intros Hc. destruct (H1 Hc) as [_ Hl]. exact Hl.
Qed.

Lemma subscription_follows_filters_witness :
  let es := [Update (mkPatch None (Some ["book"%string]) None None);
             Socket (Connect false); Socket SocketOpened;
             Socket SocketClosed;
             Update (mkPatch None None None (Some ["Moneyline"%string]));
             Socket (Connect false); Socket SocketOpened] in
  ordered false es = true
  /\ lastSent (Subscription.steps es Subscription.new)
     = Some (mkFilters ["NHL"%string] ["book"%string] []
                       ["Moneyline"%string]).
Proof.
  intros es.
  assert (Hord : ordered false es = true) by reflexivity.
  split; [exact Hord|].
  destruct (@subscription_follows_filters es Hord) as [_ H].
  apply H. reflexivity.
Defined.

End SubscriptionFacts.

(* ------------------------------------------------------------------------- *)
(** ** The trail of orders *)

Section OrderTrail.
Import Exchange TradingBot Accounting.

Lemma app_last_split (A : Type) (l before after : list A) (x y : A) :
  l ++ [x] = before ++ y :: after ->
  (after = [] /\ x = y /\ l = before)
  \/ exists after', after = after' ++ [x] /\ l = before ++ y :: after'.
Proof.
  intros E. destruct after as [|z after].
  - apply app_inj_tail in E. destruct E as [-> ->]. auto.
  - destruct (@exists_last _ (z :: after)) as (after' & w & Hw);
      [discriminate|].
    rewrite Hw in E.
    change (before ++ y :: after' ++ [w])
      with (before ++ (y :: after') ++ [w]) in E.
    rewrite app_assoc in E. apply app_inj_tail in E.
    destruct E as [-> ->]. right. exists after'. rewrite Hw. auto.
Qed.

Lemma backed_more (history : list HistoryEntry) (h : HistoryEntry)
    (tok : string) (p : Position) :
  backed history tok p -> backed (history ++ [h]) tok p.
Proof.
  intros (p0 & res & Hin & H). exists p0, res.
  split; [apply in_or_app; left; exact Hin | exact H].
Qed.

Lemma evaluateOpportunity_trail (ex : Exchange.t) (now : Z)
    (opp : OddsComparison.Opportunity) (bot : TradingBot.t) :
  trail_ok bot -> trail_ok (evaluateOpportunity ex now opp bot).
Proof.
  intros [Hback Hsell]. unfold evaluateOpportunity.
  destruct (JSMap.has _ _); [split; assumption|].
  destruct (_ >=? _)%num; [split; assumption|].
  destruct (confident _); [|split; assumption].
  unfold executeBuyOrder.
  destruct (getOrderbook ex _) as [ob|]; [|split; assumption].
  destruct (first_level (asks ob)) as [ask|]; [|split; assumption].
  destruct (buyContract ex _ _ _) as [res|]; [|split; assumption].
  split; cbn [activePositions tradingHistory with_ledger].
  - intros tok p Hin. apply in_set in Hin.
    destruct Hin as [[= -> ->]|Hin].
    + eexists _, res. split; [apply in_or_app; right; left; reflexivity|].
      cbn [pos_tokenId pos_orderId buyTime pos_price]. auto.
    + apply backed_more. eauto.
  - intros before tok a pr time res' after E.
    apply app_last_split in E.
    destruct E as [(_ & E & _)|(after' & _ & E)]; [discriminate|].
    eapply Hsell. exact E.
Qed.

Lemma sellPosition_trail (ex : Exchange.t) (now : Z) (tok : string)
    (req : option num) (bot : TradingBot.t) :
  trail_ok bot -> trail_ok (fst (sellPosition ex now tok req bot)).
Proof.
  intros [Hback Hsell]. unfold sellPosition.
  destruct (JSMap.get tok (activePositions bot)) as [p|] eqn:Hget;
    [|split; assumption].
  destruct (getOrderbook ex tok) as [ob|]; [|split; assumption].
  destruct (first_level (bids ob)) as [bid|]; [|split; assumption].
  destruct (sellContract ex _ _ _) as [res|]; [|split; assumption].
  apply get_in in Hget. pose proof (Hback _ _ Hget) as Hp.
  cbn [fst]. split; cbn [activePositions tradingHistory with_ledger].
  - intros tok' p' Hin. apply backed_more.
    destruct (amount (sold p (sellAmountOf req p) (level_price bid) now)
              <=? Fin 0)%num.
    + apply in_delete in Hin. eauto.
    + apply in_set in Hin. destruct Hin as [[= -> ->]|Hin]; [|eauto].
      destruct Hp as (p0 & res0 & Hin0 & H). exists p0, res0.
      split; [exact Hin0 | exact H].
  - intros before tok' a pr time res' after E.
    apply app_last_split in E.
    destruct E as [(_ & E & <-)|(after' & _ & E)].
    + injection E as <- _ _ _ _.
      destruct Hp as (p0 & res0 & Hin0 & Htok & _). eauto.
    + eapply Hsell. exact E.
Qed.

Lemma run_trail (ops : list Op) (bot : TradingBot.t) :
  trail_ok bot -> trail_ok (run ops bot).
Proof.
  unfold run. revert bot.
  induction ops as [|op ops IH]; intros bot H; cbn [fold_left];
    [assumption|].
  apply IH. destruct op; cbn [perform].
  - apply evaluateOpportunity_trail. assumption.
  - apply sellPosition_trail. assumption.
Qed.

Lemma perform_history (op : Op) (bot : TradingBot.t) :
  exists added,
    tradingHistory (perform bot op) = tradingHistory bot ++ added.
Proof.
  destruct op as [ex now opp|ex now tok req]; cbn [perform].
  - unfold evaluateOpportunity, executeBuyOrder.
    destruct (JSMap.has _ _);
      [exists []; rewrite app_nil_r; reflexivity|].
    destruct (_ >=? _)%num; [exists []; rewrite app_nil_r; reflexivity|].
    destruct (confident _); [|exists []; rewrite app_nil_r; reflexivity].
    destruct (getOrderbook ex _) as [ob|];
      [|exists []; rewrite app_nil_r; reflexivity].
    destruct (first_level (asks ob)) as [ask|];
      [|exists []; rewrite app_nil_r; reflexivity].
    destruct (buyContract ex _ _ _) as [res|];
      [|exists []; rewrite app_nil_r; reflexivity].
    eexists. reflexivity.
  - unfold sellPosition.
    destruct (JSMap.get tok (activePositions bot)) as [p|];
      [|exists []; rewrite app_nil_r; reflexivity].
    destruct (getOrderbook ex tok) as [ob|];
      [|exists []; rewrite app_nil_r; reflexivity].
    destruct (first_level (bids ob)) as [bid|];
      [|exists []; rewrite app_nil_r; reflexivity].
    destruct (sellContract ex _ _ _) as [res|];
      [|exists []; rewrite app_nil_r; reflexivity].
    eexists. reflexivity.
Qed.

(** X13. The history is a trail of the orders placed.  In any ledger a
    new bot reaches by calls of [evaluateOpportunity] and [sellPosition]
    taken one after the other: every active position is backed by a buy
    entry of the history with its token, order id, entry time and entry
    price; every sell entry comes after a buy entry of its token; and
    whatever calls follow, the history only grows at its end. *)
Theorem history_is_a_trail :
  forall (ops : list Op) (size : num) (enabled : bool) (thr : num),
    let bot := run ops (TradingBot.new size enabled thr) in
    (forall tok p,
        JSMap.get tok (activePositions bot) = Some p ->
        backed (tradingHistory bot) tok p)
    /\ sellsFollowBuys (tradingHistory bot)
    /\ (forall more,
           exists added,
             tradingHistory (run more bot) = tradingHistory bot ++ added).
Proof.
  intros ops size enabled thr bot.
  assert (H : trail_ok bot).
  { apply run_trail. split.
    - intros tok p [].
    - intros before tok a pr time res after E.
      destruct before; discriminate. }
  destruct H as [Hback Hsell].
  split; [|split; [exact Hsell|]].
  - intros tok p Hget. apply Hback. apply get_in. exact Hget.
  - intros more. generalize bot. unfold run.
    induction more as [|op more IH]; intros b; cbn [fold_left].
    + exists []. rewrite app_nil_r. reflexivity.
    + destruct (IH (perform b op)) as [added Ha].
      destruct (perform_history op b) as [added0 Hb].
      exists (added0 ++ added). rewrite Ha, Hb, app_assoc. reflexivity.
Qed.

End OrderTrail.

(* ------------------------------------------------------------------------- *)
(** ** Exposure *)

Section Exposure.
Import Exchange TradingBot Accounting.

Lemma exposure_cons (e : string * Position) (m : JSMap.t Position) :
  exposure (e :: m) = (amountQ (snd e) + exposure m)%Q.
Proof. reflexivity. Qed.

Lemma total_exposure (m : JSMap.t Position) (acc : Q) :
  positive m ->
  exists t,
    fold_left (fun total p => (total + amount p)%num) (JSMap.values m)
              (Fin acc) = Fin t
    /\ (t == acc + exposure m)%Q.
Proof.
  revert acc. induction m as [|[k p] m IH]; intros acc H.
  - exists acc. split; [reflexivity|]. cbn [exposure fold_right]. lra.
  - inversion H as [|? ? (q & Hq & Hpos) Hm]; subst. cbn [snd] in Hq.
    cbn [JSMap.values map snd fold_left]. rewrite Hq. cbn [add].
    destruct (IH (acc + q)%Q Hm) as (t & Ht & Et).
    exists t. split; [exact Ht|].
    rewrite exposure_cons. cbn [snd]. unfold amountQ. rewrite Hq. lra.
Qed.

Lemma exposure_nonneg (m : JSMap.t Position) :
  positive m -> (0 <= exposure m)%Q.
Proof.
  induction m as [|[k p] m IH]; intros H.
  - apply Qle_refl.
  - inversion H as [|? ? (q & Hq & Hpos) Hm]; subst. cbn [snd] in *.
    rewrite exposure_cons. cbn [snd]. specialize (IH Hm).
    unfold amountQ. rewrite Hq. lra.
Qed.

Lemma set_absent (V : Type) (m : JSMap.t V) (k : string) (v : V) :
  JSMap.has k m = false -> JSMap.set k v m = m ++ [(k, v)].
Proof.
  unfold JSMap.has.
  induction m as [|[k0 v0] m IH]; cbn [JSMap.get JSMap.set app];
    [reflexivity|].
  destruct (String.eqb k k0); [discriminate|].
  intros H. rewrite IH by exact H. reflexivity.
Qed.

Lemma exposure_app (m : JSMap.t Position) (e : string * Position) :
  (exposure (m ++ [e]) == exposure m + amountQ (snd e))%Q.
Proof.
  induction m as [|x m IH]; cbn [app].
  - rewrite exposure_cons. cbn [exposure fold_right]. lra.
  - rewrite !exposure_cons, IH. lra.
Qed.

Lemma exposure_delete (m : JSMap.t Position) (k : string) :
  positive m ->
  positive (JSMap.delete k m)
  /\ (exposure (JSMap.delete k m) <= exposure m)%Q.
Proof.
  unfold JSMap.delete.
  induction m as [|[k0 p] m IH]; intros H; cbn [filter].
  - split; [constructor | apply Qle_refl].
  - inversion H as [|? ? (q & Hq & Hpos) Hm]; subst.
    destruct (IH Hm) as [I1 I2]. cbn [fst snd] in *.
    destruct (negb (String.eqb k k0)).
    + split; [constructor; [exists q; auto | exact I1]|].
      rewrite !exposure_cons. lra.
    + split; [exact I1|]. rewrite exposure_cons. cbn [snd].
      unfold amountQ. rewrite Hq. lra.
Qed.

Lemma exposure_set (m : JSMap.t Position) (k : string) (p p' : Position)
    (q' : Q) :
  positive m ->
  JSMap.get k m = Some p ->
  amount p' = Fin q' -> (0 < q')%Q -> (q' <= amountQ p)%Q ->
  positive (JSMap.set k p' m)
  /\ (exposure (JSMap.set k p' m) <= exposure m)%Q.
Proof.
  intros H Hget Hq' Hpos' Hle. revert H Hget.
  induction m as [|[k0 p0] m IH]; intros H Hget;
    cbn [JSMap.get JSMap.set] in *; [discriminate|].
  inversion H as [|? ? Hp0 Hm]; subst.
  destruct (String.eqb k k0).
  - injection Hget as ->. split.
    + constructor; [exists q'; auto | exact Hm].
    + rewrite !exposure_cons. cbn [snd].
      unfold amountQ at 1. rewrite Hq'. lra.
  - destruct (IH Hm Hget) as [I1 I2]. split.
    + constructor; assumption.
    + rewrite !exposure_cons. lra.
Qed.

Lemma tradeSize_bounds (cap : Q) :
  (tradeSize cap <= cap * (1 # 10))%Q /\ (tradeSize cap <= 50)%Q
  /\ ((0 < cap)%Q -> (0 < tradeSize cap)%Q).
Proof.
  unfold tradeSize. destruct (Qltb 50 (cap * (1 # 10))) eqn:E.
  - apply Qltb_lt in E. split; [lra|]. split; [lra|]. intros _. lra.
  - apply Qltb_ge in E. split; [lra|]. split; [lra|]. intros H. lra.
Qed.

Lemma positionSize_finite (bot : TradingBot.t) (cap : Q) :
  maxPositionSize bot = Fin cap -> positionSize bot = Fin (tradeSize cap).
Proof.
  intros H. unfold positionSize, tradeSize. rewrite H. cbn [mul min ltb].
  destruct (Qltb 50 (cap * (1 # 10))); reflexivity.
Qed.

Lemma evaluateOpportunity_exposure (ex : Exchange.t) (now : Z)
    (opp : OddsComparison.Opportunity) (bot : TradingBot.t) (cap : Q) :
  maxPositionSize bot = Fin cap ->
  positive (activePositions bot) ->
  (exposure (activePositions bot) <= cap + tradeSize cap)%Q ->
  let bot' := evaluateOpportunity ex now opp bot in
  maxPositionSize bot' = Fin cap
  /\ positive (activePositions bot')
  /\ (exposure (activePositions bot') <= cap + tradeSize cap)%Q.
Proof.
  intros Hcap Hpos Hexp. unfold evaluateOpportunity.
  destruct (JSMap.has _ _) eqn:Hhas; [auto|].
  destruct (_ >=? _)%num eqn:Hguard; [auto|].
  destruct (confident _); [|auto].
  unfold executeBuyOrder.
  destruct (getOrderbook ex _) as [ob|]; [|auto].
  destruct (first_level (asks ob)) as [ask|]; [|auto].
  destruct (buyContract ex _ _ _) as [res|]; [|auto].
  cbn zeta. cbn [with_ledger maxPositionSize activePositions].
  split; [exact Hcap|].
  rewrite (@set_absent _ _ _ _ Hhas).
  unfold getTotalPositionValue in Hguard.
  destruct (total_exposure 0 Hpos) as (t & Ht & Et).
  rewrite Ht, Hcap in Hguard. unfold geb in Hguard. cbn [leb] in Hguard.
  assert (Hlt : (t < cap)%Q).
  { apply Qnot_le_lt. intros K. apply Qle_bool_iff in K. congruence. }
  pose proof (exposure_nonneg Hpos) as Hnn.
  destruct (tradeSize_bounds cap) as (_ & _ & Hsz).
  assert (Hs : (0 < tradeSize cap)%Q) by (apply Hsz; lra).
  split.
  - apply Forall_app. split; [exact Hpos|]. constructor; [|constructor].
    exists (tradeSize cap). cbn [snd amount].
    split; [apply positionSize_finite; exact Hcap | exact Hs].
  - rewrite exposure_app. cbn [snd]. unfold amountQ. cbn [amount].
    rewrite (positionSize_finite bot Hcap). lra.
Qed.

Lemma sellPosition_exposure (ex : Exchange.t) (now : Z) (tok : string)
    (req : option num) (bot : TradingBot.t) (bound : Q) :
  sellsNothingNegative (OpSell ex now tok req) = true ->
  positive (activePositions bot) ->
  (exposure (activePositions bot) <= bound)%Q ->
  let bot' := fst (sellPosition ex now tok req bot) in
  maxPositionSize bot' = maxPositionSize bot
  /\ positive (activePositions bot')
  /\ (exposure (activePositions bot') <= bound)%Q.
Proof.
  intros Hreq Hpos Hexp. unfold sellPosition.
  destruct (JSMap.get tok (activePositions bot)) as [p|] eqn:Hget; [|auto].
  destruct (getOrderbook ex tok) as [ob|]; [|auto].
  destruct (first_level (bids ob)) as [bid|]; [|auto].
  destruct (sellContract ex _ _ _) as [res|]; [|auto].
  cbn zeta. cbn [fst with_ledger maxPositionSize activePositions].
  split; [reflexivity|].
  destruct (amount (sold p (sellAmountOf req p) (level_price bid) now)
            <=? Fin 0)%num eqn:E.
  - destruct (exposure_delete tok Hpos) as [D1 D2]. split; [exact D1 | lra].
  - assert (Hp : exists a, amount p = Fin a /\ (0 < a)%Q).
    { unfold positive in Hpos. rewrite Forall_forall in Hpos.
      apply (Hpos (tok, p)). apply get_in. exact Hget. }
    destruct Hp as (a & Ha & Hapos).
    assert (Hrem : exists q',
               amount (sold p (sellAmountOf req p) (level_price bid) now)
               = Fin q' /\ (0 < q')%Q /\ (q' <= a)%Q).
    { unfold sold in *. cbn [amount] in *. rewrite Ha in *.
      assert (Hwhole : (Fin a - Fin a <=? Fin 0)%num = true).
      { cbn [sub neg add leb]. apply Qle_bool_iff. lra. }
      unfold sellAmountOf in *.
      destruct req as [r|]; [|rewrite Ha in E; congruence].
      destruct (truthy r) eqn:Htr; [|rewrite Ha in E; congruence].
      cbn [sellsNothingNegative] in Hreq. apply negb_true_iff in Hreq.
      destruct r as [r| | |]; cbn [sub neg add leb ltb truthy] in *;
        try discriminate.
      apply Qltb_ge in Hreq.
      exists (a + - r)%Q. split; [reflexivity|].
      assert (Hgt : (0 < a + - r)%Q).
      { apply Qnot_le_lt. intros K. apply Qle_bool_iff in K. congruence. }
      split; [exact Hgt | lra]. }
    destruct Hrem as (q' & Hq' & Hq'pos & Hq'le).
    assert (Hle : (q' <= amountQ p)%Q) by (unfold amountQ; rewrite Ha; exact Hq'le).
    destruct (@exposure_set _ _ _ _ _ Hpos Hget Hq' Hq'pos Hle) as [S1 S2].
    split; [exact S1 | lra].
Qed.

(** X14. Exposure stays within the cap plus one trade.  With a finite
    cap of 0 or more, calls of [evaluateOpportunity] and [sellPosition]
    taken one after the other from a new bot, and no sell asked with an
    amount below 0: every active position has a finite amount above 0,
    and [getTotalPositionValue] is a finite total between 0 and the cap
    plus the size of one trade, which is a tenth of the cap and at most
    50.  (The test against the cap is made before a buy, on the total
    without it.) *)
Theorem exposure_within_cap_plus_one_trade :
  forall (ops : list Op) (cap : Q) (enabled : bool) (thr : num),
    (0 <= cap)%Q ->
    forallb sellsNothingNegative ops = true ->
    let bot := run ops (TradingBot.new (Fin cap) enabled thr) in
    positive (activePositions bot)
    /\ exists t,
         getTotalPositionValue bot = Fin t
         /\ (0 <= t)%Q
         /\ (t <= cap + tradeSize cap)%Q
         /\ (tradeSize cap <= cap * (1 # 10))%Q
         /\ (tradeSize cap <= 50)%Q.
Proof.
  intros ops cap enabled thr Hcap Hops bot.
  assert (H : maxPositionSize bot = Fin cap
              /\ positive (activePositions bot)
              /\ (exposure (activePositions bot) <= cap + tradeSize cap)%Q).
  { unfold bot, run.
    assert (H0 : maxPositionSize (TradingBot.new (Fin cap) enabled thr)
                 = Fin cap
                 /\ positive (activePositions
                                (TradingBot.new (Fin cap) enabled thr))
                 /\ (exposure (activePositions
                                 (TradingBot.new (Fin cap) enabled thr))
                     <= cap + tradeSize cap)%Q).
    { split; [reflexivity|]. split; [constructor|].
      cbn [TradingBot.new activePositions exposure fold_right JSMap.empty].
      destruct (Qlt_le_dec 0 cap) as [K|K].
      - destruct (tradeSize_bounds cap) as (_ & _ & Hs).
        specialize (Hs K). lra.
      - assert (E : (cap == 0)%Q) by lra.
        unfold tradeSize.
        destruct (Qltb 50 (cap * (1 # 10))) eqn:E'.
        + lra.
        + lra. }
    revert H0. generalize (TradingBot.new (Fin cap) enabled thr).
    induction ops as [|op ops IH]; intros b H0; cbn [fold_left];
      [exact H0|].
    cbn [forallb] in Hops. apply andb_true_iff in Hops.
    destruct Hops as [Hop Hops].
    apply (IH Hops). destruct H0 as (B1 & B2 & B3).
    destruct op as [ex now opp|ex now tok req]; cbn [perform].
    - apply evaluateOpportunity_exposure; assumption.
    - destruct (sellPosition_exposure ex now tok req b Hop B2 B3)
        as (S1 & S2 & S3).
      split; [rewrite S1; exact B1 | auto]. }
  destruct H as (H1 & H2 & H3).
  split; [exact H2|].
  destruct (total_exposure 0 H2) as (t & Ht & Et).
  pose proof (exposure_nonneg H2) as Hnn.
  destruct (tradeSize_bounds cap) as (T1 & T2 & _).
  exists t. split; [exact Ht|]. split; [lra|]. split; [lra|].
  split; assumption.
Qed.

Lemma exposure_within_cap_plus_one_trade_witness :
  forallb sellsNothingNegative Demo.ops = true
  /\ exists t,
       getTotalPositionValue
         (run Demo.ops (TradingBot.new (Fin 100) true (Fin (1 # 10))))
       = Fin t
       /\ (t <= 100 + 10)%Q.
Proof.
  split; [reflexivity|].
  destruct (@exposure_within_cap_plus_one_trade Demo.ops 100 true
              (Fin (1 # 10)))
    as (_ & t & Ht & _ & Hle & Hs & _);
    [discriminate | reflexivity |].
  exists t. split; [exact Ht|]. lra.
Defined.

End Exposure.

(* ------------------------------------------------------------------------- *)
(** ** The amount asked of a sell *)

Section SellAmounts.
Import Exchange TradingBot.

(** X15. What the amount passed to [sellPosition] means, for a position
    with a finite amount [a] above 0, a bid in the book and an exchange
    that accepts the order.  No amount, an amount of 0 and an amount that
    is not a number all sell the whole position: the order and the
    history entry carry [a] and the position leaves the active set.  An
    amount below 0 is neither refused nor read as its absolute value:
    the order and the history entry carry it as it is, and the position
    stays active with an amount that has grown by it. *)
Theorem sell_amount_edge_cases :
  forall (ex : Exchange.t) (now : Z) (tok : string) (bot : TradingBot.t)
         (p : Position) (a : Q) (ob : Orderbook) (bid : Level),
    JSMap.get tok (activePositions bot) = Some p ->
    amount p = Fin a -> (0 < a)%Q ->
    getOrderbook ex tok = Resolved ob ->
    first_level (bids ob) = Some bid ->
    (forall s, exists res,
        sellContract ex tok s (level_price bid) = Resolved res) ->
    (forall req,
        req = None \/ req = Some NaN
        \/ (exists z, req = Some (Fin z) /\ (z == 0)%Q) ->
        exists res,
          snd (sellPosition ex now tok req bot) = Sold res
          /\ JSMap.get tok
               (activePositions (fst (sellPosition ex now tok req bot)))
             = None
          /\ tradingHistory (fst (sellPosition ex now tok req bot))
             = tradingHistory bot
               ++ [Sell tok (Fin a) (level_price bid) now res])
    /\ (forall r,
           (r < 0)%Q ->
           exists res p',
             snd (sellPosition ex now tok (Some (Fin r)) bot) = Sold res
             /\ JSMap.get tok
                  (activePositions
                     (fst (sellPosition ex now tok (Some (Fin r)) bot)))
                = Some p'
             /\ amount p' = Fin (a + - r) /\ (a < a + - r)%Q
             /\ status p' = status p
             /\ tradingHistory
                  (fst (sellPosition ex now tok (Some (Fin r)) bot))
                = tradingHistory bot
                  ++ [Sell tok (Fin r) (level_price bid) now res]).
Proof.
  intros ex now tok bot p a ob bid Hget Ha Hpos Hob Hbid Hsell. split.
  - intros req Hreq.
    assert (Hs : sellAmountOf req p = Fin a).
    { unfold sellAmountOf.
      destruct Hreq as [->|[->|(z & -> & Hz)]]; [exact Ha | exact Ha|].
      cbn [truthy]. apply Qeq_bool_iff in Hz. rewrite Hz. exact Ha. }
    destruct (Hsell (Fin a)) as [res Hres].
    exists res.
    assert (Hz : (Fin a - Fin a <=? Fin 0)%num = true).
    { cbn [sub neg add leb]. apply Qle_bool_iff. lra. }
    assert (Hrun : sellPosition ex now tok req bot
                   = (with_ledger bot (JSMap.delete tok (activePositions bot))
                        (tradingHistory bot
                         ++ [Sell tok (Fin a) (level_price bid) now res]),
                      Sold res)).
    { unfold sellPosition. rewrite Hget, Hob, Hbid, Hs, Hres.
      unfold sold at 1. cbn [amount]. rewrite Ha, Hz. reflexivity. }
    rewrite Hrun. cbn [fst snd with_ledger activePositions tradingHistory].
    split; [reflexivity|]. split; [|reflexivity].
    rewrite get_delete, String.eqb_refl. reflexivity.
  - intros r Hr.
    assert (Hs : sellAmountOf (Some (Fin r)) p = Fin r).
    { unfold sellAmountOf. cbn [truthy].
      destruct (Qeq_bool r 0) eqn:E; [|reflexivity].
      apply Qeq_bool_iff in E. lra. }
    destruct (Hsell (Fin r)) as [res Hres].
    exists res, (sold p (Fin r) (level_price bid) now).
    assert (Hrem : amount (sold p (Fin r) (level_price bid) now)
                   = Fin (a + - r)).
    { unfold sold. cbn [amount]. rewrite Ha. reflexivity. }
    assert (Hnz : (Fin (a + - r) <=? Fin 0)%num = false).
    { cbn [leb]. destruct (Qle_bool (a + - r) 0) eqn:E; [|reflexivity].
      apply Qle_bool_iff in E. lra. }
    assert (Hrun : sellPosition ex now tok (Some (Fin r)) bot
                   = (with_ledger bot
                        (JSMap.set tok (sold p (Fin r) (level_price bid) now)
                                   (activePositions bot))
                        (tradingHistory bot
                         ++ [Sell tok (Fin r) (level_price bid) now res]),
                      Sold res)).
    { unfold sellPosition. rewrite Hget, Hob, Hbid, Hs, Hres.
      cbn zeta. rewrite Hrem, Hnz. reflexivity. }
    rewrite Hrun. cbn [fst snd with_ledger activePositions tradingHistory].
    split; [reflexivity|].
    split; [rewrite get_set, String.eqb_refl; reflexivity|].
    split; [exact Hrem|]. split; [lra|]. split; [|reflexivity].
    unfold sold. cbn [status amount]. rewrite Ha.
    change (Fin a - Fin r)%num with (Fin (a + - r)). rewrite Hnz.
    reflexivity.
Qed.

Lemma sell_amount_edge_cases_witness :
  exists res p',
    snd (sellPosition Demo.exchange 50 "token-3" (Some (Fin (-5))) Demo.bot)
    = Sold res
    /\ JSMap.get "token-3"
         (activePositions
            (fst (sellPosition Demo.exchange 50 "token-3" (Some (Fin (-5)))
                               Demo.bot)))
       = Some p'
    /\ amount p' = Fin ((100 # 10) + - (-5)).
Proof.
  assert (Hget : exists p,
             JSMap.get "token-3" (activePositions Demo.bot) = Some p
             /\ amount p = Fin (100 # 10))
    by (eexists; split; vm_compute; reflexivity).
  destruct Hget as (p & Hget & Ha).
  destruct (@sell_amount_edge_cases Demo.exchange 50 "token-3" Demo.bot p
              (100 # 10) Demo.book (mkLevel (Fin (29 # 100)))
              Hget Ha eq_refl eq_refl eq_refl)
    as [_ Hneg].
  - intros s. eexists. reflexivity.
  - destruct (Hneg (-5)%Q eq_refl) as (res & p' & H1 & H2 & H3 & _).
    exists res, p'. auto.
Defined.

End SellAmounts.

(* ------------------------------------------------------------------------- *)
(** ** Calls in flight together *)

Section InFlight.
Import Exchange TradingBot Interleaved Schedules.

Lemma play_app (a b : list Action) (c : Config) :
  play (a ++ b) c = play b (play a c).
Proof. unfold play. apply fold_left_app. Qed.

(** Calls of [evaluateOpportunity] change nothing of the ledger before
    the exchange answers: each is tested on the ledger as it is. *)
Lemma play_calls (opps : list OddsComparison.Opportunity) (c : Config) :
  play (map CallEvaluate opps) c
  = mkConfig (state c)
             (pending c
              ++ flat_map (fun o => spawn (startEvaluate o (state c))) opps).
Proof.
  unfold play. revert c.
  induction opps as [|o opps IH]; intros c; cbn [map fold_left flat_map].
  - rewrite app_nil_r. destruct c; reflexivity.
  - rewrite IH. cbn [act state pending]. rewrite <- app_assoc. reflexivity.
Qed.

Lemma play_sells (sells : list (string * option num)) (c : Config) :
  play (map (fun a : string * option num => CallSell (fst a) (snd a)) sells) c
  = mkConfig (state c)
             (pending c
              ++ flat_map
                   (fun a : string * option num =>
                      spawn (taskOf (startSell (fst a) (snd a) (state c))))
                   sells).
Proof.
  unfold play. revert c.
  induction sells as [|a sells IH]; intros c; cbn [map fold_left flat_map].
  - rewrite app_nil_r. destruct c; reflexivity.
  - rewrite IH. cbn [act state pending]. rewrite <- app_assoc. reflexivity.
Qed.

Lemma startEvaluate_passes (o : OddsComparison.Opportunity) (st : Interleaved.t) :
  startEvaluate o st
  = if passes st o then Some (BuyAwaitsBook o (positionSize (view st)))
    else None.
Proof.
  unfold startEvaluate, passes.
  destruct (JSMap.has (tokenOf o) (active st)); [reflexivity|].
  destruct (_ >=? _)%num; [reflexivity|].
  destruct (confident _); reflexivity.
Qed.

Lemma spawned_passes (opps : list OddsComparison.Opportunity)
    (st : Interleaved.t) :
  flat_map (fun o => spawn (startEvaluate o st)) opps
  = map (fun o => BuyAwaitsBook o (positionSize (view st)))
        (filter (passes st) opps).
Proof.
  induction opps as [|o opps IH]; cbn [flat_map filter]; [reflexivity|].
  rewrite IH, startEvaluate_passes.
  destruct (passes st o); reflexivity.
Qed.

Lemma books_answered (book : Orderbook) (ask : Level) (size : num)
    (chosen : list OddsComparison.Opportunity) (st : Interleaved.t)
    (done : list Task) :
  first_level (asks book) = Some ask ->
  play (repeat (AnswerBook 0 (Resolved book)) (List.length chosen))
       (mkConfig st (map (fun o => BuyAwaitsBook o size) chosen ++ done))
  = mkConfig st (done ++ map (fun o => BuyAwaitsOrder o size ask) chosen).
Proof.
  intros Hask. unfold play. revert done.
  induction chosen as [|o chosen IH]; intros done;
    cbn [List.length repeat fold_left map app].
  - rewrite app_nil_r. reflexivity.
  - cbn [act pending nth_error state]. unfold without.
    cbn [firstn skipn app buyAfterBook]. rewrite Hask. cbn [spawn pushed].
    rewrite <- app_assoc, IH, <- app_assoc. reflexivity.
Qed.

Lemma orders_answered (res : OrderResult) (ask : Level) (size : num)
    (now : Z) (chosen : list OddsComparison.Opportunity)
    (st : Interleaved.t) :
  play (repeat (AnswerOrder 0 now (Resolved res)) (List.length chosen))
       (mkConfig st (map (fun o => BuyAwaitsOrder o size ask) chosen))
  = mkConfig
      (fold_left (fun s o => buyAfterOrder now o size ask (Resolved res) s)
                 chosen st)
      [].
Proof.
  unfold play. revert st.
  induction chosen as [|o chosen IH]; intros st;
    cbn [List.length repeat fold_left map]; [reflexivity|].
  cbn [act pending nth_error state]. unfold without.
  cbn [firstn skipn app]. apply IH.
Qed.

Lemma bought_all (res : OrderResult) (ask : Level) (size : num) (now : Z)
    (chosen : list OddsComparison.Opportunity) (st : Interleaved.t) :
  let st' := fold_left
               (fun s o => buyAfterOrder now o size ask (Resolved res) s)
               chosen st in
  history st'
  = history st
    ++ map (fun o => Buy (boughtPosition now o size ask res) res) chosen
  /\ objects st'
     = objects st ++ map (fun o => boughtPosition now o size ask res) chosen
  /\ maxSize st' = maxSize st.
Proof.
  revert st. induction chosen as [|o chosen IH]; intros st;
    cbn [fold_left map].
  - rewrite !app_nil_r. auto.
  - destruct (IH (buyAfterOrder now o size ask (Resolved res) st))
      as (H1 & H2 & H3).
    cbn zeta in *. rewrite H1, H2, H3.
    cbn [buyAfterOrder history objects maxSize].
    rewrite <- !app_assoc. auto.
Qed.

(** X16. One pass of [checkTradingOpportunities] tests every
    opportunity on the ledger as it is before the pass: the calls are
    not awaited, so nothing of the ledger changes during the pass, and
    a call that passes the three tests (no position on the token, total
    below the cap, confidence high or medium) goes on to buy whatever
    the calls before it in the pass are about to buy.  With an ask in
    the book and every order accepted, every opportunity of the pass
    that passed the tests is bought at the size fixed at its call:
    the history gains one buy entry per such opportunity, in the order
    of the pass, so what one pass buys is that number of trades and is
    not limited by the cap. *)
Theorem pass_buys_every_opportunity_that_passed :
  forall (c : Config) (opps : list OddsComparison.Opportunity)
         (book : Orderbook) (ask : Level) (res : OrderResult) (now : Z),
    pending c = [] ->
    first_level (asks book) = Some ask ->
    let st := state c in
    let chosen := filter (passes st) opps in
    let size := positionSize (view st) in
    let c' := play (pass opps
                    ++ answersInOrder book res now (List.length chosen)) c in
    state (play (pass opps) c) = st
    /\ pending (play (pass opps) c)
       = map (fun o => BuyAwaitsBook o size) chosen
    /\ pending c' = []
    /\ history (state c')
       = history st
         ++ map (fun o => Buy (boughtPosition now o size ask res) res) chosen
    /\ objects (state c')
       = objects st
         ++ map (fun o => boughtPosition now o size ask res) chosen.
Proof.
  intros c opps book ask res now Hpend Hask st chosen size c'.
  assert (Hpass : play (pass opps) c
                  = mkConfig st (map (fun o => BuyAwaitsBook o size) chosen)).
  { unfold pass. rewrite play_calls, Hpend, spawned_passes. reflexivity. }
  split; [rewrite Hpass; reflexivity|].
  split; [rewrite Hpass; reflexivity|].
  unfold c', answersInOrder. rewrite !play_app, Hpass.
  rewrite <- (app_nil_r (map (fun o => BuyAwaitsBook o size) chosen)).
  rewrite (@books_answered book ask size chosen st [] Hask). cbn [app].
  rewrite orders_answered. cbn [pending state].
  destruct (bought_all res ask size now chosen st) as (H1 & H2 & _).
  auto.
Qed.

Lemma pass_buys_every_opportunity_that_passed_witness :
  let start := mkConfig (init (Fin 100) true (Fin (1 # 10))) [] in
  let opps := OddsComparison.findTradingOpportunities 0 Demo.stores in
  let twice := opps ++ opps in
  List.length (filter (passes (state start)) twice) = 2%nat
  /\ List.length
       (history
          (state
             (play (pass twice
                    ++ answersInOrder Demo.book (mkOrderResult "buy-1") 5 2)
                   start)))
     = 2%nat.
Proof.
  intros start opps twice.
  assert (Hn : List.length (filter (passes (state start)) twice) = 2%nat)
    by (vm_compute; reflexivity).
  split; [exact Hn|].
  destruct (@pass_buys_every_opportunity_that_passed start twice Demo.book
              (mkLevel (Fin (31 # 100))) (mkOrderResult "buy-1") 5
              eq_refl eq_refl)
    as (_ & _ & _ & Hhist & _).
  rewrite Hn in Hhist. rewrite Hhist, length_app, length_map, Hn.
  reflexivity.
Defined.

(** X17. Two sells of the same position in flight together sell it
    twice.  [sellPosition(tokenId)] fixes the amount to sell, the whole
    amount [a] of the position, before its first [await]; when a second
    call is made before the first is answered, as a second sweep of
    [checkAutoSellConditions] does for a position held too long, both
    go on with [a]: with a bid in the book and both orders accepted the
    history gains two sell entries of [a] each, the position leaves the
    active set at the first, and the position object ends closed with
    the amount [a - a - a], below 0. *)
Theorem two_sells_in_flight_sell_twice :
  forall (c : Config) (tok : string) (ref : nat) (p : Position) (a : Q)
         (book : Orderbook) (bid : Level)
         (now1 now2 : Z) (res1 res2 : OrderResult),
    pending c = [] ->
    JSMap.get tok (active (state c)) = Some ref ->
    deref (state c) ref = Some p ->
    amount p = Fin a -> (0 < a)%Q ->
    first_level (bids book) = Some bid ->
    let c' := play (twoSells tok book now1 res1 now2 res2) c in
    pending c' = []
    /\ history (state c')
       = history (state c)
         ++ [Sell tok (Fin a) (level_price bid) now1 res1;
             Sell tok (Fin a) (level_price bid) now2 res2]
    /\ JSMap.get tok (active (state c')) = None
    /\ exists p',
         deref (state c') ref = Some p'
         /\ amount p' = Fin (a + - a + - a)
         /\ (amount p' <? Fin 0)%num = true
         /\ status p' = StatusClosed.
Proof.
  intros [st pend] tok ref p a book bid now1 now2 res1 res2
         Hpend Hget Hderef Ha Hpos Hbid c'.
  cbn [pending state] in *. subst pend.
  assert (Hstart : startSell tok None st
                   = inr (SellAwaitsBook tok ref (Fin a))).
  { unfold startSell. rewrite Hget, Hderef. cbn [sellAmountOf].
    rewrite Ha. reflexivity. }
  assert (Hbook : sellAfterBook tok ref (Fin a) (Resolved book)
                  = inr (SellAwaitsOrder tok ref (Fin a) bid)).
  { unfold sellAfterBook. rewrite Hbid. reflexivity. }
  set (p1 := sold p (Fin a) (level_price bid) now1).
  set (p2 := sold p1 (Fin a) (level_price bid) now2).
  assert (Hz1 : (amount p1 <=? Fin 0)%num = true).
  { unfold p1, sold. cbn [amount]. rewrite Ha. cbn [sub neg add leb].
    apply Qle_bool_iff. lra. }
  assert (Ha2 : amount p2 = Fin (a + - a + - a)).
  { unfold p2, sold at 1. cbn [amount]. unfold p1, sold. cbn [amount].
    rewrite Ha. reflexivity. }
  assert (Hz2 : (amount p2 <=? Fin 0)%num = true).
  { rewrite Ha2. cbn [leb]. apply Qle_bool_iff. lra. }
  set (st1 := mkState (assign ref p1 (objects st))
                      (JSMap.delete tok (active st))
                      (history st
                       ++ [Sell tok (Fin a) (level_price bid) now1 res1])
                      (maxSize st) (autoSell st) (autoSellLimit st)).
  assert (H1 : sellAfterOrder now1 tok ref (Fin a) bid (Resolved res1) st
               = (st1, Sold res1)).
  { unfold sellAfterOrder. rewrite Hderef. fold p1. rewrite Hz1.
    reflexivity. }
  assert (Hderef1 : deref st1 ref = Some p1).
  { unfold deref, st1. cbn [objects]. rewrite nth_error_assign.
    rewrite Nat.eqb_refl. unfold deref in Hderef. rewrite Hderef.
    reflexivity. }
  set (st2 := mkState (assign ref p2 (objects st1))
                      (JSMap.delete tok (active st1))
                      (history st1
                       ++ [Sell tok (Fin a) (level_price bid) now2 res2])
                      (maxSize st1) (autoSell st1) (autoSellLimit st1)).
  assert (H2 : sellAfterOrder now2 tok ref (Fin a) bid (Resolved res2) st1
               = (st2, Sold res2)).
  { unfold sellAfterOrder. rewrite Hderef1. fold p2. rewrite Hz2.
    reflexivity. }
  assert (Hrun : c' = mkConfig st2 []).
  { unfold c', twoSells, play. cbn [fold_left].
    repeat (cbn [act state pending taskOf spawn pushed app nth_error
                   firstn skipn fst];
            unfold without;
            rewrite ?Hstart, ?Hbook, ?H1, ?H2).
    reflexivity. }
  rewrite Hrun. cbn [pending state].
  split; [reflexivity|]. split; [|split].
  - unfold st2, st1. cbn [history]. rewrite <- app_assoc. reflexivity.
  - unfold st2. cbn [active]. rewrite get_delete, String.eqb_refl.
    reflexivity.
  - exists p2. split; [|split; [exact Ha2|split]].
    + unfold deref, st2. cbn [objects]. rewrite nth_error_assign.
      rewrite Nat.eqb_refl. unfold deref in Hderef1. rewrite Hderef1.
      reflexivity.
    + rewrite Ha2. cbn [ltb]. apply Qltb_lt. lra.
    + unfold p2, sold at 1. cbn [status]. fold p2.
      change (amount p1 - Fin a)%num with (amount p2).
      rewrite Hz2. reflexivity.
Qed.

Lemma two_sells_in_flight_sell_twice_witness :
  exists p',
    deref (state (play (twoSells "token-3" Demo.book 8000000
                                 (mkOrderResult "sell-1") 8000001
                                 (mkOrderResult "sell-2"))
                       held)) 0
    = Some p'
    /\ (amount p' <? Fin 0)%num = true.
Proof.
  assert (H : exists p, deref (state held) 0 = Some p
                        /\ amount p = Fin (100 # 10))
    by (eexists; split; vm_compute; reflexivity).
  destruct H as (p & Hp & Ha).
  destruct (@two_sells_in_flight_sell_twice held "token-3" 0%nat p
              (100 # 10) Demo.book (mkLevel (Fin (29 # 100)))
              8000000 8000001 (mkOrderResult "sell-1")
              (mkOrderResult "sell-2")
              eq_refl eq_refl Hp Ha eq_refl eq_refl)
    as (_ & _ & _ & p' & H1 & _ & H2 & _).
  exists p'. auto.
Defined.

End InFlight.

(* ------------------------------------------------------------------------- *)
(** ** What drives the bot *)

Section RuntimeFacts.
Import OddsComparison Exchange TradingBot Interleaved OddsData Runtime.

Lemma flat_map_nil (A B : Type) (l : list A) :
  flat_map (fun _ : A => @nil B) l = [].
Proof. induction l; [reflexivity | assumption]. Qed.

(** With no token in the price store there is nothing to compare. *)
Lemma no_tokens_no_opportunities (now : Z) (st : OddsComparison.t) :
  polymarketData st = [] -> findTradingOpportunities now st = [].
Proof.
  intros H. unfold findTradingOpportunities.
  rewrite findMatchingMarkets_pairs, H. cbn [flat_map].
  rewrite flat_map_nil. reflexivity.
Qed.

Lemma nth_error_nil_task (i : nat) : nth_error (@nil Task) i = None.
Proof. destruct i; reflexivity. Qed.

Lemma idle_pass (now : Z) (odds : OddsComparison.t) (size : num)
    (enabled : bool) (limit : num) :
  polymarketData odds = [] ->
  let c := mkConfig (init size enabled limit) [] in
  checkTradingOpportunities now odds c = c
  /\ checkAutoSellConditions now c = c.
Proof.
  intros H c. unfold checkTradingOpportunities, checkAutoSellConditions.
  rewrite (no_tokens_no_opportunities now odds H). split; reflexivity.
Qed.

Lemma idle_step (e : Event) (rt : Runtime.t) (size : num) (enabled : bool)
    (limit : num) :
  writesNoPrice e = true ->
  polymarketData (oddsComparison rt) = [] ->
  calls rt = mkConfig (init size enabled limit) [] ->
  polymarketData (oddsComparison (step rt e)) = []
  /\ calls (step rt e) = mkConfig (init size enabled limit) [].
Proof.
  intros He Hp Hc.
  assert (Hupd : forall now data,
             polymarketData
               (oddsComparison (handleBoltOddsUpdate now data rt)) = []
             /\ calls (handleBoltOddsUpdate now data rt)
                = mkConfig (init size enabled limit) []).
  { intros now [g|]; cbn [handleBoltOddsUpdate]; [|auto].
    cbn [oddsComparison calls]. rewrite Hc.
    destruct (@idle_pass now (updateBoltOddsData now g (oddsComparison rt))
                size enabled limit Hp) as [H1 H2].
    rewrite H1. cbn [state init autoSell].
    destruct enabled; [rewrite H2|]; auto. }
  destruct e as [| |now action data| |now|now|tok|i ans|i now ans|now tok md];
    cbn [step]; try discriminate; auto.
  - unfold handleMessage. destruct (eventOf action) as [event|]; [|auto].
    unfold emit.
    destruct (String.eqb event "initialState" || String.eqb event "gameUpdate"
              || String.eqb event "lineUpdate"
              || String.eqb event "gameAdded")%bool; [apply Hupd | auto].
  - destruct (isRunning rt); [|auto]. cbn [oddsComparison calls].
    rewrite Hc.
    destruct (@idle_pass now (oddsComparison rt) size enabled limit Hp)
      as [H1 H2].
    rewrite H1. cbn [state init autoSell].
    destruct enabled; [rewrite H2|]; auto.
  - destruct (isRunning rt); [|auto].
    cbn [oddsComparison calls clearOldData polymarketData].
    rewrite Hp. auto.
  - cbn [oddsComparison calls]. rewrite Hc. auto.
  - cbn [oddsComparison calls]. rewrite Hc. cbn [act pending].
    rewrite nth_error_nil_task. auto.
  - cbn [oddsComparison calls]. rewrite Hc. cbn [act pending].
    rewrite nth_error_nil_task. auto.
Qed.

(** X18. Nothing in the bot writes the price store.  Whatever feed
    messages arrive, whatever the two interval callbacks, the exchange
    and the [sell] command do, and whether the bot is started or
    stopped: as long as [updatePolymarketData] is not called from
    outside, the price store stays empty, no opportunity is found at
    any time, no call to the exchange is started, and the ledger stays
    as the constructor left it, without position or history. *)
Theorem no_price_no_trade :
  forall (es : list Event) (threshold size : num) (enabled : bool)
         (limit : num),
    forallb writesNoPrice es = true ->
    let rt := Runtime.run es (Runtime.new threshold size enabled limit) in
    polymarketData (oddsComparison rt) = []
    /\ (forall now, findTradingOpportunities now (oddsComparison rt) = [])
    /\ pending (calls rt) = []
    /\ entries (state (calls rt)) = []
    /\ history (state (calls rt)) = [].
Proof.
  intros es threshold size enabled limit Hes rt.
  assert (H : polymarketData (oddsComparison rt) = []
              /\ calls rt = mkConfig (init size enabled limit) []).
  { unfold rt, Runtime.run.
    assert (H0 : polymarketData
                   (oddsComparison (Runtime.new threshold size enabled limit))
                 = []
                 /\ calls (Runtime.new threshold size enabled limit)
                    = mkConfig (init size enabled limit) [])
      by (split; reflexivity).
    revert H0. generalize (Runtime.new threshold size enabled limit).
    induction es as [|e es IH]; intros r H0; cbn [fold_left]; [exact H0|].
    cbn [forallb] in Hes. apply andb_true_iff in Hes.
    destruct Hes as [He Hes]. apply (IH Hes).
    destruct H0 as [Hp Hc]. apply idle_step; assumption. }
  destruct H as [Hp Hc]. split; [exact Hp|].
  split; [intros now; apply no_tokens_no_opportunities; exact Hp|].
  rewrite Hc. repeat split.
Qed.

Lemma no_price_no_trade_witness :
  let es := [Started;
             Message 1 "initial_state" (Some Demo.mockBoltData);
             Message 2 "line_update" (Some Demo.mockBoltData);
             TradingTick 3; SellCommand "token-3";
             BookAnswered 0 (Resolved Demo.book); CleanupTick 4;
             Message 5 "game_removed" (Some Demo.mockBoltData); Stopped] in
  forallb writesNoPrice es = true
  /\ history
       (state (calls (Runtime.run es
                        (Runtime.new (Fin (5 # 100)) (Fin 100) true
                                     (Fin (1 # 10))))))
     = [].
Proof.
  intros es.
  assert (Hes : forallb writesNoPrice es = true) by reflexivity.
  split; [exact Hes|].
  destruct (@no_price_no_trade es (Fin (5 # 100)) (Fin 100) true
              (Fin (1 # 10)) Hes)
    as (_ & _ & _ & _ & H).
  exact H.
Defined.

Lemma act_call_state (c : Config) (a : Action) :
  state (act c a) = state c
  \/ exists i now answer, a = AnswerOrder i now answer.
Proof.
  destruct a as [o|tok req|i ans|i now ans]; cbn [act].
  - left. reflexivity.
  - left. reflexivity.
  - left. destruct (nth_error (pending c) i) as [[| | |]|]; reflexivity.
  - right. eauto.
Qed.

Lemma pass_and_sweep_state (now : Z) (odds : OddsComparison.t) (c : Config) :
  let c1 := checkTradingOpportunities now odds c in
  state (if autoSell (state c1) then checkAutoSellConditions now c1 else c1)
  = state c.
Proof.
  cbn zeta. unfold checkTradingOpportunities, checkAutoSellConditions.
  rewrite play_calls. cbn [state].
  destruct (autoSell (state c)); [|reflexivity].
  rewrite play_sells. reflexivity.
Qed.

Lemma quiet_message (now : Z) (action : string) (data : option GameData)
    (rt : Runtime.t) :
  updatesOdds action = false \/ data = None ->
  handleMessage now action data rt = rt.
Proof.
  unfold handleMessage, eventOf, updatesOdds. intros H.
  destruct (String.eqb action "initial_state") eqn:E1;
    [destruct H as [H| ->]; [discriminate | destruct rt; reflexivity]|].
  destruct (String.eqb action "game_update") eqn:E2;
    [destruct H as [H| ->]; [discriminate | destruct rt; reflexivity]|].
  destruct (String.eqb action "game_removed") eqn:E3; [reflexivity|].
  destruct (String.eqb action "game_added") eqn:E4;
    [destruct H as [H| ->];
     [cbn [orb] in H; rewrite orb_true_r in H; discriminate
     | destruct rt; reflexivity]|].
  destruct (String.eqb action "line_update") eqn:E5;
    [destruct H as [H| ->]; [discriminate | destruct rt; reflexivity]|].
  destruct (String.eqb action "book_clear"); [reflexivity|].
  destruct (String.eqb action "error"); [reflexivity|].
  destruct (String.eqb action "subscription_updated"); reflexivity.
Qed.

Lemma loud_message (now : Z) (action : string) (g : GameData)
    (rt : Runtime.t) :
  updatesOdds action = true ->
  handleMessage now action (Some g) rt
  = handleBoltOddsUpdate now (Some g) rt.
Proof.
  unfold handleMessage, eventOf, updatesOdds. intros E.
  destruct (String.eqb action "initial_state"); [reflexivity|].
  destruct (String.eqb action "game_update"); [reflexivity|].
  destruct (String.eqb action "game_removed") eqn:E3.
  { apply String.eqb_eq in E3. subst action. discriminate. }
  destruct (String.eqb action "game_added"); [reflexivity|].
  destruct (String.eqb action "line_update"); [reflexivity|].
  discriminate.
Qed.

(** X19. What an event can change.  The ledger (positions, active set
    and history) changes only when the exchange answers an order: feed
    messages, the interval callbacks and the [sell] command only start
    calls.  The stores change only by a feed message that carries data
    under one of the actions [initial_state], [game_update],
    [line_update], [game_added], by the cleanup callback, and by a
    write of the price store; any other message, [game_removed]
    included, leaves the whole bot as it is, so the odds of a removed
    game stay in the store.  What a message does is the same whether
    the bot is started or stopped. *)
Theorem what_an_event_changes :
  forall (rt : Runtime.t) (e : Event),
    (state (calls (step rt e)) = state (calls rt)
     \/ exists i now answer, e = OrderAnswered i now answer)
    /\ (oddsComparison (step rt e) = oddsComparison rt
        \/ (exists now action g,
               e = Message now action (Some g) /\ updatesOdds action = true)
        \/ (exists now, e = CleanupTick now)
        \/ (exists now tok md, e = PriceWritten now tok md))
    /\ (forall now action data,
           updatesOdds action = false \/ data = None ->
           step rt (Message now action data) = rt)
    /\ (forall now action data running,
           let other := mkRuntime running (oddsComparison rt) (calls rt) in
           oddsComparison (step other (Message now action data))
           = oddsComparison (step rt (Message now action data))
           /\ calls (step other (Message now action data))
              = calls (step rt (Message now action data))).
Proof.
  intros rt e.
  assert (Hquiet : forall now action data,
             updatesOdds action = false \/ data = None ->
             step rt (Message now action data) = rt).
  { intros now action data H. cbn [step]. apply quiet_message. exact H. }
  assert (Hmsg : forall now action data r,
             handleMessage now action data r = r
             \/ exists g, data = Some g /\ updatesOdds action = true
                          /\ handleMessage now action data r
                             = handleBoltOddsUpdate now (Some g) r).
  { intros now action data r.
    destruct (updatesOdds action) eqn:E;
      [|left; apply quiet_message; left; exact E].
    destruct data as [g|]; [|left; apply quiet_message; right; reflexivity].
    right. exists g. split; [reflexivity|]. split; [reflexivity|].
    apply loud_message. exact E. }
  split; [|split; [|split; [exact Hquiet|]]].
  - destruct e as [| |now action data| |now|now|tok|i ans|i now ans|now tok md];
      cbn [step calls]; try (left; reflexivity).
    + left. destruct (Hmsg now action data rt) as [->|(g & _ & _ & ->)];
        [reflexivity|].
      cbn [handleBoltOddsUpdate calls]. apply pass_and_sweep_state.
    + left. destruct (isRunning rt); [|reflexivity].
      cbn [calls]. apply pass_and_sweep_state.
    + left. destruct (isRunning rt); reflexivity.
    + left.
      destruct (act_call_state (calls rt) (AnswerBook i ans))
        as [H|(? & ? & ? & H)]; [exact H | discriminate].
    + right. eauto.
  - destruct e as [| |now action data| |now|now|tok|i ans|i now ans|now tok md];
      cbn [step oddsComparison]; try (left; reflexivity).
    + destruct (Hmsg now action data rt) as [->|(g & -> & Hu & _)];
        [left; reflexivity|].
      right. left. eauto.
    + left. destruct (isRunning rt); reflexivity.
    + right. right. left. eauto.
    + right. right. right. eauto.
  - intros now action data running other. cbn [step].
    destruct (updatesOdds action) eqn:K.
    + destruct data as [g|].
      * rewrite !(@loud_message now action g _ K). split; reflexivity.
      * rewrite !quiet_message by (right; reflexivity). split; reflexivity.
    + rewrite !quiet_message by (left; exact K). split; reflexivity.
Qed.

Lemma found_on_nhl_game (now : Z) (st : OddsComparison.t) (o : Opportunity) :
  In o (findTradingOpportunities now st) ->
  gi_sport (gameInfo (op_match o)) = "NHL"%string.
Proof.
  intros Ho. apply in_findTradingOpportunities in Ho.
  destruct Ho as (m & v & Hm & _ & ->).
  apply in_findMatchingMarkets in Hm.
  destruct Hm as (ge & pe & _ & _ & E).
  rewrite compareMarkets_matchable in E.
  destruct (matchable (snd ge)) eqn:K; [|discriminate].
  injection E as <-. cbn [opportunityOf op_match gameInfo extractGameInfo
                            gi_sport].
  unfold matchable in K. apply andb_true_iff in K. destruct K as [K _].
  apply String.eqb_eq. exact K.
Qed.

Lemma Forall_assign (P : Position -> Prop) (ref : nat) (p : Position)
    (l : list Position) :
  Forall P l -> P p -> Forall P (assign ref p l).
Proof.
  intros Hl Hp. revert ref.
  induction Hl as [|x l Hx Hl IH]; intros ref; destruct ref; cbn [assign];
    constructor; auto.
Qed.

Lemma nhl_act (c : Config) (a : Action) :
  Forall nhlPosition (objects (state c)) ->
  Forall nhlTask (pending c) ->
  match a with
  | CallEvaluate o => gi_sport (gameInfo (op_match o)) = "NHL"%string
  | _ => True
  end ->
  Forall nhlPosition (objects (state (act c a)))
  /\ Forall nhlTask (pending (act c a)).
Proof.
  intros Hobj Hpend Ha.
  destruct a as [o|tok req|i ans|i now ans]; cbn [act].
  - cbn [state pending]. split; [exact Hobj|].
    apply Forall_spawn; [exact Hpend|].
    intros task E. rewrite startEvaluate_passes in E.
    destruct (Schedules.passes (state c) o); [|discriminate].
    injection E as <-. exact Ha.
  - cbn [state pending]. split; [exact Hobj|].
    apply Forall_spawn; [exact Hpend|].
    intros task E. unfold startSell in E.
    destruct (JSMap.get tok (active (state c))); [|discriminate].
    destruct (deref (state c) n); [|discriminate].
    injection E as <-. exact I.
  - destruct (nth_error (pending c) i) as [[o size|o size ask|tok ref s|tok ref s bid]|] eqn:E;
      try (split; assumption); cbn [state pending];
      (split; [exact Hobj|]);
      (apply Forall_spawn; [apply Forall_without; exact Hpend|]).
    + intros task E'. unfold buyAfterBook in E'.
      destruct ans as [ob|]; [|discriminate].
      destruct (first_level (asks ob)); [|discriminate].
      injection E' as <-. cbn [nhlTask].
      apply nth_error_In in E. rewrite Forall_forall in Hpend.
      apply (Hpend _ E).
    + intros task E'. unfold sellAfterBook in E'.
      destruct ans as [ob|]; [|discriminate].
      destruct (first_level (bids ob)); [|discriminate].
      injection E' as <-. exact I.
  - destruct (nth_error (pending c) i) as [[o size|o size ask|tok ref s|tok ref s bid]|] eqn:E;
      try (split; assumption); cbn [state pending];
      (split; [|apply Forall_without; exact Hpend]).
    + unfold buyAfterOrder. destruct ans as [res|]; [|exact Hobj].
      cbn [objects]. apply Forall_app. split; [exact Hobj|].
      constructor; [|constructor].
      apply nth_error_In in E. rewrite Forall_forall in Hpend.
      specialize (Hpend _ E). cbn [nhlTask] in Hpend.
      split; [exact Hpend | reflexivity].
    + unfold sellAfterOrder. destruct ans as [res|]; [|exact Hobj].
      destruct (deref (state c) ref) as [p|] eqn:Hp; [|exact Hobj].
      cbn [fst objects]. apply Forall_assign; [exact Hobj|].
      unfold deref in Hp. apply nth_error_In in Hp.
      rewrite Forall_forall in Hobj. destruct (Hobj _ Hp) as [H1 H2].
      split; [exact H1 | exact H2].
Qed.

Lemma nhl_play (actions : list Action) (c : Config) :
  Forall nhlPosition (objects (state c)) ->
  Forall nhlTask (pending c) ->
  Forall (fun a => match a with
                   | CallEvaluate o =>
                       gi_sport (gameInfo (op_match o)) = "NHL"%string
                   | _ => True
                   end) actions ->
  Forall nhlPosition (objects (state (play actions c)))
  /\ Forall nhlTask (pending (play actions c)).
Proof.
  unfold play. revert c.
  induction actions as [|a actions IH]; intros c Hobj Hpend Hall;
    cbn [fold_left]; [auto|].
  inversion Hall as [|? ? Ha Hrest]; subst.
  destruct (nhl_act c a Hobj Hpend Ha) as [H1 H2].
  apply IH; assumption.
Qed.

Lemma nhl_pass_and_sweep (now : Z) (odds : OddsComparison.t) (c : Config) :
  Forall nhlPosition (objects (state c)) ->
  Forall nhlTask (pending c) ->
  let c1 := checkTradingOpportunities now odds c in
  let c2 := if autoSell (state c1) then checkAutoSellConditions now c1
            else c1 in
  Forall nhlPosition (objects (state c2)) /\ Forall nhlTask (pending c2).
Proof.
  intros Hobj Hpend. cbn zeta.
  assert (H1 : Forall nhlPosition
                 (objects (state (checkTradingOpportunities now odds c)))
               /\ Forall nhlTask
                    (pending (checkTradingOpportunities now odds c))).
  { apply nhl_play; [assumption | assumption|].
    apply Forall_forall. intros a Ha. apply in_map_iff in Ha.
    destruct Ha as (o & <- & Ho). apply (found_on_nhl_game _ _ _ Ho). }
  destruct H1 as [H1 H2].
  destruct (autoSell (state (checkTradingOpportunities now odds c)));
    [|auto].
  apply nhl_play; [assumption | assumption|].
  apply Forall_forall. intros a Ha. apply in_map_iff in Ha.
  destruct Ha as (x & <- & _). exact I.
Qed.

Lemma nhl_step (rt : Runtime.t) (e : Event) :
  nhl_ok rt -> nhl_ok (step rt e).
Proof.
  intros [Hobj Hpend]. unfold nhl_ok.
  destruct e as [| |now action data| |now|now|tok|i ans|i now ans|now tok md];
    cbn [step calls]; auto.
  - unfold handleMessage. destruct (eventOf action) as [event|]; [|auto].
    unfold emit.
    destruct (String.eqb event "initialState" || String.eqb event "gameUpdate"
              || String.eqb event "lineUpdate"
              || String.eqb event "gameAdded")%bool; [|auto].
    destruct data as [g|]; cbn [handleBoltOddsUpdate calls]; [|auto].
    apply nhl_pass_and_sweep; assumption.
  - destruct (isRunning rt); [|auto]. cbn [calls].
    apply nhl_pass_and_sweep; assumption.
  - destruct (isRunning rt); auto.
  - apply nhl_act; auto.
  - apply nhl_act; auto.
  - apply nhl_act; auto.
Qed.

Lemma in_resolve (objs : list Position) (m : JSMap.t nat) (tok : string)
    (p : Position) :
  In (tok, p) (resolve objs m) -> In p objs.
Proof.
  unfold resolve. rewrite in_flat_map. intros [e [_ Hin]].
  destruct (nth_error objs (snd e)) as [q|] eqn:E; [|contradiction].
  destruct Hin as [[= _ <-]|[]]. apply (nth_error_In _ _ E).
Qed.

(** The key recorded in a position never is the key of the game in the
    odds store: it is built from the game info, which has no
    [home_team] or [away_team] property. *)
Lemma position_key_differs (p : Position) (g : GameData) :
  nhlPosition p -> plainGame g ->
  home_team g <> "undefined"%string \/ away_team g <> "undefined"%string ->
  String.eqb (pos_gameKey p) (createGameKey g) = false.
Proof.
  intros [Hsport Hkey] (Hs & Hh & Ha) Hreal.
  destruct (String.eqb (pos_gameKey p) (createGameKey g)) eqn:E;
    [|reflexivity].
  exfalso. apply String.eqb_eq in E. rewrite Hkey in E.
  unfold gameKeyOfInfo, createGameKey, gameKeyOf, show in E.
  rewrite Hsport in E.
  change (?a ++ "_" ++ ?b)%string with (a ++ String "_" b)%string in E.
  destruct (@plain_split "NHL" (sport g) _ _ eq_refl Hs E) as [_ E2].
  change ("_" ++ ?b)%string with (String "_" b) in E2.
  destruct (@plain_split "undefined" (home_team g) _ _ eq_refl Hh E2)
    as [E3 E4].
  destruct (@plain_split "undefined" (away_team g) _ _ eq_refl Ha E4)
    as [E5 _].
  destruct Hreal as [H|H]; apply H; congruence.
Qed.

(** X20. [handleGameRemoved] never finds a position.  Every position the
    bot records comes from an opportunity on an NHL game, and its
    [gameKey] is built by [createGameKey] from the game info of the
    opportunity, which carries the teams as [homeTeam] and [awayTeam]:
    the key reads [NHL_undefined_undefined_] followed by the game label.
    So, in any state the bot reaches, for a removed game whose sport and
    team names contain no underscore and whose teams are not both named
    [undefined], no active position has the key of the game: the list of
    positions reported for it is empty. *)
Theorem game_removed_reports_no_position :
  forall (es : list Event) (threshold size : num) (enabled : bool)
         (limit : num) (g : GameData),
    plainGame g ->
    home_team g <> "undefined"%string \/ away_team g <> "undefined"%string ->
    let rt := Runtime.run es (Runtime.new threshold size enabled limit) in
    handleGameRemoved g rt = []
    /\ Forall (fun p => pos_gameKey p
                        = ("NHL_undefined_undefined_"
                           ++ gi_game (pos_gameInfo p))%string)
              (objects (state (calls rt))).
Proof.
  intros es threshold size enabled limit g Hplain Hreal rt.
  assert (H : nhl_ok rt).
  { unfold rt, Runtime.run.
    assert (H0 : nhl_ok (Runtime.new threshold size enabled limit))
      by (split; constructor).
    revert H0. generalize (Runtime.new threshold size enabled limit).
    induction es as [|e es IH]; intros r H0; cbn [fold_left]; [exact H0|].
    apply IH. apply nhl_step. exact H0. }
  destruct H as [Hobj _]. split.
  - unfold handleGameRemoved.
    replace (filter _ (entries (state (calls rt)))) with (@nil (string * Position));
      [reflexivity|].
    symmetry. unfold entries.
    assert (Hall : forall e, In e (resolve (objects (state (calls rt)))
                                           (active (state (calls rt)))) ->
                             String.eqb (pos_gameKey (snd e)) (createGameKey g)
                             = false).
    { intros [tok p] Hin. apply in_resolve in Hin.
      rewrite Forall_forall in Hobj.
      apply position_key_differs; auto. }
    revert Hall.
    generalize (resolve (objects (state (calls rt)))
                        (active (state (calls rt)))).
    intros l Hall. induction l as [|x l IH]; [reflexivity|].
    cbn [filter]. rewrite (Hall x) by (left; reflexivity).
    apply IH. intros e He. apply Hall. right. exact He.
  - eapply Forall_impl; [|exact Hobj].
    intros p [Hsport Hkey]. rewrite Hkey.
    unfold gameKeyOfInfo, gameKeyOf, show. rewrite Hsport. reflexivity.
Qed.

Lemma game_removed_reports_no_position_witness :
  let es := [PriceWritten 0 "token-3"
               (mkMarketData (PriceNum (Fin (30 # 100))));
             Message 1 "initial_state" (Some Demo.mockBoltData);
             BookAnswered 0 (Resolved Demo.book);
             OrderAnswered 0 2 (Resolved (mkOrderResult "buy-1"))] in
  let rt := Runtime.run es
              (Runtime.new (Fin (5 # 100)) (Fin 100) true (Fin (1 # 10))) in
  plainGame Demo.mockBoltData
  /\ List.length (entries (state (calls rt))) = 1%nat
  /\ handleGameRemoved Demo.mockBoltData rt = [].
Proof.
  intros es rt.
  assert (Hplain : plainGame Demo.mockBoltData) by (repeat split).
  split; [exact Hplain|]. split; [vm_compute; reflexivity|].
  destruct (@game_removed_reports_no_position es (Fin (5 # 100)) (Fin 100)
              true (Fin (1 # 10)) Demo.mockBoltData Hplain)
    as [H _].
  - left. discriminate.
  - exact H.
Defined.

End RuntimeFacts.

(* ------------------------------------------------------------------------- *)
(** ** The sweep carried out *)

Section SweepCarriedOut.
Import Exchange TradingBot Accounting.

Lemma in_get (V : Type) (m : JSMap.t V) (k : string) (v : V) :
  JSMap.wf m -> In (k, v) m -> JSMap.get k m = Some v.
Proof.
  unfold JSMap.wf.
  induction m as [|[k0 v0] m IH]; intros Hwf Hin; [contradiction|].
  inversion Hwf as [|? ? Hnotin Hm]; subst. cbn [JSMap.get].
  destruct Hin as [[= -> ->]|Hin].
  - rewrite String.eqb_refl. reflexivity.
  - destruct (String.eqb k k0) eqn:E; [|auto].
    apply String.eqb_eq in E. subst k0. exfalso. apply Hnotin.
    apply in_map_iff. exists (k, v). auto.
Qed.

Lemma positive_filter (P : string * Position -> bool)
    (m : JSMap.t Position) :
  positive m -> positive (filter P m).
Proof.
  unfold positive. rewrite !Forall_forall. intros H e He.
  apply filter_In in He. apply H. tauto.
Qed.

Lemma sell_whole (ex : Exchange.t) (time : Z) (tok : string)
    (p : Position) (bot : TradingBot.t) :
  liquid ex ->
  positive (activePositions bot) ->
  JSMap.get tok (activePositions bot) = Some p ->
  exists h,
    fst (sellPosition ex time tok None bot)
    = with_ledger bot (JSMap.delete tok (activePositions bot))
                  (tradingHistory bot ++ [h]).
Proof.
  intros Hex Hpos Hget.
  destruct (Hex tok) as (ob & bid & Hob & Hbid & Hsell).
  assert (Hp : exists a, amount p = Fin a /\ (0 < a)%Q).
  { unfold positive in Hpos. rewrite Forall_forall in Hpos.
    apply (Hpos (tok, p)). apply get_in. exact Hget. }
  destruct Hp as (a & Ha & _).
  destruct (Hsell (amount p)) as [res Hres].
  eexists. unfold sellPosition. rewrite Hget, Hob, Hbid.
  cbn [sellAmountOf]. rewrite Hres. cbn zeta.
  unfold sold at 1. cbn [amount]. rewrite Ha.
  assert (Hz : (Fin a - Fin a <=? Fin 0)%num = true).
  { cbn [sub neg add leb]. apply Qle_bool_iff. lra. }
  rewrite Hz. reflexivity.
Qed.

Lemma filter_after_delete (tok : string) (keys : list string)
    (m : JSMap.t Position) :
  filter (fun e => negb (existsb (fun k => String.eqb k (fst e)) keys))
         (JSMap.delete tok m)
  = filter (fun e => negb (String.eqb tok (fst e)
                           || existsb (fun k => String.eqb k (fst e)) keys))
           m.
Proof.
  unfold JSMap.delete.
  induction m as [|x m IHm]; [reflexivity|].
  cbn [filter]. destruct (String.eqb tok (fst x)); cbn [negb orb].
  - exact IHm.
  - cbn [filter].
    destruct (existsb (fun k => String.eqb k (fst x)) keys);
      cbn [negb]; [exact IHm | rewrite IHm; reflexivity].
Qed.

Lemma sell_selected (ex : Exchange.t) (time : Z)
    (sel : list (string * Position)) (bot : TradingBot.t) :
  liquid ex ->
  JSMap.wf (activePositions bot) ->
  positive (activePositions bot) ->
  (forall e, In e sel -> In e (activePositions bot)) ->
  NoDup (map fst sel) ->
  let bot' := run (map (fun e : string * Position =>
                          OpSell ex time (fst e) None) sel) bot in
  activePositions bot'
  = filter (fun e => negb (existsb (fun k => String.eqb k (fst e))
                                   (map fst sel)))
           (activePositions bot)
  /\ List.length (tradingHistory bot')
     = (List.length (tradingHistory bot) + List.length sel)%nat.
Proof.
  intros Hex. unfold run. revert bot.
  induction sel as [|[tok p] sel IH]; intros bot Hwf Hpos Hin Hnd;
    cbn [map fold_left existsb fst List.length].
  - split; [|lia]. symmetry. apply forallb_filter_id.
    apply forallb_forall. reflexivity.
  - inversion Hnd as [|? ? Hnotin Hnd']; subst.
    assert (Hget : JSMap.get tok (activePositions bot) = Some p).
    { apply in_get; [exact Hwf | apply Hin; left; reflexivity]. }
    destruct (@sell_whole ex time tok p bot Hex Hpos Hget) as [h Hh].
    cbn [perform]. rewrite Hh.
    destruct (IH (with_ledger bot (JSMap.delete tok (activePositions bot))
                              (tradingHistory bot ++ [h])))
      as [I1 I2].
    + apply wf_delete. exact Hwf.
    + apply positive_filter. exact Hpos.
    + intros e He. cbn [activePositions with_ledger]. unfold JSMap.delete.
      apply filter_In. split; [apply Hin; right; exact He|].
      apply negb_true_iff. destruct (String.eqb tok (fst e)) eqn:E;
        [|reflexivity].
      apply String.eqb_eq in E. exfalso. apply Hnotin. rewrite E.
      apply in_map. exact He.
    + exact Hnd'.
    + cbn zeta in I1, I2. rewrite I1, I2.
      cbn [activePositions tradingHistory with_ledger].
      rewrite length_app. cbn [List.length]. split; [|lia].
      apply filter_after_delete.
Qed.

Lemma wf_unique (V : Type) (m : JSMap.t V) (k : string) (v v' : V) :
  JSMap.wf m -> In (k, v) m -> In (k, v') m -> v = v'.
Proof.
  intros Hwf H1 H2.
  pose proof (@in_get _ _ _ _ Hwf H1) as G1.
  pose proof (@in_get _ _ _ _ Hwf H2) as G2.
  congruence.
Qed.

Lemma selected_keys (P : string * Position -> bool) (m : JSMap.t Position)
    (e : string * Position) :
  JSMap.wf m -> In e m ->
  existsb (fun k => String.eqb k (fst e)) (map fst (filter P m)) = P e.
Proof.
  intros Hwf He. destruct (P e) eqn:HP.
  - apply existsb_exists. exists (fst e). split; [|apply String.eqb_refl].
    apply in_map. apply filter_In. auto.
  - destruct (existsb _ _) eqn:E; [|reflexivity].
    apply existsb_exists in E. destruct E as (k & Hk & Ek).
    apply String.eqb_eq in Ek. subst k.
    apply in_map_iff in Hk. destruct Hk as ([k' v'] & Hfst & Hin).
    apply filter_In in Hin. destruct Hin as [Hin HP'].
    destruct e as [k v]. cbn [fst] in Hfst. subst k'.
    rewrite (@wf_unique _ _ _ _ _ Hwf Hin He) in HP'. congruence.
Qed.

(** X21. The sweep carried out.  Let the calls queued by
    [checkAutoSellConditions] at time [now] be carried out one after
    the other on an exchange that has a bid in every book and accepts
    every order, for an active set with one entry per token and finite
    amounts above 0.  Then exactly the positions held for more than two
    hours have left the active set: what remains are the other
    positions, untouched and in their order, and the history has gained
    one entry per position sold. *)
Theorem sweep_liquidates_overdue_positions :
  forall (ex : Exchange.t) (now time : Z) (bot : TradingBot.t),
    liquid ex ->
    JSMap.wf (activePositions bot) ->
    positive (activePositions bot) ->
    let bot' := run (sweepOps ex time (checkAutoSellConditions now bot))
                    bot in
    activePositions bot'
    = filter (fun e => negb (overdue now e)) (activePositions bot)
    /\ (forall tok p,
           JSMap.get tok (activePositions bot') = Some p ->
           (hoursHeld now p >? Fin 2)%num = false
           /\ JSMap.get tok (activePositions bot) = Some p)
    /\ List.length (tradingHistory bot')
       = (List.length (tradingHistory bot)
          + List.length (filter (overdue now) (activePositions bot)))%nat.
Proof.
  intros ex now time bot Hex Hwf Hpos bot'.
  assert (Hops : sweepOps ex time (checkAutoSellConditions now bot)
                 = map (fun e : string * Position =>
                          OpSell ex time (fst e) None)
                       (filter (overdue now) (activePositions bot))).
  { unfold sweepOps. rewrite checkAutoSellConditions_filter, map_map.
    reflexivity. }
  destruct (@sell_selected ex time
              (filter (overdue now) (activePositions bot)) bot Hex Hwf Hpos)
    as [H1 H2].
  { intros e He. apply filter_In in He. tauto. }
  { apply (@wf_filter _ (overdue now) _ Hwf). }
  cbn zeta in H1, H2. rewrite <- Hops in H1, H2. fold bot' in H1, H2.
  assert (Hact : activePositions bot'
                 = filter (fun e => negb (overdue now e))
                          (activePositions bot)).
  { rewrite H1. apply filter_ext_in. intros e He.
    rewrite (@selected_keys (overdue now) _ _ Hwf He). reflexivity. }
  split; [exact Hact|]. split; [|exact H2].
  intros tok p Hget. rewrite Hact in Hget.
  rewrite get_filter in Hget by exact Hwf.
  destruct (JSMap.get tok (activePositions bot)) as [q|]; [|discriminate].
  destruct (negb (overdue now (tok, q))) eqn:E; [|discriminate].
  injection Hget as ->. split; [|reflexivity].
  rewrite hoursHeld_after_two. apply negb_true_iff in E. exact E.
Qed.

Lemma sweep_liquidates_overdue_positions_witness :
  liquid Demo.exchange
  /\ List.length (activePositions Demo.bot) = 1%nat
  /\ activePositions
       (run (sweepOps Demo.exchange 10800001
                      (checkAutoSellConditions 10800000 Demo.bot))
            Demo.bot)
     = [].
Proof.
  assert (Hex : liquid Demo.exchange).
  { intros tok. exists Demo.book, (mkLevel (Fin (29 # 100))).
    split; [reflexivity|]. split; [reflexivity|].
    intros s. eexists. reflexivity. }
  split; [exact Hex|]. split; [reflexivity|].
  destruct (@sweep_liquidates_overdue_positions Demo.exchange 10800000
              10800001 Demo.bot Hex)
    as (H & _).
  - vm_compute. repeat constructor; intros [].
  - vm_compute. repeat constructor.
    eexists. split; [reflexivity | reflexivity].
  - rewrite H. reflexivity.
Defined.

End SweepCarriedOut.

(* ------------------------------------------------------------------------- *)
(** ** Order requests *)

Section OrderRequests.
Import Orders.
Open Scope string_scope.

(** X22. The request of an order.  Whatever the order data, the payload
    posted by [placeOrder] carries the wallet address of the client as
    [maker] and its private key as [private_key], also when the order
    data has properties of these names, and every other property as
    given.  The data the request interceptor hands to the logger is the
    payload with a property [privateKey] set to the mask: the property
    [private_key] is still there with the key itself.  The order data
    logged when the request fails has [private_key] masked.  The orders
    of [buyContract] and [sellContract] are limit orders of the side,
    amount and price given. *)
Theorem order_request_payload :
  forall (cl : Client) (orderData : Obj),
    let payload := orderPayload cl orderData in
    JSMap.get "maker" payload = Some (Str (walletAddress cl))
    /\ JSMap.get "private_key" payload = Some (Str (privateKey cl))
    /\ (forall k,
           k <> "maker" -> k <> "private_key" ->
           JSMap.get k payload = JSMap.get k orderData)
    /\ JSMap.get "private_key" (requestLogged payload)
       = Some (Str (privateKey cl))
    /\ JSMap.get "privateKey" (requestLogged payload) = Some (Str "***")
    /\ JSMap.get "private_key" (failureLogged orderData) = Some (Str "***")
    /\ (forall tok amount price,
           let bought := orderPayload cl (Orders.buyContract tok amount price) in
           let sold := orderPayload cl (Orders.sellContract tok amount price) in
           JSMap.get "side" bought = Some (Str "buy")
           /\ JSMap.get "side" sold = Some (Str "sell")
           /\ JSMap.get "order_type" bought = Some (Str "limit")
           /\ JSMap.get "order_type" sold = Some (Str "limit")
           /\ JSMap.get "amount" bought = Some (Num amount)
           /\ JSMap.get "price" bought = Some (Num price)
           /\ JSMap.get "token_id" bought = Some (Str tok)
           /\ JSMap.keys bought
              = ["token_id"; "side"; "amount"; "price"; "order_type";
                 "maker"; "private_key"]).
Proof.
  intros cl orderData payload. unfold payload, orderPayload, requestLogged,
    failureLogged.
  split; [rewrite !get_set; reflexivity|].
  split; [rewrite !get_set; reflexivity|].
  split.
  { intros k Hm Hp. rewrite !get_set.
    destruct (String.eqb k "private_key") eqn:E1;
      [apply String.eqb_eq in E1; contradiction|].
    destruct (String.eqb k "maker") eqn:E2;
      [apply String.eqb_eq in E2; contradiction|].
    reflexivity. }
  split; [rewrite !get_set; reflexivity|].
  split; [rewrite !get_set; reflexivity|].
  split; [rewrite !get_set; reflexivity|].
  intros tok amount price. cbv zeta. repeat split.
Qed.

End OrderRequests.

(* ------------------------------------------------------------------------- *)
(** ** The running bot keeps its invariants *)

Section RuntimeInvariant.
Import OddsComparison Exchange TradingBot Interleaved OddsData Runtime.

Lemma act_config (c : Config) (a : Action) :
  maxSize (state (act c a)) = maxSize (state c)
  /\ autoSell (state (act c a)) = autoSell (state c).
Proof.
  destruct a as [o|tok req|i ans|i now ans]; cbn [act]; auto.
  - destruct (nth_error (pending c) i) as [[| | |]|]; auto.
  - destruct (nth_error (pending c) i) as [[o size|o size ask|tok ref s|tok ref s bid]|];
      auto; cbn [state].
    + unfold buyAfterOrder. destruct ans; auto.
    + unfold sellAfterOrder. destruct ans; auto.
      destruct (deref (state c) ref); auto.
Qed.

Lemma play_config (actions : list Action) (c : Config) :
  maxSize (state (play actions c)) = maxSize (state c)
  /\ autoSell (state (play actions c)) = autoSell (state c).
Proof.
  unfold play. revert c.
  induction actions as [|a actions IH]; intros c; cbn [fold_left]; [auto|].
  destruct (IH (act c a)) as [I1 I2]. destruct (act_config c a) as [A1 A2].
  split; congruence.
Qed.

Lemma step_keeps (rt : Runtime.t) (e : Event) :
  config_ok (calls rt) ->
  JSMap.wf (boltOddsData (oddsComparison rt)) ->
  JSMap.wf (polymarketData (oddsComparison rt)) ->
  config_ok (calls (step rt e))
  /\ JSMap.wf (boltOddsData (oddsComparison (step rt e)))
  /\ JSMap.wf (polymarketData (oddsComparison (step rt e)))
  /\ valueThreshold (oddsComparison (step rt e))
     = valueThreshold (oddsComparison rt)
  /\ maxSize (state (calls (step rt e))) = maxSize (state (calls rt))
  /\ autoSell (state (calls (step rt e))) = autoSell (state (calls rt)).
Proof.
  intros Hc Hb Hp.
  assert (Hloop : forall now odds,
             let c := checkTradingOpportunities now odds (calls rt) in
             let c' := if autoSell (state c)
                       then checkAutoSellConditions now c else c in
             config_ok c'
             /\ maxSize (state c') = maxSize (state (calls rt))
             /\ autoSell (state c') = autoSell (state (calls rt))).
  { intros now odds. cbn zeta.
    unfold checkTradingOpportunities, checkAutoSellConditions.
    set (c := play (map CallEvaluate (findTradingOpportunities now odds))
                   (calls rt)).
    assert (Hc1 : config_ok c) by (apply play_ok; exact Hc).
    destruct (play_config (map CallEvaluate
                             (findTradingOpportunities now odds)) (calls rt))
      as [M1 M2].
    fold c in M1, M2.
    destruct (autoSell (state c)) eqn:E; [|rewrite <- M2; auto].
    set (sells := map (fun a : string * option num => CallSell (fst a) (snd a))
                      (TradingBot.checkAutoSellConditions now (view (state c)))).
    destruct (play_config sells c) as [N1 N2].
    split; [apply play_ok; exact Hc1|]. split; congruence. }
  destruct e as [| |now action data| |now|now|tok|i ans|i now ans|now tok md];
    cbn [step calls oddsComparison]; auto 10.
  - unfold handleMessage. destruct (eventOf action) as [event|]; [|auto 10].
    unfold emit.
    destruct (String.eqb event "initialState" || String.eqb event "gameUpdate"
              || String.eqb event "lineUpdate"
              || String.eqb event "gameAdded")%bool; [|auto 10].
    destruct data as [g|]; cbn [handleBoltOddsUpdate calls oddsComparison];
      [|auto 10].
    destruct (Hloop now (updateBoltOddsData now g (oddsComparison rt)))
      as (L1 & L2 & L3).
    cbn [updateBoltOddsData boltOddsData polymarketData valueThreshold].
    split; [exact L1|]. split; [apply wf_set; exact Hb|]. auto.
  - destruct (isRunning rt); [|auto 10]. cbn [calls oddsComparison].
    destruct (Hloop now (oddsComparison rt)) as (L1 & L2 & L3). auto 10.
  - destruct (isRunning rt); [|auto 10].
    cbn [calls oddsComparison clearOldData boltOddsData polymarketData
           valueThreshold].
    split; [exact Hc|]. split; [apply wf_filter; exact Hb|].
    split; [apply wf_filter; exact Hp|]. auto.
  - destruct (act_config (calls rt) (CallSell tok None)) as [A1 A2].
    split; [apply act_ok; exact Hc|]. auto 10.
  - destruct (act_config (calls rt) (AnswerBook i ans)) as [A1 A2].
    split; [apply act_ok; exact Hc|]. auto 10.
  - destruct (act_config (calls rt) (AnswerOrder i now ans)) as [A1 A2].
    split; [apply act_ok; exact Hc|]. auto 10.
  - cbn [updatePolymarketData boltOddsData polymarketData valueThreshold].
    split; [exact Hc|]. split; [exact Hb|].
    split; [apply wf_set; exact Hp|]. auto.
Qed.

(** X23. The running bot keeps its invariants.  In every state the bot
    reaches, by any sequence of feed messages, interval callbacks, sell
    commands, exchange answers in any order, starts, stops and writes
    of the price store: the active set has at most one open position
    per token, and a token of the active set leads to an open position
    recorded under that token; both stores hold one entry per key; and
    the value threshold, the position cap and the auto-sell switch are
    those given to the constructor. *)
Theorem running_bot_keeps_invariants :
  forall (es : list Event) (threshold size : num) (enabled : bool)
         (limit : num),
    let rt := Runtime.run es (Runtime.new threshold size enabled limit) in
    let bot := view (state (calls rt)) in
    (forall tok, (List.length (openPositions tok bot) <= 1)%nat)
    /\ (forall tok p,
           JSMap.get tok (activePositions bot) = Some p ->
           status p = StatusOpen /\ pos_tokenId p = tok)
    /\ JSMap.wf (boltOddsData (oddsComparison rt))
    /\ JSMap.wf (polymarketData (oddsComparison rt))
    /\ valueThreshold (oddsComparison rt) = threshold
    /\ maxPositionSize bot = size
    /\ autoSellEnabled bot = enabled.
Proof.
  intros es threshold size enabled limit rt bot.
  assert (H : config_ok (calls rt)
              /\ JSMap.wf (boltOddsData (oddsComparison rt))
              /\ JSMap.wf (polymarketData (oddsComparison rt))
              /\ valueThreshold (oddsComparison rt) = threshold
              /\ maxSize (state (calls rt)) = size
              /\ autoSell (state (calls rt)) = enabled).
  { unfold rt, Runtime.run.
    assert (H0 : config_ok (calls (Runtime.new threshold size enabled limit))
                 /\ JSMap.wf (boltOddsData
                                (oddsComparison
                                   (Runtime.new threshold size enabled limit)))
                 /\ JSMap.wf (polymarketData
                                (oddsComparison
                                   (Runtime.new threshold size enabled limit)))
                 /\ valueThreshold
                      (oddsComparison
                         (Runtime.new threshold size enabled limit))
                    = threshold
                 /\ maxSize (state (calls (Runtime.new threshold size enabled
                                                       limit))) = size
                 /\ autoSell (state (calls (Runtime.new threshold size enabled
                                                        limit))) = enabled).
    { split; [apply init_ok|]. repeat split; constructor. }
    revert H0. generalize (Runtime.new threshold size enabled limit).
    induction es as [|e es IH]; intros r H0; cbn [fold_left]; [exact H0|].
    apply IH. destruct H0 as (B1 & B2 & B3 & B4 & B5 & B6).
    destruct (@step_keeps r e B1 B2 B3) as (S1 & S2 & S3 & S4 & S5 & S6).
    split; [exact S1|]. split; [exact S2|]. split; [exact S3|].
    split; [congruence|]. split; congruence. }
  destruct H as (Hc & Hb & Hp & Ht & Hs & Ha).
  assert (Hok : ledger_ok bot).
  { apply view_ok. destruct Hc as [Hst _]. exact Hst. }
  destruct Hok as [Hwf Hopen].
  split; [|split; [|auto 10]].
  - intros tok. unfold openPositions. rewrite length_map.
    apply wf_filter_key. exact Hwf.
  - intros tok p Hget. apply Hopen. apply get_in. exact Hget.
Qed.

End RuntimeInvariant.

(* ------------------------------------------------------------------------- *)
(** ** The opportunities of the two stores *)

Section OpportunitiesOfTheStores.
Import OddsComparison OddsData.

(** A loop whose body leaves the fields as they are computes a fold and
    leaves the fields as they are. *)
Lemma forEach_reads (A B : Type) (body : B -> A -> Methods.Method B)
    (f : B -> A -> B) (this : t) (l : list A) (acc : B) :
  (forall acc x, body acc x this = (f acc x, this)) ->
  Methods.forEach l body acc this = (fold_left f l acc, this).
Proof.
  intros Hbody. revert acc.
  induction l as [|x l IH]; intros acc; cbn [Methods.forEach fold_left].
  - reflexivity.
  - unfold Methods.bind. rewrite Hbody. apply IH.
Qed.

Lemma findMatchingMarkets_reads (now : Z) (st : t) :
  Methods.findMatchingMarkets now st = (findMatchingMarkets now st, st).
Proof.
  unfold Methods.findMatchingMarkets, Methods.bind, Methods.read.
  unfold findMatchingMarkets.
  apply forEach_reads. intros acc ge.
  apply forEach_reads. intros acc' pe. reflexivity.
Qed.

Lemma findTradingOpportunities_reads (now : Z) (st : t) :
  Methods.findTradingOpportunities now st
  = (findTradingOpportunities now st, st).
Proof.
  unfold Methods.findTradingOpportunities, Methods.bind.
  rewrite findMatchingMarkets_reads.
  rewrite (@forEach_reads _ _ _
             (fun opportunities m =>
                match calculateValue (valueThreshold st) m with
                | Some v => opportunities ++ [opportunityOf m v]
                | None => opportunities
                end) st).
  - reflexivity.
  - intros acc m. reflexivity.
Qed.

Lemma found_pairs (now : Z) (st : t) :
  collectOpportunities (valueThreshold st) (findMatchingMarkets now st)
  = flat_map
      (fun ge : string * BoltSnapshot =>
         flat_map
           (fun pe : string * PolySnapshot =>
              pushed (Methods.found (valueThreshold st) now ge pe))
           (polymarketData st))
      (boltOddsData st).
Proof.
  rewrite collectOpportunities_pushed, findMatchingMarkets_pairs.
  induction (boltOddsData st) as [|ge r IH]; [reflexivity|].
  cbn [flat_map]. rewrite flat_map_app, IH. f_equal.
  clear IH. induction (polymarketData st) as [|pe r' IH]; [reflexivity|].
  cbn [flat_map]. rewrite flat_map_app, IH. f_equal.
  unfold Methods.found.
  destruct (compareMarkets now (fst ge) (snd ge) (fst pe) (snd pe));
    cbn [pushed flat_map]; [apply app_nil_r | reflexivity].
Qed.

(** What the two loops make of one game and one token. *)
Lemma found_cases (thr : num) (now : Z) (ge : string * BoltSnapshot)
    (pe : string * PolySnapshot) :
  (Fin 0 <=? thr)%num = true ->
  let d := Methods.oddsOf pe in
  (Methods.found thr now ge pe = None
   /\ (sport (bs_data (snd ge)) = "NHL"%string ->
       forall out, In out (findMoneylineOutcomes (snd ge)) ->
                   (edge d out >? thr)%num = false))
  \/ (exists pre best post,
         sport (bs_data (snd ge)) = "NHL"%string
         /\ findMoneylineOutcomes (snd ge) = pre ++ best :: post
         /\ (edge d best >? thr)%num = true
         /\ (forall out, In out (findMoneylineOutcomes (snd ge)) ->
                         (edge d out >? edge d best)%num = false)
         /\ (forall out, In out pre -> (edge d out >=? edge d best)%num = false)
         /\ Methods.found thr now ge pe
            = Some (mkOpportunity
                      (mkComparison (fst ge) (fst pe)
                         (extractGameInfo (snd ge))
                         (findMoneylineOutcomes (snd ge))
                         (mkPolyView (fst pe)
                            (price_or_default (price (ps_data (snd pe))))
                            (polymarketPriceToDecimal
                               (price_or_default (price (ps_data (snd pe)))))
                            (polymarketPriceToAmerican
                               (price_or_default (price (ps_data (snd pe))))))
                         now)
                      (mkValueAnalysis (edge d best) best d
                         (calculateConfidence (edge d best)))
                      (mkRecommendation (fst pe)
                         (calculateConfidence (edge d best))
                         (edge d best)))).
Proof.
  intros Hthr d. unfold Methods.found.
  rewrite compareMarkets_matchable. unfold matchable.
  destruct (String.eqb (sport (bs_data (snd ge))) "NHL") eqn:Hs.
  2:{ left. split; [reflexivity|]. intros E.
      apply String.eqb_eq in E. congruence. }
  apply String.eqb_eq in Hs.
  destruct (findMoneylineOutcomes (snd ge)) as [|o0 os] eqn:Hos.
  { left. split; [reflexivity|]. intros _ out []. }
  rewrite <- Hos. replace (Nat.eqb (List.length (findMoneylineOutcomes (snd ge))) 0)
    with false by (rewrite Hos; reflexivity).
  cbn [andb negb].
  match goal with
  | |- context [opportunityFor thr ?c] => set (m := c)
  end.
  destruct (@calculateValue_cases thr m Hthr)
    as [[Hnone Hlow] | (pre & best & post & Hseen & Hb & Hmax & Hfirst & Hsome)].
  - left. unfold opportunityFor. rewrite Hnone. split; [reflexivity|].
    intros _. exact Hlow.
  - right. exists pre, best, post. unfold opportunityFor. rewrite Hsome.
    split; [exact Hs|]. split; [exact Hseen|]. split; [exact Hb|].
    split; [exact Hmax|]. split; [exact Hfirst|]. reflexivity.
Qed.

(** C6. [findTradingOpportunities] returns, for every game of the odds
    store and every token of the price store, at most one opportunity
    (the list is, up to order, what the pairs give, game by game and
    token by token).  A pair gives one exactly when the game is an NHL
    game with a moneyline outcome whose edge against the decimal odds of
    the token is above the threshold.  The opportunity then names the
    game key and the token, carries the moneyline outcomes of the game
    and the price of the token (or the default), and its value is the
    edge of one of these outcomes, above the threshold and exceeded by
    the edge of no outcome of the game.  The list is in descending order
    of value.  Run as a method on the fields of the object, the call
    returns that list and leaves both stores and the threshold as they
    were; a later call on the same stores returns the same
    opportunities, the time stamp of the pass apart.  The threshold is
    the configured MIN_VALUE_THRESHOLD, 0 or more. *)
Theorem findTradingOpportunities_sorted_pure :
  forall (now : Z) (st : t),
    (Fin 0 <=? valueThreshold st)%num = true ->
    let thr := valueThreshold st in
    let opps := findTradingOpportunities now st in
    Permutation opps
      (flat_map
         (fun ge : string * BoltSnapshot =>
            flat_map
              (fun pe : string * PolySnapshot =>
                 pushed (Methods.found thr now ge pe))
              (polymarketData st))
         (boltOddsData st))
    /\ (forall ge pe,
           ((exists o, Methods.found thr now ge pe = Some o)
            <-> sport (bs_data (snd ge)) = "NHL"%string
                /\ exists out,
                     In out (findMoneylineOutcomes (snd ge))
                     /\ (edge (Methods.oddsOf pe) out >? thr)%num = true)
           /\ (forall o,
                  Methods.found thr now ge pe = Some o ->
                  gameKey (op_match o) = fst ge
                  /\ tokenId (op_match o) = fst pe
                  /\ rec_tokenId (recommendation o) = fst pe
                  /\ boltOdds (op_match o) = findMoneylineOutcomes (snd ge)
                  /\ pv_price (polymarket (op_match o))
                     = price_or_default (price (ps_data (snd pe)))
                  /\ In (outcome (valueAnalysis o))
                        (findMoneylineOutcomes (snd ge))
                  /\ edgeValue o
                     = edge (Methods.oddsOf pe) (outcome (valueAnalysis o))
                  /\ (edgeValue o >? thr)%num = true
                  /\ (forall out,
                         In out (findMoneylineOutcomes (snd ge)) ->
                         (edge (Methods.oddsOf pe) out >? edgeValue o)%num
                         = false)
                  /\ expectedValue (recommendation o) = edgeValue o
                  /\ rec_confidence (recommendation o)
                     = calculateConfidence (edgeValue o)))
    /\ (forall o,
           In o opps
           <-> exists ge pe,
                 In ge (boltOddsData st) /\ In pe (polymarketData st)
                 /\ Methods.found thr now ge pe = Some o)
    /\ StronglySorted
         (fun a b => (edgeValue a >=? edgeValue b)%num = true) opps
    /\ Methods.findTradingOpportunities now st = (opps, st)
    /\ (forall now',
           findTradingOpportunities now' st = map (at_time now') opps).
Proof.
  intros now st Hthr thr opps.
  assert (Hperm : Permutation opps
                    (collectOpportunities thr (findMatchingMarkets now st))).
  { apply (js_sort_perm edgeValue). }
  pose proof (found_pairs now st) as Hpairs. fold thr in Hpairs.
  split; [rewrite <- Hpairs; exact Hperm|].
  split; [|split; [|split; [|split]]].
  - intros ge pe.
    destruct (@found_cases thr now ge pe Hthr)
      as [[Hnone Hlow]
         | (pre & best & post & Hs & Hseen & Hb & Hmax & _ & Hsome)].
    + rewrite Hnone. split; [|intros o [=]]. split.
      * intros [o [=]].
      * intros [Hs [out [Hin Hgt]]].
        rewrite (Hlow Hs _ Hin) in Hgt. discriminate.
    + assert (Hin : In best (findMoneylineOutcomes (snd ge))).
      { rewrite Hseen. apply in_or_app. right. left. reflexivity. }
      rewrite Hsome. split.
      * split; [intros _ | eauto].
        split; [exact Hs|]. exists best. auto.
      * intros o [= <-].
        cbn [op_match gameKey tokenId recommendation rec_tokenId boltOdds
             polymarket pv_price valueAnalysis outcome expectedValue
             rec_confidence].
        unfold edgeValue. cbn [valueAnalysis value].
        repeat (split; [first [reflexivity | assumption]|]).
        reflexivity.
  - intros o. split.
    + intros Ho. apply (Permutation_in _ Hperm) in Ho.
      rewrite Hpairs in Ho.
      apply in_flat_map in Ho. destruct Ho as (ge & Hge & Ho).
      apply in_flat_map in Ho. destruct Ho as (pe & Hpe & Ho).
      exists ge, pe. split; [exact Hge|]. split; [exact Hpe|].
      destruct (Methods.found thr now ge pe) as [o'|];
        cbn [pushed] in Ho; [|contradiction].
      destruct Ho as [<-|[]]. reflexivity.
    + intros (ge & pe & Hge & Hpe & Ho).
      apply (Permutation_in _ (Permutation_sym Hperm)).
      rewrite Hpairs.
      apply in_flat_map. exists ge. split; [exact Hge|].
      apply in_flat_map. exists pe. split; [exact Hpe|].
      rewrite Ho. left. reflexivity.
  - apply (js_sort_sorted edgeValue).
    apply Forall_forall. intros o Ho.
    apply in_collect in Ho. destruct Ho as (m & v & _ & Hv & ->).
    apply calculateValue_above in Hv.
    apply (gtb_not_nan_l _ _ Hv).
  - apply findTradingOpportunities_reads.
  - intros now'. unfold opps, findTradingOpportunities.
    rewrite (findMatchingMarkets_stamped now now'),
      collectOpportunities_stamped.
    apply (js_sort_map edgeValue (at_time now')).
    intros a. reflexivity.
Qed.

Lemma findTradingOpportunities_sorted_pure_witness :
  let opps := findTradingOpportunities 10 Demo.stores in
  (Fin 0 <=? valueThreshold Demo.stores)%num = true
  /\ map (fun o => (tokenId (op_match o), team (outcome (valueAnalysis o))))
         opps
     = [("token-3", "Montreal Canadiens");
        ("token-1", "Montreal Canadiens")]%string
  /\ List.length (boltOddsData Demo.stores) = 1%nat
  /\ JSMap.keys (polymarketData Demo.stores)
     = ["token-1"; "token-2"; "token-3"]%string
  /\ (forall o, In o opps ->
                exists ge pe,
                  In ge (boltOddsData Demo.stores)
                  /\ In pe (polymarketData Demo.stores)
                  /\ Methods.found (valueThreshold Demo.stores) 10 ge pe
                     = Some o)
  /\ StronglySorted (fun a b => (edgeValue a >=? edgeValue b)%num = true) opps
  /\ Methods.findTradingOpportunities 10 Demo.stores = (opps, Demo.stores)
  /\ findTradingOpportunities 20 Demo.stores = map (at_time 20) opps.
Proof.
  intros opps.
  split; [reflexivity|].
  destruct (@findTradingOpportunities_sorted_pure 10 Demo.stores eq_refl)
    as (_ & _ & Hin & Hsorted & Hreads & Hagain).
  split; [vm_compute; reflexivity|].
  split; [reflexivity|]. split; [reflexivity|].
  split; [intros o Ho; exact (proj1 (Hin o) Ho)|].
  split; [exact Hsorted|]. split; [exact Hreads | apply Hagain].
Defined.

End OpportunitiesOfTheStores.

(* ------------------------------------------------------------------------- *)
(** ** Prices outside (0,1) *)

Section PriceIngestion.
Import OddsComparison OddsData.

Lemma calculateValue_null_odds (thr : num) (c : Comparison) :
  pv_decimalOdds (polymarket c) = None -> calculateValue thr c = None.
Proof.
  intros H. unfold calculateValue. rewrite H. cbn [falsy].
  rewrite orb_true_r. reflexivity.
Qed.

(** A truthy price at most 0 or at least 1 goes into the comparison as
    it is, with null odds. *)
Lemma compareMarkets_out_of_range (now : Z) (k : string) (b : BoltSnapshot)
    (tok : string) (ps : PolySnapshot) (p : num) (m : Comparison) :
  price (ps_data ps) = PriceNum p ->
  truthy p = true ->
  ((p <=? Fin 0) || (p >=? Fin 1))%num = true ->
  compareMarkets now k b tok ps = Some m ->
  pv_price (polymarket m) = p
  /\ pv_decimalOdds (polymarket m) = None
  /\ pv_americanOdds (polymarket m) = None.
Proof.
  intros Hp Ht Hr Hm. rewrite compareMarkets_matchable in Hm.
  destruct (matchable b); [|discriminate]. injection Hm as <-.
  cbn [polymarket pv_price pv_decimalOdds pv_americanOdds].
  rewrite Hp. cbn [price_or_default]. rewrite Ht.
  split; [reflexivity|]. split.
  - apply polymarketPriceToDecimal_null. exact Hr.
  - apply polymarketPriceToAmerican_null. exact Hr.
Qed.

(** C1, amended.  [updatePolymarketData] checks nothing: whatever the
    price, afterwards the token maps to the given market data with the
    ingestion time, and every other token, the odds store and the
    threshold are as before.  What the stored price does afterwards,
    compared with an NHL game that has a moneyline outcome:
    - a price other than 0 that is at most 0 or at least 1 goes into the
      comparison as it is, with null decimal and American odds, and
      [calculateValue] returns null for that comparison at every
      threshold; no opportunity of a later pass is on the token;
    - a price of 0 (or NaN) is replaced by the default 0.5, and the
      comparison carries decimal odds 2 and American odds +100. *)
Theorem updatePolymarketData_upserts :
  forall (now : Z) (tok : string) (md : MarketData) (st : t),
    let st' := updatePolymarketData now tok md st in
    (forall tok',
        JSMap.get tok' (polymarketData st')
        = if String.eqb tok' tok then Some (mkPolySnapshot md now)
          else JSMap.get tok' (polymarketData st))
    /\ boltOddsData st' = boltOddsData st
    /\ valueThreshold st' = valueThreshold st
    /\ (forall pass k b,
           matchable b = true ->
           exists m,
             compareMarkets pass k b tok (mkPolySnapshot md now) = Some m
             /\ tokenId m = tok
             /\ (forall p,
                    price md = PriceNum p -> truthy p = true ->
                    ((p <=? Fin 0) || (p >=? Fin 1))%num = true ->
                    pv_price (polymarket m) = p
                    /\ pv_decimalOdds (polymarket m) = None
                    /\ pv_americanOdds (polymarket m) = None
                    /\ forall thr, calculateValue thr m = None)
             /\ (forall p,
                    price md = PriceNum p -> truthy p = false ->
                    pv_price (polymarket m) = Fin (1 # 2)
                    /\ pv_decimalOdds (polymarket m) = Some (Fin 2)
                    /\ pv_americanOdds (polymarket m) = Some (Fin 100)))
    /\ (forall p pass o,
           JSMap.wf (polymarketData st) ->
           price md = PriceNum p -> truthy p = true ->
           ((p <=? Fin 0) || (p >=? Fin 1))%num = true ->
           In o (findTradingOpportunities pass st') ->
           tokenId (op_match o) <> tok).
Proof.
  intros now tok md st st'. subst st'.
  split; [intros tok'; apply get_set|].
  split; [reflexivity|]. split; [reflexivity|]. split.
  - intros pass k b Hb.
    assert (Hm : exists m,
               compareMarkets pass k b tok (mkPolySnapshot md now) = Some m).
    { rewrite compareMarkets_matchable, Hb. eexists. reflexivity. }
    destruct Hm as [m Hm]. exists m. split; [exact Hm|].
    split; [|split].
    + rewrite compareMarkets_matchable, Hb in Hm. injection Hm as <-.
      reflexivity.
    + intros p Hp Ht Hr.
      destruct (@compareMarkets_out_of_range pass k b tok
                  (mkPolySnapshot md now) p m Hp Ht Hr Hm)
        as (H1 & H2 & H3).
      split; [exact H1|]. split; [exact H2|]. split; [exact H3|].
      intros thr. apply calculateValue_null_odds. exact H2.
    + intros p Hp Ht.
      rewrite compareMarkets_matchable, Hb in Hm. injection Hm as <-.
      cbn [polymarket pv_price pv_decimalOdds pv_americanOdds ps_data].
      rewrite Hp. cbn [price_or_default]. rewrite Ht.
      split; [reflexivity|]. split; reflexivity.
  - intros p pass o Hwf Hp Ht Hr Ho Htok.
    apply in_findTradingOpportunities in Ho.
    destruct Ho as (m & v & Hm & Hv & ->).
    apply in_findMatchingMarkets in Hm.
    destruct Hm as (ge & [tok' ps] & _ & Hpe & E).
    cbn [fst snd] in E.
    assert (Htok' : tok' = tok).
    { pose proof E as E'. rewrite compareMarkets_matchable in E'.
      destruct (matchable (snd ge)); [|discriminate].
      injection E' as <-. exact Htok. }
    subst tok'.
    cbn [updatePolymarketData polymarketData] in Hpe.
    assert (Hps : ps = mkPolySnapshot md now).
    { pose proof (@in_get _ _ _ _ (wf_set tok (mkPolySnapshot md now) Hwf) Hpe)
        as G.
      rewrite get_set, String.eqb_refl in G. congruence. }
    subst ps.
    destruct (@compareMarkets_out_of_range pass (fst ge) (snd ge) tok
                (mkPolySnapshot md now) p m Hp Ht Hr E)
      as (_ & H2 & _).
    rewrite (calculateValue_null_odds _ _ H2) in Hv. discriminate.
Qed.

(** A price of 1.5 written for a token of the sample stores: the
    snapshot is stored, and the token gives no opportunity any more. *)
Example price_above_one_gives_no_opportunity :
  let st := updatePolymarketData 5 "token-3"
              (mkMarketData (PriceNum (Fin (3 # 2)))) Demo.stores in
  JSMap.get "token-3" (polymarketData st)
  = Some (mkPolySnapshot (mkMarketData (PriceNum (Fin (3 # 2)))) 5)
  /\ map (fun o => tokenId (op_match o)) (findTradingOpportunities 10 st)
     = ["token-1"]%string
  /\ map (fun o => tokenId (op_match o))
         (findTradingOpportunities 10 Demo.stores)
     = ["token-3"; "token-1"]%string.
Proof. vm_compute. repeat split. Qed.

(** A price of 0 written for a token: the snapshot is stored, and the
    token is compared at the default price of one half. *)
Example price_zero_compared_at_one_half :
  let st := updatePolymarketData 5 "token-3"
              (mkMarketData (PriceNum (Fin 0))) Demo.stores in
  JSMap.get "token-3" (polymarketData st)
  = Some (mkPolySnapshot (mkMarketData (PriceNum (Fin 0))) 5)
  /\ map (fun m => (tokenId m, pv_price (polymarket m)))
         (findMatchingMarkets 10 st)
     = [("token-1", Fin (45 # 100)); ("token-2", Fin (50 # 100));
        ("token-3", Fin (1 # 2))]%string.
Proof. vm_compute. repeat split. Qed.

End PriceIngestion.

(* ------------------------------------------------------------------------- *)
(** ** Two buys of one token *)

Section SecondPosition.
Import OddsComparison Exchange TradingBot Interleaved Runtime.

(** C2, where the code departs from it.  The price store holds token-3
    at 0.30 and the feed delivers the same NHL game twice before the
    exchange has answered anything.  Each delivery runs
    [checkTradingOpportunities], which starts [evaluateOpportunity]
    without awaiting it, so the second call tests [activePositions.has]
    before the first has recorded its position.  Both calls buy: two
    position objects are created for token-3, both with status open, the
    history holds two buys and no sell, and the Map keeps the second
    only: the first position has left the active set without being
    closed. *)
Theorem second_position_opened_in_flight :
  let rt :=
    Runtime.run
      [PriceWritten 0 "token-3" (mkMarketData (PriceNum (Fin (30 # 100))));
       Message 1 "initial_state" (Some Demo.mockBoltData);
       Message 2 "line_update" (Some Demo.mockBoltData);
       BookAnswered 0 (Resolved Demo.book);
       BookAnswered 0 (Resolved Demo.book);
       OrderAnswered 0 3 (Resolved (mkOrderResult "buy-1"));
       OrderAnswered 0 4 (Resolved (mkOrderResult "buy-2"))]
      (Runtime.new (Fin (5 # 100)) (Fin 100) true (Fin (1 # 10))) in
  let st := state (calls rt) in
  map (fun p => (pos_tokenId p, pos_orderId p, status p)) (objects st)
  = [("token-3", "buy-1", StatusOpen); ("token-3", "buy-2", StatusOpen)]%string
  /\ map (fun e : string * Position => (fst e, pos_orderId (snd e)))
         (entries st)
     = [("token-3", "buy-2")]%string
  /\ map (fun h => match h with
                   | Buy p r => ("buy", pos_tokenId p, order_id r)
                   | Sell tok _ _ _ r => ("sell", tok, order_id r)
                   end) (history st)
     = [("buy", "token-3", "buy-1"); ("buy", "token-3", "buy-2")]%string
  /\ pending (calls rt) = [].
Proof. vm_compute. repeat split. Qed.

End SecondPosition.
